(** * Natron render core: a shallow embedding of [Engine/EffectInstance.cpp]

    The modules of the development:

    - [RectI], [RectD]: rectangles as the render code uses them;
    - [Actions]: the [ActionsCache] class (lines 62-249);
    - [Heuristic]: [EffectInstance::ifInfiniteApplyHeuristic] (1335-1433);
    - [CacheLookup]: [EffectInstance::getImageFromCacheAndConvertIfNeeded]
      (1572-1749);
    - [Tile]: [EffectInstance::tiledRenderingFunctor] (3521-3819);
    - [Render]: [EffectInstance::renderRoI] (1986-2483 and its tail);
    - [Scheduler]: the output scheduler of [Engine/OutputSchedulerThread.h];
    - [Scene], [Studio]: two small graphs the statements are run on;
    - [TileResult]: where a tile worker leaves what it has rendered;
    - [PublicActions]: [isIdentity_public], [getRegionOfDefinition_public]
      and [getFrameRange_public] over the actions cache (4419-4648);
    - [Graph]: the walks over the inputs of a node: [getInputNumber],
      [getFrameRange], the default [getRegionOfDefinition],
      [getNearestNonDisabled], [getNearestNonDisabledPrevious],
      [isFrameVaryingOrAnimated_Recursive];
    - [Planes]: [getComponentsNeededAndProduced] and
      [getComponentsAvailableRecursive] (4757-4949), with [Ring], a graph
      that has a cycle;
    - [Trimap]: the registry of the images being rendered (401-486) and the
      stretch of [renderRoI] that uses it (2738-2823);
    - [OutputEffect]:
      [OutputEffectInstance::ifInfiniteclipRectToProjectDefault] (5446-5477).

    Integers of the source ([int], [SequenceTime]) are [Z]; unsigned ones
    ([unsigned int] mipmap levels, [U64] hashes) are [N].  Coordinates of a
    [RectD] are doubles in the source; the code embedded here only compares
    them and selects among them with [std::min] and [std::max], so they are
    modelled by [Z] with the same order. *)

From Stdlib Require Import ZArith Lia List Bool Sorted.
From stdpp Require Import base gmap list option.

(** ** Rectangles *)

(** Modelled from the spec: [Engine/Rect.h] is not among the sources.  A pixel
    rectangle is the integer box [x1 <= x < x2], [y1 <= y < y2]; it is "empty"
    ([isNull]) when it has no area, and [intersect] answers [false] (here
    [None]) when either operand is empty or the boxes are disjoint, leaving
    the output untouched. *)
Module RectI.
Local Open Scope Z_scope.

Record t := mk { x1 : Z; y1 : Z; x2 : Z; y2 : Z }.

Definition isNull (r : t) : bool := (x2 r <=? x1 r) || (y2 r <=? y1 r).

Definition intersect (a b : t) : option t :=
  if isNull a || isNull b then None
  else if (x2 b <? x1 a) || (x2 a <? x1 b) || (y2 b <? y1 a) || (y2 a <? y1 b)
  then None
  else Some (mk (Z.max (x1 a) (x1 b)) (Z.max (y1 a) (y1 b))
                (Z.min (x2 a) (x2 b)) (Z.min (y2 a) (y2 b))).

Definition contains (a b : t) : bool :=
  (x1 a <=? x1 b) && (y1 a <=? y1 b) && (x2 b <=? x2 a) && (y2 b <=? y2 a).

(** The pixel [(x, y)] lies in the box. *)
Definition covers (r : t) (x y : Z) : bool :=
  (x1 r <=? x) && (x <? x2 r) && (y1 r <=? y) && (y <? y2 r).

#[global] Instance eq_dec : EqDecision t.
Proof. solve_decision. Defined.

End RectI.

(** Modelled from the spec: the canonical rectangle of [Engine/Rect.h], which
    is not among the sources; same shape as [RectI.t], with [clear] resetting
    it to the default-constructed (empty) rectangle. *)
Module RectD.
Local Open Scope Z_scope.

Record t := mk { x1 : Z; y1 : Z; x2 : Z; y2 : Z }.

Definition isNull (r : t) : bool := (x2 r <=? x1 r) || (y2 r <=? y1 r).

Definition null : t := mk 0 0 0 0.

#[global] Instance eq_dec : EqDecision t.
Proof. solve_decision. Defined.

End RectD.

(** ** The actions cache (EffectInstance.cpp, anonymous namespace) *)

Module Actions.
Local Open Scope Z_scope.

Record ActionKey := mkActionKey {
  time : Z;
  view : Z;
  mipMapLevel : N
}.

Record IdentityResults := mkIdentityResults {
  inputIdentityNb : Z;
  inputIdentityTime : Z
}.

(** [CompareActionsCacheKeys::operator()]: the strict order of the two
    [std::map]s, lexicographic on time, then mipmap level, then view. *)
Definition CompareActionsCacheKeys (lhs rhs : ActionKey) : bool :=
  if time lhs <? time rhs then true
  else if time lhs =? time rhs then
    if (mipMapLevel lhs <? mipMapLevel rhs)%N then true
    else if (mipMapLevel lhs =? mipMapLevel rhs)%N then
      if view lhs <? view rhs then true else false
    else false
  else false.

(** Two keys name the same [std::map] slot when neither is below the other. *)
Definition sameSlot (a b : ActionKey) : bool :=
  negb (CompareActionsCacheKeys a b) && negb (CompareActionsCacheKeys b a).

#[global] Instance ActionKey_eq_dec : EqDecision ActionKey.
Proof. solve_decision. Defined.

#[global] Instance ActionKey_countable : Countable ActionKey.
Proof.
  apply (inj_countable' (fun k => (time k, view k, mipMapLevel k))
                        (fun p => mkActionKey p.1.1 p.1.2 p.2)).
  by intros [].
Defined.

#[global] Instance IdentityResults_eq_dec : EqDecision IdentityResults.
Proof. solve_decision. Defined.

(** [class ActionsCache]; the mutex is left out: every method holds it from
    entry to exit, so the methods are atomic state transformers.  The two
    [std::map]s are finite maps on [ActionKey] ([sameSlot] is equality of
    keys, see [sameSlot_eq]). *)
Record ActionsCache := mkActionsCache {
  _cacheHash : N;
  _timeDomain : Z * Z;
  _timeDomainSet : bool;
  _identityCache : gmap ActionKey IdentityResults;
  _rodCache : gmap ActionKey RectD.t
}.

(** The constructor: hash 0, nothing stored. *)
Definition empty : ActionsCache := mkActionsCache 0%N (0, 0) false ∅ ∅.

Definition invalidateAll (newHash : N) (c : ActionsCache) : ActionsCache :=
  mkActionsCache newHash (_timeDomain c) false ∅ ∅.

Definition getIdentityResult (hash : N) (time view : Z) (mipMapLevel : N)
    (c : ActionsCache) : option (Z * Z) :=
  if negb (hash =? _cacheHash c)%N then None
  else match _identityCache c !! mkActionKey time view mipMapLevel with
       | Some found => Some (inputIdentityNb found, inputIdentityTime found)
       | None => None
       end.

Definition setIdentityResult (time view : Z) (mipMapLevel : N)
    (inputNbIdentity identityTime : Z) (c : ActionsCache) : ActionsCache :=
  mkActionsCache (_cacheHash c) (_timeDomain c) (_timeDomainSet c)
    (<[mkActionKey time view mipMapLevel :=
         mkIdentityResults inputNbIdentity identityTime]> (_identityCache c))
    (_rodCache c).

Definition getRoDResult (hash : N) (time view : Z) (mipMapLevel : N)
    (c : ActionsCache) : option RectD.t :=
  if negb (hash =? _cacheHash c)%N then None
  else _rodCache c !! mkActionKey time view mipMapLevel.

Definition setRoDResult (time view : Z) (mipMapLevel : N) (rod : RectD.t)
    (c : ActionsCache) : ActionsCache :=
  match _rodCache c !! mkActionKey time view mipMapLevel with
  | Some _ => c (* already set, this is a bug *)
  | None =>
      mkActionsCache (_cacheHash c) (_timeDomain c) (_timeDomainSet c)
        (_identityCache c)
        (<[mkActionKey time view mipMapLevel := rod]> (_rodCache c))
  end.

Definition getTimeDomainResult (hash : N) (c : ActionsCache) : option (Z * Z) :=
  if negb (hash =? _cacheHash c)%N || negb (_timeDomainSet c) then None
  else Some (_timeDomain c).

Definition setTimeDomainResult (first last : Z) (c : ActionsCache) : ActionsCache :=
  mkActionsCache (_cacheHash c) (first, last) true
    (_identityCache c) (_rodCache c).

(** The writers a cache goes through while its hash stays the same: every
    method but [invalidateAll]. *)
Inductive Store :=
| StoreRoD (time view : Z) (mipMapLevel : N) (rod : RectD.t)
| StoreIdentity (time view : Z) (mipMapLevel : N) (inputNbIdentity identityTime : Z)
| StoreTimeDomain (first last : Z).

Definition store (op : Store) (c : ActionsCache) : ActionsCache :=
  match op with
  | StoreRoD t v m rod => setRoDResult t v m rod c
  | StoreIdentity t v m nb it => setIdentityResult t v m nb it c
  | StoreTimeDomain f l => setTimeDomainResult f l c
  end.

Definition stores (ops : list Store) (c : ActionsCache) : ActionsCache :=
  fold_left (fun acc op => store op acc) ops c.

(** A cache tagged with hash 7 that holds one region of definition, for
    frame 5, view 0, mipmap level 0. *)
Definition rodA : RectD.t := RectD.mk 0 0 640 480.
Definition rodB : RectD.t := RectD.mk 0 0 10 10.
Definition cacheA : ActionsCache := setRoDResult 5 0 0 rodA (invalidateAll 7 empty).

End Actions.

(** ** Status codes *)

(** Modelled from the spec: [Natron::StatusEnum] of [Global/Enums.h], which is
    not among the sources; the constructors are the values the render code
    tests for, every other value standing behind [eStatusOther]. *)
Inductive StatusEnum :=
| eStatusOK
| eStatusFailed
| eStatusReplyDefault
| eStatusOther.

#[global] Instance StatusEnum_eq_dec : EqDecision StatusEnum.
Proof. solve_decision. Defined.

(** ** The infinite-RoD heuristic (EffectInstance.cpp, 1335-1433) *)

Module Heuristic.
Local Open Scope Z_scope.

(** What [ifInfiniteApplyHeuristic] reads from its surroundings.  The two
    OpenFX flags and [RectD::merge] are declared outside the sources and are
    taken as they come. *)
Record Env := mkEnv {
  (** [kOfxFlagInfiniteMin], [kOfxFlagInfiniteMax] of the OpenFX headers *)
  kOfxFlagInfiniteMin : Z;
  kOfxFlagInfiniteMax : Z;
  (** [projectFormat.toCanonicalFormat()] *)
  projectDefault : RectD.t;
  (** what [calcDefaultRegionOfDefinition] writes: the effect's default RoD *)
  defaultRoD : RectD.t;
  (** one entry per input slot [0 <= i < getMaxInputCount()]: [None] when
      [getInput(i)] is null, else the status and rectangle answered by
      [input->getRegionOfDefinition_public] *)
  inputRoDs : list (option (StatusEnum * RectD.t));
  (** [RectD::merge] *)
  merge : RectD.t -> RectD.t -> RectD.t;
  isGenerator : bool
}.

(** The loop over the inputs: [(inputsUnion, firstInput)] after the slots in
    [slots] have been visited. *)
Fixpoint unionLoop (merge : RectD.t -> RectD.t -> RectD.t)
    (slots : list (option (StatusEnum * RectD.t)))
    (inputsUnion : RectD.t) (firstInput : bool) : RectD.t :=
  match slots with
  | [] => inputsUnion
  | None :: rest => unionLoop merge rest inputsUnion firstInput
  | Some (st, inputRod) :: rest =>
      if decide (st = eStatusFailed) then unionLoop merge rest inputsUnion firstInput
      else if firstInput then unionLoop merge rest inputRod false
      else unionLoop merge rest (merge inputsUnion inputRod) false
  end.

Definition x1Infinite (e : Env) (rod : RectD.t) : bool := RectD.x1 rod <=? kOfxFlagInfiniteMin e.
Definition y1Infinite (e : Env) (rod : RectD.t) : bool := RectD.y1 rod <=? kOfxFlagInfiniteMin e.
Definition x2Infinite (e : Env) (rod : RectD.t) : bool := kOfxFlagInfiniteMax e <=? RectD.x2 rod.
Definition y2Infinite (e : Env) (rod : RectD.t) : bool := kOfxFlagInfiniteMax e <=? RectD.y2 rod.

Definition anyInfinite (e : Env) (rod : RectD.t) : bool :=
  x1Infinite e rod || y1Infinite e rod || x2Infinite e rod || y2Infinite e rod.

(** [inputsUnion] as the function leaves it before clipping: default
    constructed unless some side is infinite. *)
Definition inputsUnion (e : Env) (rod : RectD.t) : RectD.t :=
  if anyInfinite e rod
  then unionLoop (merge e) (inputRoDs e) (defaultRoD e) true
  else RectD.null.

(** The function itself: the returned flag and the rectangle left in [*rod].
    The four [if] blocks run in the order of the source, each reading the
    rectangle as the previous ones left it. *)
Definition ifInfiniteApplyHeuristic (e : Env) (rod : RectD.t) : bool * RectD.t :=
  let x1Inf := x1Infinite e rod in
  let y1Inf := y1Infinite e rod in
  let x2Inf := x2Infinite e rod in
  let y2Inf := y2Infinite e rod in
  let U := inputsUnion e rod in
  let P := projectDefault e in
  let isProjectFormat := false in
  let '(rod, isProjectFormat) :=
    if x1Inf then
      let '(nx1, pf) :=
        if negb (RectD.isNull U) then (Z.min (RectD.x1 U) (RectD.x1 P), isProjectFormat)
        else (RectD.x1 P, true) in
      (RectD.mk nx1 (RectD.y1 rod) (Z.max nx1 (RectD.x2 rod)) (RectD.y2 rod), pf)
    else (rod, isProjectFormat) in
  let '(rod, isProjectFormat) :=
    if y1Inf then
      let '(ny1, pf) :=
        if negb (RectD.isNull U) then (Z.min (RectD.y1 U) (RectD.y1 P), isProjectFormat)
        else (RectD.y1 P, true) in
      (RectD.mk (RectD.x1 rod) ny1 (RectD.x2 rod) (Z.max ny1 (RectD.y2 rod)), pf)
    else (rod, isProjectFormat) in
  let '(rod, isProjectFormat) :=
    if x2Inf then
      let '(nx2, pf) :=
        if negb (RectD.isNull U) then (Z.max (RectD.x2 U) (RectD.x2 P), isProjectFormat)
        else (RectD.x2 P, true) in
      (RectD.mk (Z.min (RectD.x1 rod) nx2) (RectD.y1 rod) nx2 (RectD.y2 rod), pf)
    else (rod, isProjectFormat) in
  let '(rod, isProjectFormat) :=
    if y2Inf then
      let '(ny2, pf) :=
        if negb (RectD.isNull U) then (Z.max (RectD.y2 U) (RectD.y2 P), isProjectFormat)
        else (RectD.y2 P, true) in
      (RectD.mk (RectD.x1 rod) (Z.min (RectD.y1 rod) ny2) (RectD.x2 rod) ny2, pf)
    else (rod, isProjectFormat) in
  let isProjectFormat :=
    if isProjectFormat && negb (isGenerator e) then false else isProjectFormat in
  (isProjectFormat, rod).

(** The side an infinite lower (upper) bound is replaced with. *)
Definition clipLow (U P : RectD.t) (side : RectD.t -> Z) : Z :=
  if RectD.isNull U then side P else Z.min (side U) (side P).
Definition clipHigh (U P : RectD.t) (side : RectD.t -> Z) : Z :=
  if RectD.isNull U then side P else Z.max (side U) (side P).

(** A scene: the RoD of a node is unbounded on the left, its only input is
    defined on [10,50) x [0,50), the project format is 1920 x 1080.  The
    flags are [INT_MIN] and [INT_MAX]; [merge] is the bounding box. *)
Definition boundingBox (a b : RectD.t) : RectD.t :=
  RectD.mk (Z.min (RectD.x1 a) (RectD.x1 b)) (Z.min (RectD.y1 a) (RectD.y1 b))
           (Z.max (RectD.x2 a) (RectD.x2 b)) (Z.max (RectD.y2 a) (RectD.y2 b)).

Definition sceneEnv : Env :=
  mkEnv (-2147483648) 2147483647
        (RectD.mk 0 0 1920 1080) (RectD.mk 0 0 1920 1080)
        [Some (eStatusOK, RectD.mk 10 0 50 50)]
        boundingBox false.

Definition sceneRoD : RectD.t := RectD.mk (-2147483648) 0 100 100.


End Heuristic.

(** ** Images and the cache look-up (EffectInstance.cpp, 1530-1749) *)

Module CacheLookup.
Local Open Scope Z_scope.

(** The types of [Engine/ImageComponents.h], [Engine/ImageParams.h] and
    [Global/Enums.h] are declared outside the sources; the render code uses
    them through the operations below only. *)
Class ImageTypes := {
  ImageComponents : Type;
  ImageComponents_eq_dec :: EqDecision ImageComponents;
  isColorPlane : ImageComponents -> bool;
  isConvertibleTo : ImageComponents -> ImageComponents -> bool;
  ImageBitDepthEnum : Type;
  ImageBitDepthEnum_eq_dec :: EqDecision ImageBitDepthEnum;
  getSizeOfForBitDepth : ImageBitDepthEnum -> Z;
  ImageKey : Type;
  ImageKey_eq_dec :: EqDecision ImageKey;
  FramesNeededMap : Type
}.

Section Images.
Context `{ImageTypes}.

(** [Natron::ImageParams] as [Image::makeParams] builds it. *)
Record ImageParams := makeParams {
  getCost : Z;
  p_rod : RectD.t;
  p_bounds : RectI.t;
  p_par : Z;
  p_mipMapLevel : N;
  p_isRodProjectFormat : bool;
  p_components : ImageComponents;
  p_bitDepth : ImageBitDepthEnum;
  getFramesNeeded : FramesNeededMap
}.

Definition setMipMapLevel (mipMapLevel : N) (p : ImageParams) : ImageParams :=
  makeParams (getCost p) (p_rod p) (p_bounds p) (p_par p) mipMapLevel
    (p_isRodProjectFormat p) (p_components p) (p_bitDepth p) (getFramesNeeded p).

(** A [boost::shared_ptr<Natron::Image>] that is not null: the identity of
    the shared object, its key, and the parameters it was built with.  What
    changes during the life of an image (its bounds, its pixels, its bitmap)
    lives in the store and is read through [CacheOps]. *)
Record Image := mkImage {
  ptr : N;
  getKey : ImageKey;
  getParams : ImageParams;
  usesBitMap : bool
}.

Definition getMipMapLevel (i : Image) : N := p_mipMapLevel (getParams i).
Definition getComponents (i : Image) : ImageComponents := p_components (getParams i).
Definition getBitDepth (i : Image) : ImageBitDepthEnum := p_bitDepth (getParams i).
Definition getRoD (i : Image) : RectD.t := p_rod (getParams i).
Definition getPixelAspectRatio (i : Image) : Z := p_par (getParams i).
Definition isRodProjectFormat (i : Image) : bool := p_isRodProjectFormat (getParams i).

(** The image cache, the project and the pixel routines, over a state [W]
    that stands for everything the calls may touch. *)
Class CacheOps (W : Type) := {
  (** [Natron::getImageFromCache], [Natron::getImageFromDiskCache] *)
  getImageFromCache : ImageKey -> W -> bool * list Image * W;
  getImageFromDiskCache : ImageKey -> W -> bool * list Image * W;
  (** [Natron::getImageFromCacheOrCreate] and its disk twin; [None] is a null
      pointer *)
  getImageFromCacheOrCreate : ImageKey -> ImageParams -> W -> option Image * W;
  getImageFromDiskCacheOrCreate : ImageKey -> ImageParams -> W -> option Image * W;
  (** [new Image(key, params)] *)
  newImage : ImageKey -> ImageParams -> W -> Image * W;
  (** [appPTR->removeFromNodeCache(image)] *)
  removeFromNodeCache : Image -> W -> W;
  (** [getRenderFormat(&f); f.toCanonicalFormat()] *)
  canonicalProjectFormat : W -> RectD.t;
  allocateMemory : Image -> W -> W;
  ensureBounds : Image -> RectI.t -> W -> W;
  getBounds : Image -> W -> RectI.t;
  (** [src->downscaleMipMap(rod, roi, fromLevel, toLevel, copyBitMap, dst)] *)
  downscaleMipMap : Image -> RectD.t -> RectI.t -> N -> N -> bool -> Image -> W -> W;
  errorDialog : W -> W;
  (** [RectI::toCanonical(level, par, rod, &out)],
      [RectD::toPixelEnclosing(level, par, &out)], [RectI::merge] *)
  toCanonical : RectI.t -> N -> Z -> RectD.t -> RectD.t;
  toPixelEnclosing : RectD.t -> N -> Z -> RectI.t;
  mergeI : RectI.t -> RectI.t -> RectI.t
}.

Context {W : Type} `{!CacheOps W}.

(** [static void getOrCreateFromCacheInternal] (1530-1570). *)
Definition getOrCreateFromCacheInternal (key : ImageKey) (params : ImageParams)
    (useCache useDiskCache : bool) (w : W) : option Image * W :=
  if useCache then
    let '(image, w) :=
      if negb useDiskCache then getImageFromCacheOrCreate key params w
      else getImageFromDiskCacheOrCreate key params w in
    match image with
    | None => (None, errorDialog w)
    | Some img =>
        let w := allocateMemory img w in
        let w := ensureBounds img (p_bounds params) w in
        (Some img, w)
    end
  else
    let '(img, w) := newImage key params w in (Some img, w).

(** The request a look-up is made for: the arguments of
    [getImageFromCacheAndConvertIfNeeded] that the loop reads. *)
Record Request := mkRequest {
  mipMapLevel : N;
  bitdepth : ImageBitDepthEnum;
  components : ImageComponents;
  nodePrefDepth : ImageBitDepthEnum;
  nodePrefComps : ImageComponents
}.

(** What the body of the [for] loop (1612-1666) decides for one cached image:
    thrown out of the cache, taken as the match, kept as a candidate to
    downscale from, or passed over. *)
Inductive Verdict := Evicted | Matching | Candidate | Skipped.

#[global] Instance Verdict_eq_dec : EqDecision Verdict.
Proof. solve_decision. Defined.

Definition examine (rq : Request) (it : Image) (w : W) : Verdict :=
  let imgMMlevel := getMipMapLevel it in
  let imgComps := getComponents it in
  let imgDepth := getBitDepth it in
  if isRodProjectFormat it && negb (bool_decide (canonicalProjectFormat w = getRoD it))
  then Evicted
  else if (isColorPlane imgComps && isColorPlane (nodePrefComps rq)
             && negb (bool_decide (imgComps = nodePrefComps rq)))
          || negb (bool_decide (imgDepth = nodePrefDepth rq))
  then Evicted
  else if (imgMMlevel =? mipMapLevel rq)%N && isConvertibleTo imgComps (components rq)
          && (getSizeOfForBitDepth (bitdepth rq) <=? getSizeOfForBitDepth imgDepth)
  then Matching
  else if (mipMapLevel rq <=? imgMMlevel)%N || negb (isConvertibleTo imgComps (components rq))
          || (getSizeOfForBitDepth imgDepth <? getSizeOfForBitDepth (bitdepth rq))
  then Skipped
  else Candidate.

(** An image is deep enough for a request when its pixels are at least as
    large as the pixels asked for, and convertible when its components
    convert to the components asked for. *)
Definition deepEnough (rq : Request) (it : Image) : Prop :=
  getSizeOfForBitDepth (bitdepth rq) <= getSizeOfForBitDepth (getBitDepth it).

Definition convertibleFor (rq : Request) (it : Image) : Prop :=
  isConvertibleTo (getComponents it) (components rq) = true.

(** The [for] loop over [cachedImages]: the state, [*image] and
    [imageToConvert] when it ends ([Matching] is the [break]). *)
Fixpoint lookupLoop (rq : Request) (cachedImages : list Image) (w : W)
    (image imageToConvert : option Image) : W * option Image * option Image :=
  match cachedImages with
  | [] => (w, image, imageToConvert)
  | it :: rest =>
      match examine rq it w with
      | Evicted => lookupLoop rq rest (removeFromNodeCache it w) image imageToConvert
      | Matching => (w, Some it, imageToConvert)
      | Skipped => lookupLoop rq rest w image imageToConvert
      | Candidate =>
          let imageToConvert :=
            match imageToConvert with
            | None => Some it
            | Some cur =>
                (* closer to the requested mipmap level: use it instead *)
                if (getMipMapLevel cur <? getMipMapLevel it)%N then Some it else Some cur
            end in
          lookupLoop rq rest w image imageToConvert
      end
  end.

(** The first loop (1590-1601): the images among [inputImages] (null
    pointers are [None]) that carry the key. *)
Definition fromInputImages (key : ImageKey) (inputImages : list (option Image)) : list Image :=
  omap (fun it => match it with
                  | Some img => if bool_decide (getKey img = key) then Some img else None
                  | None => None
                  end) inputImages.

(** The parameters of the downscaled image (1679-1704). *)
Definition downscaledParams (rq : Request) (bounds : RectI.t) (rod : RectD.t)
    (imageToConvert : Image) (w : W) : ImageParams * RectI.t :=
  let oldParams := getParams imageToConvert in
  let imgToConvertBounds := getBounds imageToConvert w in
  let imgToConvertCanonical :=
    toCanonical imgToConvertBounds (getMipMapLevel imageToConvert)
                (getPixelAspectRatio imageToConvert) rod in
  let imgToConvertBounds :=
    toPixelEnclosing imgToConvertCanonical (getMipMapLevel imageToConvert)
                     (getPixelAspectRatio imageToConvert) in
  let downscaledBounds :=
    toPixelEnclosing imgToConvertCanonical (mipMapLevel rq)
                     (getPixelAspectRatio imageToConvert) in
  let downscaledBounds := mergeI downscaledBounds bounds in
  let pixelRoD := toPixelEnclosing rod (mipMapLevel rq) (p_par oldParams) in
  let downscaledBounds :=
    default downscaledBounds (RectI.intersect downscaledBounds pixelRoD) in
  let imageParams :=
    makeParams (getCost oldParams) rod downscaledBounds (p_par oldParams)
               (mipMapLevel rq) (p_isRodProjectFormat oldParams)
               (p_components oldParams) (p_bitDepth oldParams)
               (getFramesNeeded oldParams) in
  (setMipMapLevel (mipMapLevel rq) imageParams, imgToConvertBounds).

(** Lines 1586-1605: the images carrying the key, from [inputImages] first
    and from the cache otherwise. *)
Definition gatherCached (useDiskCache : bool) (key : ImageKey)
    (inputImages : list (option Image)) (w : W) : bool * list Image * W :=
  let cachedImages := fromInputImages key inputImages in
  let isCached := negb (bool_decide (cachedImages = [])) in
  if negb isCached then
    if negb useDiskCache then getImageFromCache key w
    else getImageFromDiskCache key w
  else (isCached, cachedImages, w).

(** Lines 1668-1745: the image found is made ready, or the candidate is
    downscaled into an image of the requested mipmap level. *)
Definition finishLookup (useCache useDiskCache : bool) (key : ImageKey) (rq : Request)
    (bounds : RectI.t) (rod : RectD.t) (image imageToConvert : option Image) (w : W)
    : W * option Image :=
  match imageToConvert, image with
  | Some imageToConvert, None =>
      let w := allocateMemory imageToConvert w in
      if negb (getMipMapLevel imageToConvert =? mipMapLevel rq)%N then
        let '(imageParams, imgToConvertBounds) :=
          downscaledParams rq bounds rod imageToConvert w in
        let '(img, w) :=
          getOrCreateFromCacheInternal key imageParams useCache useDiskCache w in
        match img with
        | None => (w, None)
        | Some img =>
            let w := downscaleMipMap imageToConvert rod imgToConvertBounds
                       (getMipMapLevel imageToConvert) (getMipMapLevel img)
                       (useCache && usesBitMap imageToConvert) img w in
            let w := ensureBounds img bounds w in
            (w, Some img)
        end
      else (w, Some imageToConvert)
  | _, Some img =>
      let w := allocateMemory img w in
      let w := ensureBounds img bounds w in
      (w, Some img)
  | None, None => (w, None)
  end.

(** [EffectInstance::getImageFromCacheAndConvertIfNeeded]: the state it
    leaves and the pointer it leaves in [*image] ([image] on entry). *)
Definition getImageFromCacheAndConvertIfNeeded (useCache useDiskCache : bool)
    (key : ImageKey) (rq : Request) (bounds : RectI.t) (rod : RectD.t)
    (inputImages : list (option Image)) (image : option Image) (w : W)
    : W * option Image :=
  let '(isCached, cachedImages, w) := gatherCached useDiskCache key inputImages w in
  if isCached then
    let '(w, image, imageToConvert) := lookupLoop rq cachedImages w image None in
    finishLookup useCache useDiskCache key rq bounds rod image imageToConvert w
  else (w, image).

End Images.

End CacheLookup.

(** ** The tile worker (EffectInstance.cpp, 3521-3819) *)

Module Tile.
Import CacheLookup.
Local Open Scope Z_scope.

(** Modelled from the spec: the tile bitmap of [Engine/Image.cpp], which is
    not among the sources.  Every cell is unrendered, rendering or rendered;
    [markForRendering], [markForRendered] and [clearBitmap] set the cells
    covered by a rectangle to rendering, rendered and unrendered. *)
Inductive CellState := Unrendered | Rendering | Rendered.

#[global] Instance CellState_eq_dec : EqDecision CellState.
Proof. solve_decision. Defined.

Definition Bitmap : Type := Z -> Z -> CellState.

Definition fill (r : RectI.t) (s : CellState) (b : Bitmap) : Bitmap :=
  fun x y => if RectI.covers r x y then s else b x y.

Inductive RenderingFunctorRetEnum :=
| eRenderingFunctorRetFailed
| eRenderingFunctorRetOK
| eRenderingFunctorRetTakeImageLock
| eRenderingFunctorRetAborted.

#[global] Instance RenderingFunctorRetEnum_eq_dec : EqDecision RenderingFunctorRetEnum.
Proof. solve_decision. Defined.

Section Functor.
Context `{ImageTypes}.

(** [EffectInstance::PlaneToRender]; a null pointer is [None]. *)
Record PlaneToRender := mkPlaneToRender {
  fullscaleImage : option Image;
  downscaleImage : option Image;
  renderMappedImage : option Image;
  tmpImage : option Image;
  isAllocatedOnTheFly : bool;
  (** a [void*] that is only ever compared: the identity of an image *)
  originalCachedImage : option N
}.

(** A [std::map<ImageComponents, PlaneToRender>] in iteration order. *)
Definition PlaneMap : Type := list (ImageComponents * PlaneToRender).

(** The fields of [EffectInstance::RenderArgs] the worker touches. *)
Record RenderArgs := mkRenderArgs {
  _rod : RectD.t;
  _renderWindowPixel : RectI.t;
  _time : Z;
  _view : Z;
  _validArgs : bool;
  _outputPlanes : PlaneMap
}.

(** The fields of [ParallelRenderArgs] the render code reads and writes. *)
Record ParallelRenderArgs := mkParallelRenderArgs {
  time : Z;
  nodeHash : N;
  view : Z;
  isSequentialRender : bool;
  isRenderResponseToUserInteraction : bool;
  rotoAge : N;
  validArgs : bool;
  canAbort : bool
}.

(** The state a worker runs in: the bitmap of every image (by identity), the
    thread-local [RenderArgs] of the effect on this thread, and [ext] for
    everything else (pixels, the plug-in, the other thread-local stores). *)
Record World (X : Type) := mkWorld {
  bitmaps : N -> Bitmap;
  renderArgs : RenderArgs;
  ext : X
}.
Arguments mkWorld {X}.
Arguments bitmaps {X}.
Arguments renderArgs {X}.
Arguments ext {X}.

Definition setBitmap {X} (i : Image) (f : Bitmap -> Bitmap) (w : World X) : World X :=
  mkWorld (fun p => if (p =? ptr i)%N then f (bitmaps w p) else bitmaps w p)
          (renderArgs w) (ext w).

Definition markForRendering {X} (i : Image) (r : RectI.t) : World X -> World X :=
  setBitmap i (fill r Rendering).
Definition markForRendered {X} (i : Image) (r : RectI.t) : World X -> World X :=
  setBitmap i (fill r Rendered).
Definition clearBitmap {X} (i : Image) (r : RectI.t) : World X -> World X :=
  setBitmap i (fill r Unrendered).

Definition setRenderArgs {X} (a : RenderArgs) (w : World X) : World X :=
  mkWorld (bitmaps w) a (ext w).

Definition onExt {X} (f : X -> X) (w : World X) : World X :=
  mkWorld (bitmaps w) (renderArgs w) (f (ext w)).

(** What the worker calls and does not define. *)
Class TileOps (X : Type) := {
  (** an entry of the [frameTLS] map handed to host-frame-threading workers *)
  FrameTLSEntry : Type;
  (** [new Image(comps, rod, rect, level, par, depth, false)] *)
  newTmpImage : Image -> RectI.t -> World X -> Image * World X;
  imageBounds : Image -> World X -> RectI.t;
  getMinimalRect : Image -> RectI.t -> World X -> RectI.t;
  getMinimalRect_trimap : Image -> RectI.t -> World X -> RectI.t * bool;
  rectToCanonical : RectI.t -> N -> Z -> RectD.t -> RectD.t;
  rectToPixelEnclosing : RectD.t -> N -> Z -> RectI.t;
  (** [render_public(time, originalScale, renderMappedScale, roi, view,
      isSequentialRender, isRenderResponseToUserInteraction, planes)], the
      scales given by their mipmap levels *)
  render_public : Z -> N -> N -> RectI.t -> Z -> bool -> bool -> list Image ->
                  World X -> StatusEnum * World X;
  aborted : World X -> bool;
  (** [ParallelRenderArgsSetter] and [InputImagesHolder_RAII]: what they
      install, and what their destructors undo *)
  enterFrameScopes : list FrameTLSEntry -> list Image -> X -> X;
  leaveFrameScopes : list FrameTLSEntry -> list Image -> X -> X;
  (** [dst->pasteFrom(src, rect, false)] and
      [src->downscaleMipMap(rod, rect, 0, level, false, dst)] *)
  pasteFrom : Image -> Image -> RectI.t -> X -> X;
  downscaleTo : Image -> RectI.t -> N -> Image -> X -> X
}.

Context {X : Type} `{!TileOps X}.

(** The tri-map protocol is followed for a frame that cannot be aborted and
    answers a user interaction ([!frameArgs.canAbort &&
    frameArgs.isRenderResponseToUserInteraction]).  [NATRON_ENABLE_TRIMAP] is
    on: the branches compiled without it name variables the function does not
    declare. *)
Definition useTrimap (frameArgs : ParallelRenderArgs) : bool :=
  negb (canAbort frameArgs) && isRenderResponseToUserInteraction frameArgs.

Definition samePtr (a b : option Image) : bool :=
  match a, b with
  | Some i, Some j => (ptr i =? ptr j)%N
  | None, None => true
  | _, _ => false
  end.

Definition intersectInPlace (r b : RectI.t) : RectI.t :=
  default r (RectI.intersect r b).

(** The loops that give every plane its temporary image (3570-3588 and
    3683-3702): the planes with [tmpImage] set, [tmpPlanes], the state. *)
Fixpoint allocTmpImages (renderRectToRender : RectI.t) (planes : PlaneMap)
    (w : World X) : option (PlaneMap * list Image * World X) :=
  match planes with
  | [] => Some ([], [], w)
  | (c, p) :: rest =>
      rm ← renderMappedImage p;
      let '(tmp, w) :=
        if usesBitMap rm then newTmpImage rm renderRectToRender w else (rm, w) in
      '(rest', tmps, w) ← allocTmpImages renderRectToRender rest w;
      Some ((c, mkPlaneToRender (fullscaleImage p) (downscaleImage p)
                   (renderMappedImage p) (Some tmp) (isAllocatedOnTheFly p)
                   (originalCachedImage p)) :: rest',
            tmp :: tmps, w)
  end.

(** The image whose bitmap tracks the tile, and the tile in its coordinates
    (3713-3717 and 3754-3758). *)
Definition bitmapImage (renderFullScaleThenDownscale renderUseScaleOneInputs : bool)
    (p : PlaneToRender) : option Image :=
  if renderFullScaleThenDownscale && renderUseScaleOneInputs
  then fullscaleImage p else downscaleImage p.

Definition bitmapRect (renderFullScaleThenDownscale renderUseScaleOneInputs : bool)
    (renderRectToRender downscaledRectToRender : RectI.t) : RectI.t :=
  if renderFullScaleThenDownscale && renderUseScaleOneInputs
  then renderRectToRender else downscaledRectToRender.

(** The loop run when [render] failed under the tri-map protocol (3753-3759). *)
Fixpoint clearPlanes (fs so : bool) (renderRectToRender downscaledRectToRender : RectI.t)
    (outputPlanes : PlaneMap) (w : World X) : option (World X) :=
  match outputPlanes with
  | [] => Some w
  | (_, p) :: rest =>
      i ← bitmapImage fs so p;
      clearPlanes fs so renderRectToRender downscaledRectToRender rest
        (clearBitmap i (bitmapRect fs so renderRectToRender downscaledRectToRender) w)
  end.

(** The loop run when [render] succeeded (3772-3813). *)
Fixpoint storePlanes (fs so : bool) (mipMapLevel : N)
    (renderRectToRender downscaledRectToRender : RectI.t)
    (outputPlanes : PlaneMap) (w : World X) : option (World X) :=
  match outputPlanes with
  | [] => Some w
  | (_, p) :: rest =>
      tmp ← tmpImage p;
      w ← (if isAllocatedOnTheFly p then
             rm ← renderMappedImage p;
             let w := if negb (samePtr (Some tmp) (Some rm))
                      then onExt (pasteFrom rm tmp (imageBounds tmp w)) w else w in
             Some (markForRendered rm renderRectToRender w)
           else if fs then
             if negb (mipMapLevel =? 0)%N && negb so then
               ds ← downscaleImage p;
               let w := onExt (downscaleTo tmp renderRectToRender mipMapLevel ds) w in
               Some (markForRendered ds downscaledRectToRender w)
             else
               fsi ← fullscaleImage p;
               let w := if negb (samePtr (Some tmp) (renderMappedImage p))
                        then onExt (pasteFrom fsi tmp renderRectToRender) w else w in
               Some (markForRendered fsi renderRectToRender w)
           else
             ds ← downscaleImage p;
             let w := if negb (samePtr (Some tmp) (Some ds))
                      then onExt (pasteFrom ds tmp downscaledRectToRender) w else w in
             Some (markForRendered ds downscaledRectToRender w));
      storePlanes fs so mipMapLevel renderRectToRender downscaledRectToRender rest w
  end.

(** The rectangle a host-frame-threading worker renders (3598-3671): the
    bitmap is read again, and a rectangle that grew is not taken. *)
Definition workerRect (frameArgs : ParallelRenderArgs) (fs so : bool)
    (mipMapLevel : N) (par : Z) (rod : RectD.t) (downscaledRectToRender : RectI.t)
    (firstDown firstMapped : Image) (w : World X) : RectI.t * bool :=
  if fs && so then
    let canonical := rectToCanonical downscaledRectToRender mipMapLevel par rod in
    let r := rectToPixelEnclosing canonical 0 par in
    let r := intersectInPlace r (imageBounds firstMapped w) in
    let initialRenderRect := r in
    let '(r, elsewhere) :=
      if useTrimap frameArgs then getMinimalRect_trimap firstMapped r w
      else (getMinimalRect firstMapped r w, false) in
    (if negb (RectI.contains initialRenderRect r) then initialRenderRect else r, elsewhere)
  else
    let '(minimal, elsewhere) :=
      if useTrimap frameArgs then getMinimalRect_trimap firstDown downscaledRectToRender w
      else (getMinimalRect firstDown downscaledRectToRender w, false) in
    if fs then
      let src := if RectI.contains downscaledRectToRender minimal
                 then minimal else downscaledRectToRender in
      let canonical := rectToCanonical src mipMapLevel par rod in
      let r := rectToPixelEnclosing canonical 0 par in
      (intersectInPlace r (imageBounds firstMapped w), elsewhere)
    else
      (if RectI.contains downscaledRectToRender minimal
       then minimal else downscaledRectToRender, elsewhere).

(** What is known when the plug-in is about to be called. *)
Record Prepared := mkPrepared {
  renderRectToRender : RectI.t;
  tmpPlanes : list Image;
  isBeingRenderedElseWhere : bool;
  (** the three scoped objects of 3704-3707 exist *)
  scoped : bool;
  firstPlane : PlaneToRender;
  firstDown : Image;
  firstMapped : Image
}.

(** Lines 3535-3708: either the worker has nothing to do and returns, or the
    planes have their temporary images and the thread-local args are set. *)
Definition prepareTile (args : RenderArgs) (frameArgs : ParallelRenderArgs)
    (inputImages : list Image) (frameTLS : list FrameTLSEntry) (fs so : bool)
    (downscaledRectToRender : RectI.t) (par : Z) (planes : PlaneMap) (w : World X)
    : option (RenderingFunctorRetEnum + Prepared * World X) :=
  '(_, firstPlane) ← head planes;
  firstDown ← downscaleImage firstPlane;
  firstMapped ← renderMappedImage firstPlane;
  let mipMapLevel := getMipMapLevel firstDown in
  match frameTLS with
  | [] =>
      let renderRectToRender := _renderWindowPixel args in
      '(planes', tmpPlanes, w) ← allocTmpImages renderRectToRender planes w;
      (* [args] is the thread-local object itself *)
      let args := mkRenderArgs (_rod args) (_renderWindowPixel args) (_time args)
                    (_view args) (_validArgs args) planes' in
      Some (inr (mkPrepared renderRectToRender tmpPlanes false false
                   firstPlane firstDown firstMapped,
                 setRenderArgs args w))
  | _ =>
      let '(renderRectToRender, elsewhere) :=
        workerRect frameArgs fs so mipMapLevel par (_rod args) downscaledRectToRender
                   firstDown firstMapped w in
      if RectI.isNull renderRectToRender then
        Some (inl (if elsewhere then eRenderingFunctorRetTakeImageLock
                   else eRenderingFunctorRetOK))
      else
        '(planes', tmpPlanes, w) ← allocTmpImages renderRectToRender planes w;
        let argsCpy := mkRenderArgs (_rod args) renderRectToRender (_time args)
                         (_view args) true planes' in
        Some (inr (mkPrepared renderRectToRender tmpPlanes elsewhere true
                     firstPlane firstDown firstMapped,
                   onExt (enterFrameScopes frameTLS inputImages)
                         (setRenderArgs argsCpy w)))
  end.

(** The destructors run on the way out, when the scoped objects exist:
    [~InputImagesHolder_RAII], [~ParallelRenderArgsSetter], then
    [~ScopedRenderArgs], which empties [_outputPlanes] and clears
    [_validArgs]. *)
Definition leaveScopes (p : Prepared) (inputImages : list Image)
    (frameTLS : list FrameTLSEntry) (w : World X) : World X :=
  if scoped p then
    let a := renderArgs w in
    setRenderArgs (mkRenderArgs (_rod a) (_renderWindowPixel a) (_time a) (_view a) false [])
                  (onExt (leaveFrameScopes frameTLS inputImages) w)
  else w.

(** Lines 3711-3719: the tile is marked as being rendered. *)
Definition markTile (frameArgs : ParallelRenderArgs) (fs so : bool)
    (downscaledRectToRender : RectI.t) (p : Prepared) (w : World X) : option (World X) :=
  if useTrimap frameArgs then
    i ← bitmapImage fs so (firstPlane p);
    Some (markForRendering i (bitmapRect fs so (renderRectToRender p) downscaledRectToRender) w)
  else Some w.

(** Lines 3735-3818: what the worker does with the status [st] the plug-in
    answered, in the state [w] the plug-in left. *)
Definition finishTile (frameArgs : ParallelRenderArgs) (inputImages : list Image)
    (frameTLS : list FrameTLSEntry) (fs so : bool) (downscaledRectToRender : RectI.t)
    (p : Prepared) (st : StatusEnum) (w : World X)
    : option (RenderingFunctorRetEnum * World X) :=
  let renderAborted := aborted w in
  let outputPlanes := _outputPlanes (renderArgs w) in
  if negb (bool_decide (st = eStatusOK)) then
    w ← (if useTrimap frameArgs
         then clearPlanes fs so (renderRectToRender p) downscaledRectToRender outputPlanes w
         else Some w);
    Some (eRenderingFunctorRetFailed, leaveScopes p inputImages frameTLS w)
  else if renderAborted then
    Some (eRenderingFunctorRetAborted, leaveScopes p inputImages frameTLS w)
  else
    w ← storePlanes fs so (getMipMapLevel (firstDown p)) (renderRectToRender p)
          downscaledRectToRender outputPlanes w;
    Some (if isBeingRenderedElseWhere p then eRenderingFunctorRetTakeImageLock
          else eRenderingFunctorRetOK,
          leaveScopes p inputImages frameTLS w).

(** [EffectInstance::tiledRenderingFunctor]: the code it returns and the
    state it leaves; [None] when it dereferences a null image pointer or
    [planes] is empty. *)
Definition tiledRenderingFunctor (args : RenderArgs) (frameArgs : ParallelRenderArgs)
    (inputImages : list Image) (frameTLS : list FrameTLSEntry)
    (renderFullScaleThenDownscale renderUseScaleOneInputs : bool)
    (isSequentialRender isRenderResponseToUserInteraction : bool)
    (downscaledRectToRender : RectI.t) (par : Z) (planes : PlaneMap) (w : World X)
    : option (RenderingFunctorRetEnum * World X) :=
  prep ← prepareTile args frameArgs inputImages frameTLS renderFullScaleThenDownscale
           renderUseScaleOneInputs downscaledRectToRender par planes w;
  match prep with
  | inl ret => Some (ret, w)
  | inr (p, w) =>
      w ← markTile frameArgs renderFullScaleThenDownscale renderUseScaleOneInputs
            downscaledRectToRender p w;
      let '(st, w) :=
        render_public (_time args) (getMipMapLevel (firstDown p))
          (getMipMapLevel (firstMapped p)) (renderRectToRender p) (_view args)
          isSequentialRender isRenderResponseToUserInteraction (tmpPlanes p) w in
      finishTile frameArgs inputImages frameTLS renderFullScaleThenDownscale
        renderUseScaleOneInputs downscaledRectToRender p st w
  end.

(** [renderRoIInternal], 3456-3482 and 3425-3441: a worker's answer as the
    status of the frame being rendered. *)
Definition renderStatusOf (functorRet : RenderingFunctorRetEnum) : StatusEnum :=
  match functorRet with
  | eRenderingFunctorRetFailed => eStatusFailed
  | eRenderingFunctorRetOK => eStatusOK
  | eRenderingFunctorRetTakeImageLock => eStatusOK
  | eRenderingFunctorRetAborted => eStatusFailed
  end.

Fixpoint renderStatusOfAll (rets : list RenderingFunctorRetEnum)
    (renderStatus : StatusEnum) : StatusEnum :=
  match rets with
  | [] => renderStatus
  | eRenderingFunctorRetFailed :: _ => eStatusFailed
  | eRenderingFunctorRetAborted :: _ => eStatusFailed
  | _ :: rest => renderStatusOfAll rest renderStatus
  end.

End Functor.

Arguments mkWorld {_ X}.
Arguments bitmaps {_ X}.
Arguments renderArgs {_ X}.
Arguments ext {_ X}.

End Tile.

(** ** The evaluator (EffectInstance.cpp, 1986-2887) *)

Module Render.
Import CacheLookup.
Local Open Scope Z_scope.

Inductive RenderRoIRetCode :=
| eRenderRoIRetCodeOk
| eRenderRoIRetCodeAborted
| eRenderRoIRetCodeFailed.

#[global] Instance RenderRoIRetCode_eq_dec : EqDecision RenderRoIRetCode.
Proof. solve_decision. Defined.

Inductive SupportsEnum := eSupportsMaybe | eSupportsNo | eSupportsYes.

#[global] Instance SupportsEnum_eq_dec : EqDecision SupportsEnum.
Proof. solve_decision. Defined.

(** A [std::map] as the list of its entries in iteration order: [insert]
    keeps the order given by [lt] and leaves an entry with an equivalent key
    alone. *)
Fixpoint stdmap_insert {K V : Type} (lt : K -> K -> bool) (k : K) (v : V)
    (m : list (K * V)) : list (K * V) :=
  match m with
  | [] => [(k, v)]
  | (k', v') :: rest =>
      if lt k k' then (k, v) :: m
      else if lt k' k then (k', v') :: stdmap_insert lt k v rest
      else m
  end.

Section Evaluator.
Context `{ImageTypes}.

(** The fields of [EffectInstance::RenderRoIArgs]. *)
Record RenderRoIArgs := mkRenderRoIArgs {
  time : Z;
  mipMapLevel : N;
  view : Z;
  byPassCache : bool;
  roi : RectI.t;
  preComputedRoD : RectD.t;
  components : list ImageComponents;
  bitdepth : ImageBitDepthEnum;
  channelForAlpha : Z;
  inputImagesList : list (option Image)
}.

Definition withTime (t : Z) (a : RenderRoIArgs) : RenderRoIArgs :=
  mkRenderRoIArgs t (mipMapLevel a) (view a) (byPassCache a) (roi a)
    (preComputedRoD a) (components a) (bitdepth a) (channelForAlpha a)
    (inputImagesList a).

Definition withPreComputedRoD (r : RectD.t) (a : RenderRoIArgs) : RenderRoIArgs :=
  mkRenderRoIArgs (time a) (mipMapLevel a) (view a) (byPassCache a) (roi a)
    r (components a) (bitdepth a) (channelForAlpha a) (inputImagesList a).

Definition withComponents (c : list ImageComponents) (a : RenderRoIArgs) : RenderRoIArgs :=
  mkRenderRoIArgs (time a) (mipMapLevel a) (view a) (byPassCache a) (roi a)
    (preComputedRoD a) c (bitdepth a) (channelForAlpha a) (inputImagesList a).

(** How a call of [renderRoI] ends: it returns a code, an exception leaves
    it, or it has dereferenced a null pointer.  [outputPlanes] is the
    caller's list as the call left it. *)
Inductive Result (W : Type) :=
| Returned (code : RenderRoIRetCode) (outputPlanes : list Image) (w : W)
| Threw (outputPlanes : list Image) (w : W)
| Undefined.
Arguments Returned {W}.
Arguments Threw {W}.
Arguments Undefined {W}.

Definition mapWorld {W} (f : W -> W) (r : Result W) : Result W :=
  match r with
  | Returned c o w => Returned c o (f w)
  | Threw o w => Threw o (f w)
  | Undefined => Undefined
  end.

(** The local variables alive when the cache has been looked up (line 2483),
    handed to the rest of the function. *)
Record Locals (Node InputMatrix : Type) := mkLocals {
  l_nodeHash : N;
  l_par : Z;
  l_rod : RectD.t;
  l_isProjectFormat : bool;
  l_supportsRS : SupportsEnum;
  l_renderFullScaleThenDownscale : bool;
  l_renderMappedMipMapLevel : N;
  l_renderScaleOneUpstreamIfRenderScaleSupportDisabled : bool;
  l_byPassCache : bool;
  l_requestedComponents : list ImageComponents;
  l_inputsToTransform : list InputMatrix;
  l_useImageAsOutput : bool;
  l_roi : RectI.t;
  l_tilesSupported : bool;
  l_downscaledImageBounds : RectI.t;
  l_upscaledImageBounds : RectI.t;
  l_canonicalRoI : RectD.t;
  l_createInCache : bool;
  l_key : ImageKey;
  l_useDiskCacheNode : bool;
  l_outputDepth : ImageBitDepthEnum;
  l_outputComponents : list ImageComponents;
  l_planes : Tile.PlaneMap;
  l_framesNeeded : FramesNeededMap;
  l_cacheAlmostFull : bool;
  l_isPlaneCached : option Image
}.

(** What [renderRoI] calls and does not define, over a state [W] standing
    for everything the calls may read or change: the graph, the thread-local
    stores, the actions caches, the image cache, the plug-ins.  [Node] names
    an effect instance (and the node that owns it). *)
Class RenderOps (W : Type) := {
  Node : Type;
  Node_eq_dec :: EqDecision Node;
  InputMatrix : Type;
  (** [ImageComponents::operator<], the order of the plane maps *)
  compsLt : ImageComponents -> ImageComponents -> bool;
  framesNeededEmpty : FramesNeededMap -> bool;
  noFramesNeeded : FramesNeededMap;
  (** [Image::makeKey(nodeHash, frameVarying, time, view)], [key.getHash()] *)
  makeKey : N -> bool -> Z -> Z -> ImageKey;
  keyHash : ImageKey -> N;
  (** [_imp->frameRenderArgs.localData()] of the effect on this thread *)
  frameRenderArgs : Node -> W -> Tile.ParallelRenderArgs;
  setFrameRenderArgs : Node -> Tile.ParallelRenderArgs -> W -> W;
  getHash : Node -> W -> N;
  (** the age of the node's roto context, if it has one *)
  getRotoAge : Node -> W -> option N;
  getPreferredAspectRatio : Node -> W -> Z;
  supportsRenderScaleMaybe : Node -> W -> SupportsEnum;
  useScaleOneImagesWhenRenderScaleSupportIsDisabled : Node -> W -> bool;
  supportsMultiResolution : Node -> W -> bool;
  (** [getRegionOfDefinition_public(hash, time, scale, view, &rod,
      &isProjectFormat)], the scale given by its mipmap level *)
  getRegionOfDefinition_public :
    Node -> N -> Z -> N -> Z -> W -> StatusEnum * RectD.t * bool * W;
  (** [isIdentity_public(hash, time, scale, rod, par, view, &inputTime,
      &inputNb)]: [None] when it throws, else the answer and what it left in
      [inputTime] and [inputNb] *)
  isIdentity_public :
    Node -> N -> Z -> N -> RectD.t -> Z -> Z -> W -> option (bool * Z * Z) * W;
  getFrameRange_public : Node -> N -> W -> Z * Z * W;
  toCanonical_noClipping : RectI.t -> N -> Z -> RectD.t;
  getInput : Node -> Z -> W -> option Node;
  (** the constructor of [Implementation::ScopedRenderArgs] (2139-2151), with
      the region asked of the identity input, and its destructor *)
  ScopedRenderArgs_enter :
    Node -> option Node * RectD.t -> RectD.t -> RectI.t -> Z -> Z -> Z ->
    bool -> Z -> Z -> Z -> Z -> W -> W;
  ScopedRenderArgs_leave : Node -> W -> W;
  (** the entries of the [ComponentsAvailableMap], each weak pointer locked *)
  getComponentsAvailable : Node -> Z -> W -> list (ImageComponents * option Node) * W;
  isSupportedComponent : Node -> Z -> ImageComponents -> W -> bool;
  isTransformConcatenationEnabled : W -> bool;
  tryConcatenateTransforms : Node -> RenderRoIArgs -> W -> list InputMatrix * W;
  (** [TransformReroute_RAII]: constructor and destructor *)
  TransformReroute_enter : Node -> list InputMatrix -> W -> W;
  TransformReroute_leave : Node -> list InputMatrix -> W -> W;
  supportsTiles : Node -> W -> bool;
  shouldCacheOutput : Node -> W -> bool;
  isFrameVaryingOrAnimated_Recursive : Node -> W -> bool;
  (** [dynamic_cast<DiskCacheNode*>(this) != NULL] *)
  isDiskCacheNode : Node -> bool;
  lastPlanesRendered : Node -> W -> list Image;
  lastRenderHash : Node -> W -> N;
  clearLastPlanesRendered : Node -> W -> W;
  removeAllImagesFromCacheWithMatchingKey : N -> W -> W;
  removeAllImagesFromDiskCacheWithMatchingKey : N -> W -> W;
  getPreferredDepthAndComponents :
    Node -> Z -> W -> list ImageComponents * ImageBitDepthEnum;
  (** [appPTR->removeFromNodeCache(hash)] *)
  removeFromNodeCacheByHash : N -> W -> W;
  isWriter : Node -> W -> bool;
  getFramesNeeded_public : Node -> Z -> Z -> W -> FramesNeededMap * W;
  isNodeCacheAlmostFull : W -> bool;
  (** lines 2485-2886: tile planning, the renders of the inputs, allocation,
      the tile workers, the conversion of the result *)
  renderRoI_rest :
    Node -> RenderRoIArgs -> Locals Node InputMatrix -> list Image -> W -> Result W
}.

Context {W : Type} `{!CacheOps W} `{!RenderOps W}.

(** A stretch of the function either falls through with the values it
    computed or leaves the function. *)
Inductive Step (A : Type) :=
| Continue (a : A)
| Exit (r : Result W).
Arguments Continue {A}.
Arguments Exit {A}.

(** Lines 1994-2012: the thread-local frame args are set up when a caller
    has not done so. *)
Definition ensureFrameRenderArgs (node : Node) (args : RenderRoIArgs) (w : W) : W :=
  let fra := frameRenderArgs node w in
  if negb (Tile.validArgs fra) then
    setFrameRenderArgs node
      (Tile.mkParallelRenderArgs (time args) (getHash node w) (view args) false true
         (default 0%N (getRotoAge node w)) true (Tile.canAbort fra)) w
  else w.

(** [supportsRS], [renderFullScaleThenDownscale], [renderMappedMipMapLevel]. *)
Record Scale := mkScale {
  supportsRS : SupportsEnum;
  renderFullScaleThenDownscale : bool;
  renderMappedMipMapLevel : N
}.

(** Lines 2075-2083 and 2102-2110. *)
Definition refreshScale (node : Node) (mipMapLevel : N) (sc : Scale) (w : W) : Scale :=
  if bool_decide (supportsRS sc = eSupportsMaybe)
     && negb (renderMappedMipMapLevel sc =? 0)%N then
    let supportsRS := supportsRenderScaleMaybe node w in
    let fsd := bool_decide (supportsRS = eSupportsNo) && negb (mipMapLevel =? 0)%N in
    mkScale supportsRS fsd (if fsd then 0%N else renderMappedMipMapLevel sc)
  else sc.

Record RoDStage := mkRoDStage {
  r_nodeHash : N;
  r_par : Z;
  r_scale : Scale;
  r_renderScaleOneUpstreamIfRenderScaleSupportDisabled : bool;
  r_rod : RectD.t;
  r_isProjectFormat : bool
}.

(** Lines 2028-2038: the scale the effect renders at, as known on entry. *)
Definition entryScale (node : Node) (args : RenderRoIArgs) (w : W) : Scale :=
  let supportsRS := supportsRenderScaleMaybe node w in
  let fsd := bool_decide (supportsRS = eSupportsNo) && negb (mipMapLevel args =? 0)%N in
  mkScale supportsRS fsd (if fsd then 0%N else mipMapLevel args).

(** Lines 2044-2053: [renderScaleOneUpstreamIfRenderScaleSupportDisabled]. *)
Definition scaleOneUpstream (node : Node) (sc : Scale) (w : W) : bool :=
  if renderFullScaleThenDownscale sc then
    let u := useScaleOneImagesWhenRenderScaleSupportIsDisabled node w in
    if negb u && negb (supportsMultiResolution node w) then true else u
  else false.

(** Lines 1990-2084: the request is checked and the RoD obtained. *)
Definition stageRoD (node : Node) (args : RenderRoIArgs) (outputPlanes : list Image)
    (w : W) : Step (RoDStage * W) :=
  match components args with
  | [] => Exit (Returned eRenderRoIRetCodeFailed outputPlanes w)
  | _ :: _ =>
      let w := ensureFrameRenderArgs node args w in
      let nodeHash := Tile.nodeHash (frameRenderArgs node w) in
      let par := getPreferredAspectRatio node w in
      let sc := entryScale node args w in
      let scaleOne := scaleOneUpstream node sc w in
      if negb (RectD.isNull (preComputedRoD args)) then
        Continue (mkRoDStage nodeHash par sc scaleOne (preComputedRoD args) false, w)
      else
        let '(stat, rod, isProjectFormat, w) :=
          getRegionOfDefinition_public node nodeHash (time args)
            (renderMappedMipMapLevel sc) (view args) w in
        if bool_decide (stat = eStatusFailed) then
          Exit (Returned eRenderRoIRetCodeOk outputPlanes w)
        else if RectD.isNull rod then
          Exit (Returned eRenderRoIRetCodeOk outputPlanes w)
        else
          Continue (mkRoDStage nodeHash par (refreshScale node (mipMapLevel args) sc w)
                      scaleOne rod isProjectFormat, w)
  end.

(** The type of [renderRoI] itself, for the calls it makes to itself and to
    other effects; [None] when the depth allowed to the recursion is used
    up. *)
Definition Self : Type :=
  Node -> RenderRoIArgs -> list Image -> W -> option (Result W).

(** Lines 2129-2151: the frame range is asked for and the scoped render args
    are set for the render of the identity input. *)
Definition enterIdentityScope (node : Node) (args : RenderRoIArgs) (rs : RoDStage)
    (isIdentity : bool) (inputTimeIdentity inputNbIdentity : Z) (w : W) : W :=
  let '(firstFrame, lastFrame, w) := getFrameRange_public node (r_nodeHash rs) w in
  let canonicalRoI :=
    toCanonical_noClipping (roi args) (mipMapLevel args) (r_par rs) in
  let inputsRoI := (getInput node inputNbIdentity w, canonicalRoI) in
  ScopedRenderArgs_enter node inputsRoI (r_rod rs) (roi args)
    (time args) (view args) (channelForAlpha args) isIdentity
    inputTimeIdentity inputNbIdentity firstFrame lastFrame w.

(** Lines 2090-2166: the identity check. *)
Definition stageIdentity (self : Self) (node : Node) (args : RenderRoIArgs)
    (rs : RoDStage) (outputPlanes : list Image) (w : W) : option (Step (Scale * W)) :=
  let '(res, w) :=
    isIdentity_public node (r_nodeHash rs) (time args)
      (renderMappedMipMapLevel (r_scale rs)) (r_rod rs) (r_par rs) (view args) w in
  match res with
  | None => Some (Exit (Returned eRenderRoIRetCodeFailed outputPlanes w))
  | Some (isIdentity, inputTimeIdentity, inputNbIdentity) =>
      let sc := refreshScale node (mipMapLevel args) (r_scale rs) w in
      if isIdentity then
        if inputNbIdentity =? -1 then
          Some (Exit (Returned eRenderRoIRetCodeFailed outputPlanes w))
        else if (inputNbIdentity =? -2) && negb (inputTimeIdentity =? time args) then
          let argCpy := withPreComputedRoD RectD.null (withTime inputTimeIdentity args) in
          r ← self node argCpy outputPlanes w;
          Some (Exit r)
        else
          let w := enterIdentityScope node args rs isIdentity inputTimeIdentity
                     inputNbIdentity w in
          match getInput node inputNbIdentity w with
          | Some inputEffectIdentity =>
              let inputArgs := withTime inputTimeIdentity args in
              r ← self inputEffectIdentity inputArgs outputPlanes w;
              Some (Exit (mapWorld (ScopedRenderArgs_leave node) r))
          | None =>
              Some (Exit (Returned eRenderRoIRetCodeFailed outputPlanes
                            (ScopedRenderArgs_leave node w)))
          end
      else Some (Continue (sc, w))
  end.

(** Lines 2191-2203: the entry of the available planes that answers for a
    requested plane. *)
Definition findAvailable (node : Node) (it : ImageComponents)
    (componentsAvailables : list (ImageComponents * option Node)) (w : W)
    : option (ImageComponents * option Node) :=
  List.find (fun it2 =>
               bool_decide (it2.1 = it)
               || (isColorPlane it && isColorPlane it2.1
                   && isSupportedComponent node (-1) it2.1 w))
            componentsAvailables.

(** Lines 2185-2215: the planes this node renders ([requestedComponents])
    and those fetched upstream ([componentsToFetchUpstream]). *)
Fixpoint splitPlanes (node : Node) (requested : list ImageComponents)
    (componentsAvailables : list (ImageComponents * option Node)) (w : W)
    (requestedComponents : list ImageComponents)
    (componentsToFetchUpstream : list (ImageComponents * option Node))
    : list ImageComponents * list (ImageComponents * option Node) :=
  match requested with
  | [] => (requestedComponents, componentsToFetchUpstream)
  | it :: rest =>
      match findAvailable node it componentsAvailables w with
      | Some found =>
          if bool_decide (found.2 = Some node) then
            splitPlanes node rest componentsAvailables w
              (requestedComponents ++ [it]) componentsToFetchUpstream
          else
            splitPlanes node rest componentsAvailables w requestedComponents
              (stdmap_insert compsLt it found.2 componentsToFetchUpstream)
      | None =>
          splitPlanes node rest componentsAvailables w
            requestedComponents componentsToFetchUpstream
      end
  end.

(** Lines 2218-2232: the planes rendered by other nodes are fetched and
    appended to the output. *)
Fixpoint fetchUpstream (self : Self) (args : RenderRoIArgs)
    (componentsToFetchUpstream : list (ImageComponents * option Node))
    (outputPlanes : list Image) (w : W) : option (Step (list Image * W)) :=
  match componentsToFetchUpstream with
  | [] => Some (Continue (outputPlanes, w))
  | (_, None) :: rest => fetchUpstream self args rest outputPlanes w
  | (plane, Some node) :: rest =>
      let inArgs := withComponents [plane] args in
      r ← self node inArgs [] w;
      match r with
      | Returned inputRetCode inputPlanes w =>
          match inputRetCode, inputPlanes with
          | eRenderRoIRetCodeOk, front :: _ =>
              fetchUpstream self args rest (outputPlanes ++ [front]) w
          | _, _ => Some (Exit (Returned inputRetCode outputPlanes w))
          end
      | Threw _ w => Some (Exit (Threw outputPlanes w))
      | Undefined => Some (Exit Undefined)
      end
  end.

(** Lines 2172-2237: pass-through of planes. *)
Definition stagePassThrough (self : Self) (node : Node) (args : RenderRoIArgs)
    (outputPlanes : list Image) (w : W)
    : option (Step (list ImageComponents * list Image * W)) :=
  let '(componentsAvailables, w) := getComponentsAvailable node (time args) w in
  let '(requestedComponents, componentsToFetchUpstream) :=
    splitPlanes node (components args) componentsAvailables w [] [] in
  s ← fetchUpstream self args componentsToFetchUpstream outputPlanes w;
  match s with
  | Exit r => Some (Exit r)
  | Continue (outputPlanes, w) =>
      match requestedComponents with
      | [] => Some (Exit (Returned eRenderRoIRetCodeFailed outputPlanes w))
      | _ :: _ => Some (Continue (requestedComponents, outputPlanes, w))
      end
  end.

(** Lines 2246-2255: transform concatenation; the second component is what
    the destructor of the reroute object does when the function is left. *)
Definition stageTransforms (node : Node) (args : RenderRoIArgs) (w : W)
    : list InputMatrix * (W -> W) * W :=
  let '(inputsToTransform, w) :=
    if isTransformConcatenationEnabled w then tryConcatenateTransforms node args w
    else ([], w) in
  match inputsToTransform with
  | [] => (inputsToTransform, fun w => w, w)
  | _ :: _ =>
      (inputsToTransform, TransformReroute_leave node inputsToTransform,
       TransformReroute_enter node inputsToTransform w)
  end.

Record RoIStage := mkRoIStage {
  useImageAsOutput : bool;
  s_roi : RectI.t;
  tilesSupported : bool;
  downscaledImageBounds : RectI.t;
  upscaledImageBounds : RectI.t
}.

(** Lines 2266-2283: [useImageAsOutput], and the requested rectangle in the
    coordinates of the image rendered into. *)
Definition workingRoI (args : RenderRoIArgs) (rs : RoDStage) (sc : Scale)
    : bool * RectI.t :=
  if renderFullScaleThenDownscale sc
     && r_renderScaleOneUpstreamIfRenderScaleSupportDisabled rs then
    let canonicalRoI := toCanonical (roi args) (mipMapLevel args) (r_par rs) (r_rod rs) in
    (true, toPixelEnclosing canonicalRoI 0 (r_par rs))
  else (false, roi args).

(** Lines 2266-2320: the region to render, clipped to the image bounds when
    the effect supports tiles; [None] is the [return eRenderRoIRetCodeOk] of
    lines 2301 and 2308. *)
Definition stageRoI (node : Node) (args : RenderRoIArgs) (rs : RoDStage) (sc : Scale)
    (w : W) : option RoIStage :=
  let par := r_par rs in
  let rod := r_rod rs in
  let requestedRoI := roi args in
  let '(useImageAsOutput, roi) := workingRoI args rs sc in
  let tilesSupported := supportsTiles node w in
  let downscaledImageBounds := toPixelEnclosing rod (mipMapLevel args) par in
  let upscaledImageBounds := toPixelEnclosing rod 0 par in
  if tilesSupported then
    match RectI.intersect roi
            (if useImageAsOutput then upscaledImageBounds else downscaledImageBounds) with
    | None => None
    | Some roi =>
        Some (mkRoIStage useImageAsOutput roi tilesSupported
                (Tile.intersectInPlace downscaledImageBounds requestedRoI)
                (Tile.intersectInPlace upscaledImageBounds roi))
    end
  else
    Some (mkRoIStage useImageAsOutput
            (if useImageAsOutput then upscaledImageBounds else downscaledImageBounds)
            tilesSupported downscaledImageBounds upscaledImageBounds).

(** Lines 2337-2362: the planes of the last render are thrown out of the
    cache when the hash has changed since. *)
Definition forgetLastRender (node : Node) (nodeHash : N) (useDiskCacheNode : bool)
    (w : W) : W :=
  if negb (bool_decide (lastPlanesRendered node w = []))
     && negb (lastRenderHash node w =? nodeHash)%N then
    let w := if negb useDiskCacheNode
             then removeAllImagesFromCacheWithMatchingKey (lastRenderHash node w) w
             else removeAllImagesFromDiskCacheWithMatchingKey (lastRenderHash node w) w in
    clearLastPlanesRendered node w
  else w.

(** Lines 2391-2401: the components looked for in the cache. *)
Definition preferredComponents (it : ImageComponents)
    (outputComponents : list ImageComponents) : option ImageComponents :=
  if negb (isColorPlane it) then Some it
  else List.find isColorPlane outputComponents.

(** Lines 2440-2447: every plane found so far is dropped. *)
Fixpoint dropPlanes (planes : Tile.PlaneMap) (w : W) : Tile.PlaneMap * W :=
  match planes with
  | [] => ([], w)
  | (c, p) :: rest =>
      let w := match Tile.fullscaleImage p with
               | Some img => removeFromNodeCache img w
               | None => w
               end in
      let '(rest, w) := dropPlanes rest w in
      ((c, Tile.mkPlaneToRender None None (Tile.renderMappedImage p) (Tile.tmpImage p)
             (Tile.isAllocatedOnTheFly p) (Tile.originalCachedImage p)) :: rest, w)
  end.

(** The variables the look-up loop updates. *)
Record Lookup := mkLookup {
  lk_byPassCache : bool;
  lk_attemptToLookupCache : bool;
  lk_rod : RectD.t;
  lk_framesNeeded : FramesNeededMap;
  lk_planes : Tile.PlaneMap
}.

(** Lines 2382-2454: the cache is asked for every plane this node renders;
    [None] when no component set can be named for a colour plane (a null
    pointer is dereferenced). *)
Fixpoint lookupPlanes (node : Node) (args : RenderRoIArgs) (createInCache : bool)
    (useDiskCacheNode : bool) (key : ImageKey) (renderMappedMipMapLevel : N)
    (bounds : RectI.t) (outputDepth : ImageBitDepthEnum)
    (outputComponents : list ImageComponents) (tilesSupported : bool)
    (requestedComponents : list ImageComponents) (st : Lookup) (w : W)
    : option (Lookup * W) :=
  match requestedComponents with
  | [] => Some (st, w)
  | it :: rest =>
      components ← preferredComponents it outputComponents;
      let '(w, fullscaleImage) :=
        getImageFromCacheAndConvertIfNeeded createInCache useDiskCacheNode key
          (mkRequest renderMappedMipMapLevel (bitdepth args) it outputDepth components)
          bounds (lk_rod st) (inputImagesList args) None w in
      let '(fullscaleImage, byPassCache, w) :=
        if lk_byPassCache st then
          let w := match fullscaleImage with
                   | Some _ => removeFromNodeCacheByHash (keyHash key) w
                   | None => w
                   end in
          (None, negb (isWriter node w), w)
        else (fullscaleImage, false, w) in
      let '(fullscaleImage, attempt, rod, framesNeeded, planes, w) :=
        match fullscaleImage with
        | Some img =>
            if negb (lk_attemptToLookupCache st) then
              (None, lk_attemptToLookupCache st, lk_rod st, lk_framesNeeded st,
               lk_planes st, removeFromNodeCache img w)
            else
              (Some img, lk_attemptToLookupCache st,
               (if negb tilesSupported then getRoD img else lk_rod st),
               getFramesNeeded (getParams img), lk_planes st, w)
        | None =>
            if lk_attemptToLookupCache st then
              let '(planes, w) := dropPlanes (lk_planes st) w in
              (None, false, lk_rod st, lk_framesNeeded st, planes, w)
            else
              (None, lk_attemptToLookupCache st, lk_rod st, lk_framesNeeded st,
               lk_planes st, w)
        end in
      let plane := Tile.mkPlaneToRender fullscaleImage fullscaleImage None None false None in
      lookupPlanes node args createInCache useDiskCacheNode key renderMappedMipMapLevel
        bounds outputDepth outputComponents tilesSupported rest
        (mkLookup byPassCache attempt rod framesNeeded
           (stdmap_insert compsLt it plane planes)) w
  end.

(** Lines 2322-2483: the cache is looked up for the planes to render. *)
Definition stageCache (node : Node) (args : RenderRoIArgs) (rs : RoDStage) (sc : Scale)
    (requestedComponents : list ImageComponents) (inputsToTransform : list InputMatrix)
    (ri : RoIStage) (outputPlanes : list Image) (w : W)
    : Step (Locals Node InputMatrix * W) :=
  let par := r_par rs in
  let nodeHash := r_nodeHash rs in
  let canonicalRoI :=
    if useImageAsOutput ri then toCanonical (s_roi ri) 0 par (r_rod rs)
    else toCanonical (s_roi ri) (mipMapLevel args) par (r_rod rs) in
  let createInCache := shouldCacheOutput node w in
  let isFrameVaryingOrAnimated := isFrameVaryingOrAnimated_Recursive node w in
  let key := makeKey nodeHash isFrameVaryingOrAnimated (time args) (view args) in
  let useDiskCacheNode := isDiskCacheNode node in
  let w := forgetLastRender node nodeHash useDiskCacheNode w in
  let '(outputComponents, outputDepth) := getPreferredDepthAndComponents node (-1) w in
  match lookupPlanes node args createInCache useDiskCacheNode key
          (renderMappedMipMapLevel sc)
          (if useImageAsOutput ri then upscaledImageBounds ri else downscaledImageBounds ri)
          outputDepth outputComponents (tilesSupported ri) requestedComponents
          (mkLookup (byPassCache args) true (r_rod rs) noFramesNeeded []) w with
  | None => Exit Undefined
  | Some (lk, w) =>
      let '(framesNeeded, w) :=
        if framesNeededEmpty (lk_framesNeeded lk)
        then getFramesNeeded_public node (time args) (view args) w
        else (lk_framesNeeded lk, w) in
      let cacheAlmostFull := isNodeCacheAlmostFull w in
      let isPlaneCached :=
        match lk_planes lk with
        | (_, p) :: _ => Tile.fullscaleImage p
        | [] => None
        end in
      match isPlaneCached with
      | None =>
          if RectI.isNull (roi args) then
            (* empty RoI and nothing in the cache with matching args *)
            Exit (Returned eRenderRoIRetCodeFailed outputPlanes w)
          else
            Continue (mkLocals Node InputMatrix nodeHash par (lk_rod lk)
                        (r_isProjectFormat rs) (supportsRS sc)
                        (renderFullScaleThenDownscale sc) (renderMappedMipMapLevel sc)
                        (r_renderScaleOneUpstreamIfRenderScaleSupportDisabled rs)
                        (lk_byPassCache lk) requestedComponents inputsToTransform
                        (useImageAsOutput ri) (s_roi ri) (tilesSupported ri)
                        (downscaledImageBounds ri) (upscaledImageBounds ri) canonicalRoI
                        createInCache key useDiskCacheNode outputDepth outputComponents
                        (lk_planes lk) framesNeeded cacheAlmostFull isPlaneCached, w)
      | Some _ =>
          Continue (mkLocals Node InputMatrix nodeHash par (lk_rod lk)
                      (r_isProjectFormat rs) (supportsRS sc)
                      (renderFullScaleThenDownscale sc) (renderMappedMipMapLevel sc)
                      (r_renderScaleOneUpstreamIfRenderScaleSupportDisabled rs)
                      (lk_byPassCache lk) requestedComponents inputsToTransform
                      (useImageAsOutput ri) (s_roi ri) (tilesSupported ri)
                      (downscaledImageBounds ri) (upscaledImageBounds ri) canonicalRoI
                      createInCache key useDiskCacheNode outputDepth outputComponents
                      (lk_planes lk) framesNeeded cacheAlmostFull isPlaneCached, w)
      end
  end.

(** The stages after the identity check, from the pass-through of planes to
    the end of the function. *)
Definition renderOwnPlanes (self : Self) (node : Node) (args : RenderRoIArgs)
    (rs : RoDStage) (sc : Scale) (outputPlanes : list Image) (w : W)
    : option (Result W) :=
  s ← stagePassThrough self node args outputPlanes w;
  match s with
  | Exit r => Some r
  | Continue (requestedComponents, outputPlanes, w) =>
      let '(inputsToTransform, undoReroute, w) := stageTransforms node args w in
      match stageRoI node args rs sc w with
      | None => Some (Returned eRenderRoIRetCodeOk outputPlanes (undoReroute w))
      | Some ri =>
          match stageCache node args rs sc requestedComponents inputsToTransform ri
                  outputPlanes w with
          | Exit r => Some (mapWorld undoReroute r)
          | Continue (locals, w) =>
              Some (mapWorld undoReroute (renderRoI_rest node args locals outputPlanes w))
          end
      end
  end.

(** One activation of [EffectInstance::renderRoI]; [self] stands for the
    calls it makes to [renderRoI], on this effect or another. *)
Definition renderRoI_body (self : Self) (node : Node) (args : RenderRoIArgs)
    (outputPlanes : list Image) (w : W) : option (Result W) :=
  match stageRoD node args outputPlanes w with
  | Exit r => Some r
  | Continue (rs, w) =>
      s ← stageIdentity self node args rs outputPlanes w;
      match s with
      | Exit r => Some r
      | Continue (sc, w) => renderOwnPlanes self node args rs sc outputPlanes w
      end
  end.

(** [EffectInstance::renderRoI], with at most [depth] activations nested in
    one another. *)
Fixpoint renderRoI (depth : nat) : Self :=
  match depth with
  | O => fun _ _ _ _ => None
  | S depth => renderRoI_body (renderRoI depth)
  end.

End Evaluator.

Arguments Returned {_ W}.
Arguments Threw {_ W}.
Arguments Undefined {_ W}.
Arguments Continue {_ W A} a.
Arguments Exit {_ W A} r.

End Render.

(** ** The output scheduler (Engine/OutputSchedulerThread.h) *)

Module Scheduler.
Local Open Scope Z_scope.

(** [OutputSchedulerThread::RenderDirection]. *)
Inductive RenderDirection := RENDER_FORWARD | RENDER_BACKWARD.

#[global] Instance RenderDirection_eq_dec : EqDecision RenderDirection.
Proof. solve_decision. Defined.

(** An entry of the buffer: the arguments of [appendToBuffer(time, view,
    frame)], the frame given by the identity of the buffered object. *)
Record BufferedFrame := mkBufferedFrame {
  time : Z;
  view : Z;
  frame : N
}.

(** [timelineStepOne(direction)]: one frame up, or one frame down. *)
Definition timelineStepOne (d : RenderDirection) (t : Z) : Z :=
  match d with
  | RENDER_FORWARD => t + 1
  | RENDER_BACKWARD => t - 1
  end.


Definition beforeb (d : RenderDirection) (t1 t2 : Z) : bool :=
  match d with
  | RENDER_FORWARD => t1 <? t2
  | RENDER_BACKWARD => t2 <? t1
  end.


(** Modelled from the spec: the implementation of the scheduler
    ([OutputSchedulerThread.cpp]) is not among the sources, only its header.
    Section 4.5: "append inserts into an ordered buffer keyed by the expected
    frame"; section 3: a buffer entry is "unique by (frame-index, view)" and
    the buffer is "ordered by the current render direction". *)
Fixpoint insertOrdered (d : RenderDirection) (e : BufferedFrame)
    (buf : list BufferedFrame) : list BufferedFrame :=
  match buf with
  | [] => [e]
  | h :: rest =>
      if beforeb d (time e) (time h) then e :: buf
      else if (time e =? time h) && (view e =? view h) then buf
      else h :: insertOrdered d e rest
  end.

(** Modelled from the spec: the state of one run of the scheduler (section
    4.5), whose code is not among the sources: the range and direction given
    to [start], the counter producers pick frames from, the ordered buffer,
    the frame the consumer expects next, and the frames handed to the output
    device so far, oldest first. *)
Record State := mkState {
  direction : RenderDirection;
  firstFrame : Z;
  lastFrame : Z;
  nextToPick : Z;
  buf : list BufferedFrame;
  expected : Z;
  delivered : list BufferedFrame
}.

(** Modelled from the spec: [start(range, direction)] of section 4.5, whose
    code is not among the sources; a run begins at the end of the range the
    direction leaves from, with nothing buffered and nothing delivered. *)
Definition start (first last : Z) (d : RenderDirection) : State :=
  let t0 := match d with RENDER_FORWARD => first | RENDER_BACKWARD => last end in
  mkState d first last t0 [] t0 [].

(** Modelled from the spec: [pick_next_frame()] of section 4.5 (the header's
    [pickFrameToRender]), whose code is not among the sources: "atomic
    counter, direction-aware, stops when the range is exhausted". *)
Definition pickFrameToRender (s : State) : option Z * State :=
  if (firstFrame s <=? nextToPick s) && (nextToPick s <=? lastFrame s) then
    (Some (nextToPick s),
     mkState (direction s) (firstFrame s) (lastFrame s)
             (timelineStepOne (direction s) (nextToPick s))
             (buf s) (expected s) (delivered s))
  else (None, s).

(** Modelled from the spec: [append(time, view, image)] of section 4.5 (the
    header's [appendToBuffer]), whose code is not among the sources. *)
Definition appendToBuffer (e : BufferedFrame) (s : State) : State :=
  mkState (direction s) (firstFrame s) (lastFrame s) (nextToPick s)
          (insertOrdered (direction s) e (buf s)) (expected s) (delivered s).

(** Modelled from the spec: one turn of the consumer of section 4.5, whose
    code is not among the sources: it "pulls the lowest-expected frame in
    buffer-order, calls deliver(time, view, image) on the output device,
    advances the expected frame, and removes the entry"; when the frame it
    expects is not at the front of the buffer it delivers nothing. *)
Definition consume (s : State) : State :=
  match buf s with
  | h :: rest =>
      if time h =? expected s then
        mkState (direction s) (firstFrame s) (lastFrame s) (nextToPick s) rest
                (timelineStepOne (direction s) (expected s))
                (delivered s ++ [h])
      else s
  | [] => s
  end.

(** What happens during a run, in the order the scheduler's lock serialises
    it: a producer picks a frame, a producer appends a frame it has
    rendered, the consumer takes a turn. *)
Inductive Event :=
| Pick
| Append (e : BufferedFrame)
| Consume.

Definition apply (s : State) (ev : Event) : State :=
  match ev with
  | Pick => (pickFrameToRender s).2
  | Append e => appendToBuffer e s
  | Consume => consume s
  end.

Definition run (evs : list Event) (s : State) : State := fold_left apply evs s.

(** The times of a list of buffered frames, in order. *)
Definition times (l : list BufferedFrame) : list Z := map time l.


(** Two frames out of three arrive out of order in a forward run over
    frames 1 to 3. *)
Definition runA : list Event :=
  [Pick; Pick; Pick;
   Append (mkBufferedFrame 2 0 12); Consume;
   Append (mkBufferedFrame 1 0 11); Consume; Consume;
   Append (mkBufferedFrame 3 0 13); Consume].



End Scheduler.

(** ** A concrete graph to run the model on *)

Module Scene.
Import CacheLookup.
Local Open Scope Z_scope.

(** Modelled from the spec: the plane identifiers of
    [Engine/ImageComponents.h], which is not among the sources.  Section 3:
    a plane is "either the color plane (with a component set such as
    RGBA/RGB/Alpha) or a named auxiliary plane"; "the color plane alone
    allows component conversion on hit; other planes require exact match". *)
Inductive Comps := RGBA | RGB | Alpha | Aux (name : N).

#[global] Instance Comps_eq_dec : EqDecision Comps.
Proof. solve_decision. Defined.

Definition colorPlane (c : Comps) : bool :=
  match c with Aux _ => false | _ => true end.

Definition convertible (a b : Comps) : bool :=
  bool_decide (a = b) || (colorPlane a && colorPlane b).

Definition compsRank (c : Comps) : N :=
  match c with RGBA => 0 | RGB => 1 | Alpha => 2 | Aux n => 3 + n end%N.

(** Modelled from the spec: the bit depths of [Global/Enums.h] and
    [getSizeOfForBitDepth] of [Engine/Image.h], which are not among the
    sources: 8-bit, 16-bit and 32-bit float pixels, sized in bytes. *)
Inductive Depth := eImageBitDepthByte | eImageBitDepthShort | eImageBitDepthFloat.

#[global] Instance Depth_eq_dec : EqDecision Depth.
Proof. solve_decision. Defined.

Definition sizeOfDepth (d : Depth) : Z :=
  match d with
  | eImageBitDepthByte => 1
  | eImageBitDepthShort => 2
  | eImageBitDepthFloat => 4
  end.

(** An image key is the tuple [makeKey] is given: hash, frame-varying flag,
    time, view. *)
#[global] Instance sceneTypes : ImageTypes := {|
  ImageComponents := Comps;
  isColorPlane := colorPlane;
  isConvertibleTo := convertible;
  ImageBitDepthEnum := Depth;
  getSizeOfForBitDepth := sizeOfDepth;
  ImageKey := N * bool * Z * Z;
  FramesNeededMap := list Z
|}.

(** The state of the scene: the images in the cache, the next fresh image
    identity, the frame args set on this thread (by node), the nodes between
    the constructor and the destructor of a scoped-args object, and the
    nodes whose render action has run, latest first. *)
Record World := mkWorld {
  cache : list Image;
  nextPtr : N;
  frameArgs : list (N * Tile.ParallelRenderArgs);
  scopedArgs : list N;
  rendered : list N
}.

Definition pow2 (level : N) : Z := 2 ^ Z.of_N level.

(** Pixel and canonical coordinates of the scene: one pixel of level [l] is
    [2^l] canonical units wide, the pixel aspect ratio is 1 and the
    enclosing pixel box rounds outwards. *)
Definition sceneToCanonical (r : RectI.t) (level : N) : RectD.t :=
  RectD.mk (RectI.x1 r * pow2 level) (RectI.y1 r * pow2 level)
           (RectI.x2 r * pow2 level) (RectI.y2 r * pow2 level).

Definition ceilDiv (a b : Z) : Z := - ((- a) / b).

Definition sceneToPixelEnclosing (r : RectD.t) (level : N) : RectI.t :=
  RectI.mk (RectD.x1 r / pow2 level) (RectD.y1 r / pow2 level)
           (ceilDiv (RectD.x2 r) (pow2 level)) (ceilDiv (RectD.y2 r) (pow2 level)).

Definition boundingBoxI (a b : RectI.t) : RectI.t :=
  RectI.mk (Z.min (RectI.x1 a) (RectI.x1 b)) (Z.min (RectI.y1 a) (RectI.y1 b))
           (Z.max (RectI.x2 a) (RectI.x2 b)) (Z.max (RectI.y2 a) (RectI.y2 b)).

Definition sameKey (k : N * bool * Z * Z) (i : Image) : bool :=
  bool_decide (getKey i = k).

Definition cached (k : N * bool * Z * Z) (w : World) : bool * list Image * World :=
  let l := filter (fun i => sameKey k i = true) (cache w) in
  (negb (bool_decide (l = [])), l, w).

Definition fresh (k : N * bool * Z * Z) (p : ImageParams) (inCache : bool) (w : World)
    : Image * World :=
  let i := mkImage (nextPtr w) k p inCache in
  (i, mkWorld (if inCache then cache w ++ [i] else cache w) (nextPtr w + 1)
              (frameArgs w) (scopedArgs w) (rendered w)).

(** The cache hands back an image with the key and the mipmap level asked
    for when it holds one, and makes one otherwise. *)
Definition cachedOrCreate (k : N * bool * Z * Z) (p : ImageParams) (w : World)
    : option Image * World :=
  match List.find (fun i => sameKey k i && (getMipMapLevel i =? p_mipMapLevel p)%N)
                  (cache w) with
  | Some i => (Some i, w)
  | None => let '(i, w) := fresh k p true w in (Some i, w)
  end.

Definition evict (i : Image) (w : World) : World :=
  mkWorld (filter (fun j => (ptr j =? ptr i)%N = false) (cache w)) (nextPtr w)
          (frameArgs w) (scopedArgs w) (rendered w).

Definition evictHash (h : N) (w : World) : World :=
  mkWorld (filter (fun j => ((getKey j).1.1.1 =? h)%N = false) (cache w)) (nextPtr w)
          (frameArgs w) (scopedArgs w) (rendered w).

#[global] Instance sceneCache : CacheOps World := {|
  getImageFromCache := cached;
  getImageFromDiskCache := cached;
  getImageFromCacheOrCreate := cachedOrCreate;
  getImageFromDiskCacheOrCreate := cachedOrCreate;
  newImage k p w := fresh k p false w;
  removeFromNodeCache := evict;
  canonicalProjectFormat _ := RectD.mk 0 0 1920 1080;
  allocateMemory _ w := w;
  ensureBounds _ _ w := w;
  getBounds i _ := p_bounds (getParams i);
  downscaleMipMap _ _ _ _ _ _ _ w := w;
  errorDialog w := w;
  toCanonical r level _ _ := sceneToCanonical r level;
  toPixelEnclosing r level _ := sceneToPixelEnclosing r level;
  mergeI := boundingBoxI
|}.

(** The cache of the scene holds two images of frame 5 of the node whose
    hash is 7: an 8-bit one at mipmap level 1 and a float one at level 0.
    The node renders float RGBA; [requestA] asks for 16-bit RGBA at
    level 1. *)
Definition keyA : N * bool * Z * Z := (7%N, false, 5, 0).

Definition sceneFormat : RectD.t := RectD.mk 0 0 1920 1080.

Definition paramsOf (level : N) (c : Comps) (d : Depth) : ImageParams :=
  makeParams 1 sceneFormat (sceneToPixelEnclosing sceneFormat level) 1 level false c d [].

Definition imgByte1 : Image := mkImage 1 keyA (paramsOf 1 RGBA eImageBitDepthByte) true.
Definition imgFloat0 : Image := mkImage 2 keyA (paramsOf 0 RGBA eImageBitDepthFloat) true.

Definition worldA : World := mkWorld [imgByte1; imgFloat0] 3 [] [] [].

Definition requestA : Request :=
  mkRequest 1 eImageBitDepthShort RGBA eImageBitDepthFloat RGBA.

(** The plug-in of the scene fails every render it is asked for; a
    temporary image gets an identity of its own; the thread-local stores
    other than the render args are not modelled ([X] is [unit]). *)
#[global] Instance sceneTile : Tile.TileOps unit := {|
  Tile.FrameTLSEntry := unit;
  Tile.newTmpImage rm _ w := (mkImage (1000 + ptr rm) (getKey rm) (getParams rm) false, w);
  Tile.imageBounds i _ := p_bounds (getParams i);
  Tile.getMinimalRect _ r _ := r;
  Tile.getMinimalRect_trimap _ r _ := (r, false);
  Tile.rectToCanonical r level _ _ := sceneToCanonical r level;
  Tile.rectToPixelEnclosing r level _ := sceneToPixelEnclosing r level;
  Tile.render_public _ _ _ _ _ _ _ _ w := (eStatusFailed, w);
  Tile.aborted _ := false;
  Tile.enterFrameScopes _ _ x := x;
  Tile.leaveFrameScopes _ _ x := x;
  Tile.pasteFrom _ _ _ x := x;
  Tile.downscaleTo _ _ _ _ x := x
|}.

(** One colour plane rendered straight into the cached float image, whose
    left columns ([x < 4]) are already rendered; the tile asked for is the
    8 x 8 square at the origin. *)
Definition tileRect : RectI.t := RectI.mk 0 0 8 8.

Definition planeA : Tile.PlaneToRender :=
  Tile.mkPlaneToRender (Some imgFloat0) (Some imgFloat0) (Some imgFloat0) None false None.

Definition planesA : Tile.PlaneMap := [(RGBA, planeA)].

Definition tileArgs : Tile.RenderArgs := Tile.mkRenderArgs sceneFormat tileRect 5 0 true [].

Definition halfRendered : Tile.Bitmap :=
  fun x _ => if x <? 4 then Tile.Rendered else Tile.Unrendered.

Definition tileWorld : Tile.World unit :=
  Tile.mkWorld (fun p => if (p =? 2)%N then halfRendered else fun _ _ => Tile.Unrendered)
               tileArgs tt.

(** A frame of a playback, which can be aborted, and a frame rendered in
    answer to the user, which cannot. *)
Definition playbackFrame : Tile.ParallelRenderArgs :=
  Tile.mkParallelRenderArgs 5 7 0 true false 0 true true.

Definition interactiveFrame : Tile.ParallelRenderArgs :=
  Tile.mkParallelRenderArgs 5 7 0 false true 0 true false.

(** What a run of the worker answered, with the state of one cell of an
    image after it. *)
Definition answerAndCell (i : N) (x y : Z)
    (r : option (Tile.RenderingFunctorRetEnum * Tile.World unit))
    : option (Tile.RenderingFunctorRetEnum * Tile.CellState) :=
  (fun r => (r.1, Tile.bitmaps r.2 i x y)) <$> r.

(** The graph of the scene.  Node 0 reads images; node 1 is a blur on node 0
    that declares itself identity to its input at the same time; node 2
    shows frame 1 at every time (identity to itself at frame 1); node 3
    declares itself identity to itself at the very time asked for; node 4 is
    like node 0 but does not support tiles; node 5 produces no plane of its
    own and passes the colour plane of node 0 through; node 6 has no region
    of definition.  Every node has node 0 as input 0; the hash of node [n]
    is [100 + n]. *)
Definition invalidFrameArgs : Tile.ParallelRenderArgs :=
  Tile.mkParallelRenderArgs 0 0 0 false false 0 false false.

Definition sceneFrameArgs (n : N) (w : World) : Tile.ParallelRenderArgs :=
  default invalidFrameArgs (snd <$> List.find (fun e => (e.1 =? n)%N) (frameArgs w)).

Definition sceneIdentity (n : N) (t : Z) : bool * Z * Z :=
  match n with
  | 1%N => (true, t, 0)
  | 2%N => if t =? 1 then (false, t, -1) else (true, 1, -2)
  | 3%N => (true, t, -2)
  | _ => (false, t, -1)
  end.

Definition sceneInput (n : N) (i : Z) : option N :=
  if (i =? 0) && negb (n =? 0)%N then Some 0%N else None.

(** The render action of the scene: every plane that is not cached gets a
    fresh image in the cache, and the node is noted as rendered. *)
Fixpoint sceneRenderPlanes (key : N * bool * Z * Z) (level : N) (d : Depth)
    (planes : Tile.PlaneMap) (w : World) : list Image * World :=
  match planes with
  | [] => ([], w)
  | (c, p) :: rest =>
      let '(i, w) := match Tile.fullscaleImage p with
                     | Some i => (i, w)
                     | None => fresh key (paramsOf level c d) true w
                     end in
      let '(others, w) := sceneRenderPlanes key level d rest w in
      (i :: others, w)
  end.

Definition sceneRest (n : N) (args : Render.RenderRoIArgs) (l : Render.Locals N unit)
    (outputPlanes : list Image) (w : World) : Render.Result World :=
  let '(imgs, w) :=
    sceneRenderPlanes (Render.l_key N unit l) (Render.mipMapLevel args)
      (Render.l_outputDepth N unit l) (Render.l_planes N unit l) w in
  Render.Returned Render.eRenderRoIRetCodeOk (outputPlanes ++ imgs)
    (mkWorld (cache w) (nextPtr w) (frameArgs w) (scopedArgs w) (n :: rendered w)).

#[global] Instance sceneRender : Render.RenderOps World := {|
  Render.Node := N;
  Render.InputMatrix := unit;
  Render.compsLt a b := (compsRank a <? compsRank b)%N;
  Render.framesNeededEmpty l := bool_decide (l = []);
  Render.noFramesNeeded := [];
  Render.makeKey h fv t v := (h, fv, t, v);
  Render.keyHash k := k.1.1.1;
  Render.frameRenderArgs := sceneFrameArgs;
  Render.setFrameRenderArgs n a w :=
    mkWorld (cache w) (nextPtr w) ((n, a) :: frameArgs w) (scopedArgs w) (rendered w);
  Render.getHash n _ := (100 + n)%N;
  Render.getRotoAge _ _ := None;
  Render.getPreferredAspectRatio _ _ := 1;
  Render.supportsRenderScaleMaybe _ _ := Render.eSupportsYes;
  Render.useScaleOneImagesWhenRenderScaleSupportIsDisabled _ _ := false;
  Render.supportsMultiResolution _ _ := true;
  Render.getRegionOfDefinition_public n _ _ _ _ w :=
    if (n =? 6)%N then (eStatusFailed, RectD.null, false, w)
    else (eStatusOK, sceneFormat, false, w);
  Render.isIdentity_public n _ t _ _ _ _ w := (Some (sceneIdentity n t), w);
  Render.getFrameRange_public _ _ w := (1, 10, w);
  Render.toCanonical_noClipping r level _ := sceneToCanonical r level;
  Render.getInput n i _ := sceneInput n i;
  Render.ScopedRenderArgs_enter n _ _ _ _ _ _ _ _ _ _ _ w :=
    mkWorld (cache w) (nextPtr w) (frameArgs w) (n :: scopedArgs w) (rendered w);
  Render.ScopedRenderArgs_leave n w :=
    mkWorld (cache w) (nextPtr w) (frameArgs w)
            (filter (fun m => (m =? n)%N = false) (scopedArgs w)) (rendered w);
  Render.getComponentsAvailable n _ w :=
    (if (n =? 5)%N then [(RGBA, Some 0%N)] else [(RGBA, Some n)], w);
  Render.isSupportedComponent _ _ _ _ := true;
  Render.isTransformConcatenationEnabled _ := false;
  Render.tryConcatenateTransforms _ _ w := ([], w);
  Render.TransformReroute_enter _ _ w := w;
  Render.TransformReroute_leave _ _ w := w;
  Render.supportsTiles n _ := negb (n =? 4)%N;
  Render.shouldCacheOutput _ _ := true;
  Render.isFrameVaryingOrAnimated_Recursive _ _ := false;
  Render.isDiskCacheNode _ := false;
  Render.lastPlanesRendered _ _ := [];
  Render.lastRenderHash _ _ := 0%N;
  Render.clearLastPlanesRendered _ w := w;
  Render.removeAllImagesFromCacheWithMatchingKey := evictHash;
  Render.removeAllImagesFromDiskCacheWithMatchingKey := evictHash;
  Render.getPreferredDepthAndComponents _ _ _ := ([RGBA], eImageBitDepthFloat);
  Render.removeFromNodeCacheByHash := evictHash;
  Render.isWriter _ _ := false;
  Render.getFramesNeeded_public _ t _ w := ([t], w);
  Render.isNodeCacheAlmostFull _ := false;
  Render.renderRoI_rest := sceneRest
|}.

(** A request for the float colour plane of frame 5 over a 64 x 64 square,
    and the same request with an empty rectangle; the scene starts with an
    empty cache. *)
Definition requestFrame5 : Render.RenderRoIArgs :=
  Render.mkRenderRoIArgs 5 0 0 false (RectI.mk 0 0 64 64) RectD.null [RGBA]
    eImageBitDepthFloat 3 [].


Definition emptyWorld : World := mkWorld [] 1 [] [] [].

(** What a call answered: its code, the node hash and the frame of each
    image it returned, the node hashes of the images in the cache and the
    nodes rendered, when it returned. *)
Definition summary (r : option (Render.Result World))
    : option (Render.RenderRoIRetCode * list (N * Z) * list N * list N) :=
  match r with
  | Some (Render.Returned code planes w) =>
      Some (code, map (fun i => ((getKey i).1.1.1, (getKey i).1.2)) planes,
            map (fun i => (getKey i).1.1.1) (cache w), rendered w)
  | _ => None
  end.

End Scene.

(** ** Where a tile's result goes *)

Module TileResult.
Import CacheLookup Tile.
Section Committed.
Context `{ImageTypes}.

(** Lines 3772-3813, plane by plane: the image a rendered tile is pasted or
    downscaled into, and the rectangle of that image marked as rendered. *)
Definition committed (fs so : bool) (mipMapLevel : N)
    (renderRectToRender downscaledRectToRender : RectI.t) (p : PlaneToRender)
    : option Image * RectI.t :=
  if isAllocatedOnTheFly p then (renderMappedImage p, renderRectToRender)
  else if fs then
    if negb (mipMapLevel =? 0)%N && negb so then (downscaleImage p, downscaledRectToRender)
    else (fullscaleImage p, renderRectToRender)
  else (downscaleImage p, downscaledRectToRender).

(** No image pointer of the plane is null. *)
Definition allocated (p : PlaneToRender) : Prop :=
  is_Some (fullscaleImage p) /\ is_Some (downscaleImage p)
  /\ is_Some (renderMappedImage p) /\ is_Some (tmpImage p).

End Committed.
End TileResult.

(** ** More concrete instances *)

Module Studio.
Import CacheLookup.
Local Open Scope Z_scope.

(** A plug-in whose answer to [render] and whose abort flag are read from
    the state: [ext] holds the status the next render answers and whether
    the render has been aborted by then. *)
#[global] Instance studioTile : Tile.TileOps (StatusEnum * bool) := {|
  Tile.FrameTLSEntry := unit;
  Tile.newTmpImage rm _ w :=
    (mkImage (1000 + ptr rm) (getKey rm) (getParams rm) false, w);
  Tile.imageBounds i _ := p_bounds (getParams i);
  Tile.getMinimalRect _ r _ := r;
  Tile.getMinimalRect_trimap _ r _ := (r, false);
  Tile.rectToCanonical r level _ _ := Scene.sceneToCanonical r level;
  Tile.rectToPixelEnclosing r level _ := Scene.sceneToPixelEnclosing r level;
  Tile.render_public _ _ _ _ _ _ _ _ w := ((Tile.ext w).1, w);
  Tile.aborted w := (Tile.ext w).2;
  Tile.enterFrameScopes _ _ x := x;
  Tile.leaveFrameScopes _ _ x := x;
  Tile.pasteFrom _ _ _ x := x;
  Tile.downscaleTo _ _ _ _ x := x
|}.

(** The tile world of the scene, with a plug-in that answers [st] and a
    render that is aborted or not. *)
Definition tileWorld (st : StatusEnum) (isAborted : bool)
    : Tile.World (StatusEnum * bool) :=
  Tile.mkWorld (Tile.bitmaps Scene.tileWorld) Scene.tileArgs (st, isAborted).

Definition answerAndCell (i : N) (x y : Z)
    (r : option (Tile.RenderingFunctorRetEnum * Tile.World (StatusEnum * bool)))
    : option (Tile.RenderingFunctorRetEnum * Tile.CellState) :=
  (fun r => (r.1, Tile.bitmaps r.2 i x y)) <$> r.

(** A second graph over the state of the scene.  Nodes 0 to 6 are those of
    the scene.  The identity action of node 7 throws; node 8 declares itself
    identity to input -1; node 9 declares itself identity to its input 3,
    which is not connected; node 10 produces nothing and passes through the
    colour plane of node 6, which has no region of definition; node 11
    passes through the colour plane of node 3, whose render fails. *)
Definition studioIdentity (n : N) (t : Z) : option (bool * Z * Z) :=
  match n with
  | 7%N => None
  | 8%N => Some (true, t, -1)
  | 9%N => Some (true, t, 3)
  | _ => Some (Scene.sceneIdentity n t)
  end.

Definition studioAvailable (n : N) : list (Scene.Comps * option N) :=
  match n with
  | 5%N => [(Scene.RGBA, Some 0%N)]
  | 10%N => [(Scene.RGBA, Some 6%N)]
  | 11%N => [(Scene.RGBA, Some 3%N)]
  | _ => [(Scene.RGBA, Some n)]
  end.

Definition studioRender : Render.RenderOps Scene.World := {|
  Render.Node := N;
  Render.InputMatrix := unit;
  Render.compsLt a b := (Scene.compsRank a <? Scene.compsRank b)%N;
  Render.framesNeededEmpty l := bool_decide (l = []);
  Render.noFramesNeeded := [];
  Render.makeKey h fv t v := (h, fv, t, v);
  Render.keyHash k := k.1.1.1;
  Render.frameRenderArgs := Scene.sceneFrameArgs;
  Render.setFrameRenderArgs n a w :=
    Scene.mkWorld (Scene.cache w) (Scene.nextPtr w) ((n, a) :: Scene.frameArgs w)
                  (Scene.scopedArgs w) (Scene.rendered w);
  Render.getHash n _ := (100 + n)%N;
  Render.getRotoAge _ _ := None;
  Render.getPreferredAspectRatio _ _ := 1;
  Render.supportsRenderScaleMaybe _ _ := Render.eSupportsYes;
  Render.useScaleOneImagesWhenRenderScaleSupportIsDisabled _ _ := false;
  Render.supportsMultiResolution _ _ := true;
  Render.getRegionOfDefinition_public n _ _ _ _ w :=
    if (n =? 6)%N then (eStatusFailed, RectD.null, false, w)
    else (eStatusOK, Scene.sceneFormat, false, w);
  Render.isIdentity_public n _ t _ _ _ _ w := (studioIdentity n t, w);
  Render.getFrameRange_public _ _ w := (1, 10, w);
  Render.toCanonical_noClipping r level _ := Scene.sceneToCanonical r level;
  Render.getInput n i _ := Scene.sceneInput n i;
  Render.ScopedRenderArgs_enter n _ _ _ _ _ _ _ _ _ _ _ w :=
    Scene.mkWorld (Scene.cache w) (Scene.nextPtr w) (Scene.frameArgs w)
                  (n :: Scene.scopedArgs w) (Scene.rendered w);
  Render.ScopedRenderArgs_leave n w :=
    Scene.mkWorld (Scene.cache w) (Scene.nextPtr w) (Scene.frameArgs w)
                  (filter (fun m => (m =? n)%N = false) (Scene.scopedArgs w))
                  (Scene.rendered w);
  Render.getComponentsAvailable n _ w := (studioAvailable n, w);
  Render.isSupportedComponent _ _ _ _ := true;
  Render.isTransformConcatenationEnabled _ := false;
  Render.tryConcatenateTransforms _ _ w := ([], w);
  Render.TransformReroute_enter _ _ w := w;
  Render.TransformReroute_leave _ _ w := w;
  Render.supportsTiles n _ := negb (n =? 4)%N;
  Render.shouldCacheOutput _ _ := true;
  Render.isFrameVaryingOrAnimated_Recursive _ _ := false;
  Render.isDiskCacheNode _ := false;
  Render.lastPlanesRendered _ _ := [];
  Render.lastRenderHash _ _ := 0%N;
  Render.clearLastPlanesRendered _ w := w;
  Render.removeAllImagesFromCacheWithMatchingKey := Scene.evictHash;
  Render.removeAllImagesFromDiskCacheWithMatchingKey := Scene.evictHash;
  Render.getPreferredDepthAndComponents _ _ _ := ([Scene.RGBA], Scene.eImageBitDepthFloat);
  Render.removeFromNodeCacheByHash := Scene.evictHash;
  Render.isWriter _ _ := false;
  Render.getFramesNeeded_public _ t _ w := ([t], w);
  Render.isNodeCacheAlmostFull _ := false;
  Render.renderRoI_rest := Scene.sceneRest
|}.

(** [renderRoI] on the second graph. *)
Definition renderRoI (depth : nat) (node : N) (args : Render.RenderRoIArgs)
    (outputPlanes : list Image) (w : Scene.World) : option (Render.Result Scene.World) :=
  @Render.renderRoI _ _ _ studioRender depth node args outputPlanes w.

End Studio.

(** ** The action wrappers (EffectInstance.cpp, 4419-4648) *)

Module PublicActions.
Import Actions.
Local Open Scope Z_scope.

(** The fields of [EffectInstance::RenderArgs] the wrappers read. *)
Record RenderArgs := mkRenderArgs {
  _rod : RectD.t;
  _validArgs : bool;
  _identityTime : Z;
  _identityInputNb : Z;
  _firstFrame : Z;
  _lastFrame : Z
}.

(** One effect as the wrappers see it: its actions cache, the render args
    of the calling thread ([None] when the thread storage has no local
    data), and [ext] for the plug-in, the node and the rest of the graph. *)
Record Effect (X : Type) := mkEffect {
  actionsCache : ActionsCache;
  renderArgs : option RenderArgs;
  ext : X
}.
Arguments mkEffect {X}.
Arguments actionsCache {X}.
Arguments renderArgs {X}.
Arguments ext {X}.

(** What the wrappers call and do not define.  A scale is given by its
    mipmap level ([Image::getLevelFromScale]).  The plug-in lock taken for
    thread-unsafe plug-ins and the counters of the [RECURSIVE_ACTION]
    macros are left out. *)
Class EffectOps (X : Type) := {
  isEffectCreated : X -> bool;
  (** [QThread::currentThread() != qApp->thread()] *)
  onRenderThread : X -> bool;
  (** [appPTR->isBackground()], [dynamic_cast<DiskCacheNode*>(this) != NULL] *)
  isBackground : X -> bool;
  isDiskCacheNode : X -> bool;
  isNodeDisabled : X -> bool;
  getPreferredInput : X -> Z;
  (** [getSequentialPreference() == eSequentialPreferenceOnlySequential] *)
  isSequentialOnly : X -> bool;
  supportsRenderScaleMaybe : X -> Render.SupportsEnum;
  (** the virtual [isIdentity(time, scale, rod, par, view, &inputTime,
      &inputNb)], given what [inputTime] and [inputNb] hold: [None] when it
      throws, else its answer and what it leaves in them *)
  isIdentity : Z -> N -> RectD.t -> Z -> Z -> Z -> Z -> X -> option (bool * Z * Z) * X;
  (** the virtual [getRegionOfDefinition(hash, time, scale, view, &rod)],
      given what [rod] holds *)
  getRegionOfDefinition : N -> Z -> N -> Z -> RectD.t -> X -> StatusEnum * RectD.t * X;
  (** what [ifInfiniteApplyHeuristic(hash, time, scale, view, rod)] reads
      around the effect, and the state the queries of the inputs' regions
      leave; the queries are made only when a side is infinite *)
  heuristicEnv : N -> Z -> N -> Z -> X -> Heuristic.Env * X;
  (** the virtual [getFrameRange(&first, &last)], given what they hold *)
  getFrameRange : Z -> Z -> X -> Z * Z * X
}.

Section Wrappers.
Context {X : Type} `{!EffectOps X}.

(** "If this is running on a render thread, attempt to find the info in the
    thread local storage": the render args, when the caller is not the main
    thread, the storage has local data and the args are valid. *)
Definition threadLocalArgs (s : Effect X) : option RenderArgs :=
  if onRenderThread (ext s) then
    match renderArgs s with
    | Some args => if _validArgs args then Some args else None
    | None => None
    end
  else None.

(** [EffectInstance::isIdentity_public] (4419-4492): [None] when the
    plug-in throws, else the value returned and what is left in
    [*inputTime] and [*inputNb]. *)
Definition isIdentity_public (hash : N) (time : Z) (mipMapLevel : N) (rod : RectD.t)
    (par view : Z) (inputTime inputNb : Z) (s : Effect X)
    : option (bool * Z * Z) * Effect X :=
  match getIdentityResult hash time view mipMapLevel (actionsCache s) with
  | Some (nb, timeF) => (Some ((0 <=? nb) || (nb =? -2), timeF, nb), s)
  | None =>
      match threadLocalArgs s with
      | Some args =>
          (Some (negb (_identityInputNb args =? -1), _identityTime args,
                 _identityInputNb args), s)
      | None =>
          let x := ext s in
          let '(res, x) :=
            if isBackground x && isDiskCacheNode x then (Some (true, time, 0), x)
            else if isNodeDisabled x then (Some (true, time, getPreferredInput x), x)
            else if negb (isSequentialOnly x)
            then isIdentity time mipMapLevel rod par view inputTime inputNb x
            else (Some (false, inputTime, inputNb), x) in
          match res with
          | None => (None, mkEffect (actionsCache s) (renderArgs s) x)
          | Some (ret, inputTime, inputNb) =>
              let '(inputTime, inputNb) :=
                if negb ret then (time, -1) else (inputTime, inputNb) in
              (Some (ret, inputTime, inputNb),
               mkEffect (setIdentityResult time view mipMapLevel inputNb inputTime
                           (actionsCache s))
                        (renderArgs s) x)
          end
      end
  end.

(** [EffectInstance::getRegionOfDefinition_public] (4504-4575): the status
    returned and what is left in [*rod] and [*isProjectFormat]. *)
Definition getRegionOfDefinition_public (hash : N) (time : Z) (mipMapLevel : N)
    (view : Z) (rod : RectD.t) (isProjectFormat : bool) (s : Effect X)
    : StatusEnum * RectD.t * bool * Effect X :=
  if negb (isEffectCreated (ext s)) then (eStatusFailed, rod, isProjectFormat, s)
  else
    match getRoDResult hash time view mipMapLevel (actionsCache s) with
    | Some rod =>
        (if RectD.isNull rod then eStatusFailed else eStatusOK, rod, false, s)
    | None =>
        match threadLocalArgs s with
        | Some args => (eStatusOK, _rod args, false, s)
        | None =>
            let x := ext s in
            let '(ret, rod, x) :=
              getRegionOfDefinition hash time
                (if bool_decide (supportsRenderScaleMaybe x = Render.eSupportsNo)
                 then 0%N else mipMapLevel)
                view rod x in
            if negb (bool_decide (ret = eStatusOK))
               && negb (bool_decide (ret = eStatusReplyDefault)) then
              (* rod is not valid *)
              (ret, rod, isProjectFormat,
               mkEffect (setRoDResult time view mipMapLevel RectD.null
                           (invalidateAll hash (actionsCache s)))
                        (renderArgs s) x)
            else if RectD.isNull rod then
              (eStatusFailed, rod, isProjectFormat,
               mkEffect (setRoDResult time view mipMapLevel RectD.null
                           (invalidateAll hash (actionsCache s)))
                        (renderArgs s) x)
            else
              let '(e, x') := heuristicEnv hash time mipMapLevel view x in
              let x := if Heuristic.anyInfinite e rod then x' else x in
              let '(isProjectFormat, rod) := Heuristic.ifInfiniteApplyHeuristic e rod in
              (ret, rod, isProjectFormat,
               mkEffect (setRoDResult time view mipMapLevel rod (actionsCache s))
                        (renderArgs s) x)
        end
    end.

(** [EffectInstance::getFrameRange_public] (4617-4648): what is left in
    [*first] and [*last].  The cached bounds are integers stored as
    doubles, which [std::floor(f + 0.5)] gives back. *)
Definition getFrameRange_public (hash : N) (first last : Z) (bypasscache : bool)
    (s : Effect X) : Z * Z * Effect X :=
  let found :=
    if negb bypasscache then getTimeDomainResult hash (actionsCache s) else None in
  match found with
  | Some (fFirst, fLast) => (fFirst, fLast, s)
  | None =>
      match threadLocalArgs s with
      | Some args => (_firstFrame args, _lastFrame args, s)
      | None =>
          let '(first, last, x) := getFrameRange first last (ext s) in
          (first, last,
           mkEffect (setTimeDomainResult first last (actionsCache s)) (renderArgs s) x)
      end
  end.

End Wrappers.

(** A retime effect to run the wrappers on.  Its state tells whether its
    node is disabled and which input the node prefers, and counts the calls
    made to the plug-in.  The plug-in is identity to input 0 one frame
    earlier; its region is the 100 x 100 square at the origin from frame 0
    on and the query fails before; its frame range is 1 to 100. *)
Record Retime := mkRetime {
  disabled : bool;
  preferredInput : Z;
  calls : nat
}.

Definition called (x : Retime) : Retime :=
  mkRetime (disabled x) (preferredInput x) (S (calls x)).

#[global] Instance retimeOps : EffectOps Retime := {|
  isEffectCreated _ := true;
  onRenderThread _ := true;
  isBackground _ := false;
  isDiskCacheNode _ := false;
  isNodeDisabled := disabled;
  getPreferredInput := preferredInput;
  isSequentialOnly _ := false;
  supportsRenderScaleMaybe _ := Render.eSupportsYes;
  isIdentity time _ _ _ _ _ _ x := (Some (true, time - 1, 0), called x);
  getRegionOfDefinition _ time _ _ rod x :=
    if time <? 0 then (eStatusFailed, rod, called x)
    else (eStatusReplyDefault, RectD.mk 0 0 100 100, called x);
  heuristicEnv _ _ _ _ x := (Heuristic.sceneEnv, x);
  getFrameRange _ _ x := (1, 100, called x)
|}.

(** The effect as created, enabled or disabled with no preferred input, and
    with a cache that holds the region [rodA] for frame 5 under hash 7. *)
Definition retime : Effect Retime := mkEffect empty None (mkRetime false 0 0).
Definition retimeOff : Effect Retime := mkEffect empty None (mkRetime true (-1) 0).
Definition retimeA : Effect Retime := mkEffect cacheA None (mkRetime false 0 0).

End PublicActions.

(** ** Walks over the node graph (EffectInstance.cpp, 1301-1500, 4018-4030,
    5169-5306, 5395-5416) *)

Module Graph.
Local Open Scope Z_scope.

(** What the walks read of the graph; none of them changes it.  [Node]
    names an effect instance and the node that owns it. *)
Class GraphOps := {
  Node : Type;
  Node_eq_dec :: EqDecision Node;
  getMaxInputCount : Node -> Z;
  (** [getInput(i)]; a null pointer is [None] *)
  getInput : Node -> Z -> option Node;
  isInputOptional : Node -> Z -> bool;
  isInputRotoBrush : Node -> Z -> bool;
  isNodeDisabled : Node -> bool;
  isFrameVarying : Node -> bool;
  getHasAnimation : Node -> bool;
  (** [getNode()->getRotoContext()] is not null *)
  hasRotoContext : Node -> bool
}.

(** [INT_MIN] and [INT_MAX] for the 32-bit [int] of the source. *)
Definition INT_MIN : Z := -2147483648.
Definition INT_MAX : Z := 2147483647.

Section Walks.
Context {G : GraphOps}.

(** The values [i] takes in [for (int i = 0; i < getMaxInputCount(); ++i)]. *)
Definition slots (node : Node) : list Z := seqZ 0 (getMaxInputCount node).

(** [EffectInstance::getInputNumber] (4018-4027); the argument is a pointer,
    null being [None]. *)
Definition getInputNumber (node : Node) (inputEffect : option Node) : Z :=
  default (-1)
    (List.find (fun i => bool_decide (getInput node i = inputEffect)) (slots node)).

(** [EffectInstance::getFrameRange] (1477-1500), the default of the virtual
    function; [inputRange] is what [input->getFrameRange] leaves in its two
    arguments. *)
Definition getFrameRange (inputRange : Node -> Z * Z) (node : Node) : Z * Z :=
  fold_left
    (fun '(first, last) i =>
       match getInput node i with
       | Some input =>
           let '(inpFirst, inpLast) := inputRange input in
           if i =? 0 then (inpFirst, inpLast)
           else (if inpFirst <? first then inpFirst else first,
                 if last <? inpLast then inpLast else last)
       | None => (first, last)
       end)
    (slots node) (INT_MIN, INT_MAX).

(** [EffectInstance::getRegionOfDefinition] (1301-1333), the default of the
    virtual function: the status returned and what is left in [*rod].  As in
    [Heuristic.Env], [inputs] has one entry per input slot, [None] for an
    input that is not connected, else what
    [input->getRegionOfDefinition_public] answers. *)
Fixpoint getRegionOfDefinition (merge : RectD.t -> RectD.t -> RectD.t)
    (inputs : list (option (StatusEnum * RectD.t))) (rod : RectD.t) (firstInput : bool)
    : StatusEnum * RectD.t :=
  match inputs with
  | [] => (eStatusReplyDefault, rod)
  | None :: rest => getRegionOfDefinition merge rest rod firstInput
  | Some (st, inputRod) :: rest =>
      if decide (st = eStatusFailed) then (st, rod)
      else if firstInput then getRegionOfDefinition merge rest inputRod false
      else getRegionOfDefinition merge rest (merge rod inputRod) false
  end.

(** The two lists built by the first loop of [getNearestNonDisabled] and
    [getNearestNonDisabledPrevious]: the connected inputs that are not
    optional and those that are, in the order of the slots. *)
Definition connectedInputs (node : Node) (optional : bool) : list Node :=
  omap (fun i => match getInput node i with
                 | Some inp =>
                     if bool_decide (isInputOptional node i = optional) then Some inp
                     else None
                 | None => None
                 end) (slots node).

(** A loop that returns the first non-null answer of [f] on the elements of
    a list; the outer [None] is a call that ran out of depth. *)
Fixpoint firstAnswer {A : Type} (f : Node -> option (option A)) (l : list Node)
    : option (option A) :=
  match l with
  | [] => Some None
  | inp :: rest =>
      r ← f inp;
      match r with
      | Some a => Some (Some a)
      | None => firstAnswer f rest
      end
  end.

(** [EffectInstance::getNearestNonDisabled] (5169-5213), with at most
    [depth] calls nested in one another; the inner [None] is the null
    pointer. *)
Fixpoint getNearestNonDisabled (depth : nat) (node : Node) : option (option Node) :=
  match depth with
  | O => None
  | S depth =>
      if negb (isNodeDisabled node) then Some (Some node)
      else
        r ← firstAnswer (getNearestNonDisabled depth) (connectedInputs node false);
        match r with
        | Some inputRet => Some (Some inputRet)
        | None => firstAnswer (getNearestNonDisabled depth) (connectedInputs node true)
        end
  end.

(** [localPreferredInput] of [getNearestNonDisabledPrevious]: the first
    connected slot, or -1. *)
Definition localPreferredInput (node : Node) : Z :=
  default (-1) (List.find (fun i => bool_decide (is_Some (getInput node i))) (slots node)).

(** [EffectInstance::getNearestNonDisabledPrevious] (5216-5272): the effect
    returned and what is left in [*inputNb], given what it held. *)
Fixpoint getNearestNonDisabledPrevious (depth : nat) (node : Node) (inputNb : Z)
    : option (option (Node * Z)) :=
  match depth with
  | O => None
  | S depth =>
      let visit (inp : Node) : option (option (Node * Z)) :=
        if isNodeDisabled inp then getNearestNonDisabledPrevious depth inp inputNb
        else Some None in
      r ← firstAnswer visit (connectedInputs node false);
      match r with
      | Some inputRet => Some (Some inputRet)
      | None =>
          r ← firstAnswer visit (connectedInputs node true);
          match r with
          | Some inputRet => Some (Some inputRet)
          | None => Some (Some (node, localPreferredInput node))
          end
      end
  end.

(** The loop of [isFrameVaryingOrAnimated_impl] over the inputs: it stops as
    soon as [*ret] is set. *)
Fixpoint anyInput (f : Node -> bool -> option bool) (l : list Node) (ret : bool)
    : option bool :=
  match l with
  | [] => Some ret
  | inp :: rest =>
      match f inp ret with
      | Some ret => if ret then Some ret else anyInput f rest ret
      | None => None
      end
  end.

(** [isFrameVaryingOrAnimated_impl] (5395-5411): what is left in [*ret],
    given what it held. *)
Fixpoint isFrameVaryingOrAnimated_impl (depth : nat) (node : Node) (ret : bool)
    : option bool :=
  match depth with
  | O => None
  | S depth =>
      if isFrameVarying node || getHasAnimation node || hasRotoContext node then Some true
      else anyInput (isFrameVaryingOrAnimated_impl depth)
                    (omap (getInput node) (slots node)) ret
  end.

(** [EffectInstance::isFrameVaryingOrAnimated_Recursive] (5413-5419). *)
Definition isFrameVaryingOrAnimated_Recursive (depth : nat) (node : Node) : option bool :=
  isFrameVaryingOrAnimated_impl depth node false.

(** [m] is [n] or is reached from [n] by going up connected inputs. *)
Inductive upstream : Node -> Node -> Prop :=
| upstream_here (n : Node) : upstream n n
| upstream_input (m n inp : Node) (i : Z) :
    0 <= i < getMaxInputCount n -> getInput n i = Some inp ->
    upstream m inp -> upstream m n.

(** The graph has no cycle: going up an input decreases [rank]. *)
Definition acyclic (rank : Node -> nat) : Prop :=
  forall (n inp : Node) (i : Z),
    0 <= i < getMaxInputCount n -> getInput n i = Some inp -> (rank inp < rank n)%nat.

End Walks.

(** A graph to walk: node [n] has one input slot, connected to node
    [n - 1]; node 3, a merge, has two, connected to nodes 2 and 1, the
    second one optional; node 6 has two, the first one not connected and
    the second one connected to node 1; node 0 has none.  Nodes 2, 3 and 4
    are disabled; node 1 is animated. *)
#[global] Instance chain : GraphOps := {|
  Node := N;
  getMaxInputCount n := match n with 0%N => 0 | 3%N => 2 | 6%N => 2 | _ => 1 end;
  getInput n i :=
    if (i =? 0) && (0 <? n)%N && negb (n =? 6)%N then Some (n - 1)%N
    else if (i =? 1) && ((n =? 3)%N || (n =? 6)%N) then Some 1%N
    else None;
  isInputOptional _ i := i =? 1;
  isInputRotoBrush _ _ := false;
  isNodeDisabled n := (2 <=? n)%N && (n <=? 4)%N;
  isFrameVarying _ := false;
  getHasAnimation n := (n =? 1)%N;
  hasRotoContext _ := false
|}.

(** The frame ranges the nodes of the chain answer. *)
Definition chainRange (n : N) : Z * Z := (10 * Z.of_N n, 10 * Z.of_N n + 5).

End Graph.

(** ** The planes an effect needs, produces and sees (EffectInstance.cpp,
    4757-4949) *)

Module Planes.
Import CacheLookup Graph.
Local Open Scope Z_scope.

(** [std::map::insert] on a [ComponentsNeededMap], a
    [std::map<int, std::vector<ImageComponents>>]: a key that is present
    keeps its value. *)
Definition insertNew {V : Type} (k : Z) (v : V) (m : gmap Z V) : gmap Z V :=
  match m !! k with
  | Some _ => m
  | None => <[k := v]> m
  end.

(** What the functions on planes call and do not define, over a state [W]
    for the plug-in. *)
Class PlaneOps (W : Type) `{ImageTypes} {G : GraphOps} := {
  (** [ImageComponents::operator<], the order of a [ComponentsAvailableMap] *)
  compsLt : ImageComponents -> ImageComponents -> bool;
  isMultiPlanar : Node -> bool;
  isPassThroughForNonRenderedPlanes : Node -> bool;
  (** [getNode()->getPreferredInput()] *)
  getPreferredInput : Node -> Z;
  (** the components [getPreferredDepthAndComponents(inputNb, &comps,
      &depth)], a virtual function, appends to [comps] *)
  getPreferredComponents : Node -> Z -> list ImageComponents;
  (** the virtual [getComponentsNeededAndProduced] as a multi-planar effect
      has it: what it leaves in [*comps] and [*passThroughInput], given what
      they hold *)
  getComponentsNeededAndProduced_action :
    Node -> Z -> Z -> gmap Z (list ImageComponents) -> option Node -> W ->
    gmap Z (list ImageComponents) * option Node * W
}.

Section Planes.
Context `{ImageTypes} {G : GraphOps} {W : Type} `{!PlaneOps W}.

(** The connected inputs that are not the roto brush, optional or not, in
    the order of the slots: the inputs the loop of
    [getComponentsNeededAndProduced] looks at. *)
Definition planeInputs (node : Node) (optional : bool) : list Node :=
  omap (fun i => match getInput node i with
                 | Some n =>
                     if negb (isInputRotoBrush node i)
                        && bool_decide (isInputOptional node i = optional)
                     then Some n else None
                 | None => None
                 end) (slots node).

(** [EffectInstance::getComponentsNeededAndProduced] (4850-4902), the
    default of the virtual function: what it leaves in [*comps] and
    [*passThroughInput], given what they hold ([*passThroughTime] and
    [*passThroughView] are set to [time] and [view]). *)
Definition getComponentsNeededAndProduced (node : Node)
    (comps : gmap Z (list ImageComponents)) (passThroughInput : option Node)
    : gmap Z (list ImageComponents) * option Node :=
  let comps := insertNew (-1) (getPreferredComponents node (-1)) comps in
  let '(comps, passThroughInput, firstConnectedOptional) :=
    fold_left
      (fun '(comps, passThroughInput, firstConnectedOptional) i =>
         match getInput node i with
         | None => (comps, passThroughInput, firstConnectedOptional)
         | Some n =>
             if isInputRotoBrush node i
             then (comps, passThroughInput, firstConnectedOptional)
             else
               let comps := insertNew i (getPreferredComponents node (-1)) comps in
               if negb (isInputOptional node i)
               then (comps, Some n, firstConnectedOptional)
               else (comps, passThroughInput, Some n)
         end)
      (slots node) (comps, passThroughInput, None) in
  (comps,
   match passThroughInput with
   | Some n => Some n
   | None => firstConnectedOptional
   end).

(** [EffectInstance::getComponentsNeededAndProduced_public] (4904-4949). *)
Definition getComponentsNeededAndProduced_public (node : Node) (time view : Z)
    (comps : gmap Z (list ImageComponents)) (passThroughInput : option Node) (w : W)
    : gmap Z (list ImageComponents) * option Node * W :=
  if isMultiPlanar node then
    getComponentsNeededAndProduced_action node time view comps passThroughInput w
  else
    let passThroughInput := getInput node (getPreferredInput node) in
    let comps := insertNew (-1) (getPreferredComponents node (-1)) comps in
    let comps :=
      fold_left
        (fun comps i =>
           insertNew i
             match getInput node i with
             | Some input => getPreferredComponents input (-1)
             | None => []
             end comps)
        (slots node) comps in
    (comps, passThroughInput, w).

(** A [ComponentsAvailableMap], a [std::map<ImageComponents,
    boost::weak_ptr<Node>>], as the list of its entries in iteration
    order. *)
Definition ComponentsAvailableMap : Type := list (ImageComponents * option Node).

(** [comps->find(k)]: the entry whose key is equivalent to [k]. *)
Definition stdmap_find (k : ImageComponents) (comps : ComponentsAvailableMap)
    : option (ImageComponents * option Node) :=
  List.find (fun e => negb (compsLt e.1 k) && negb (compsLt k e.1)) comps.

(** The loop of lines 4786-4793: [alreadyExisting] and [colorMatch] when it
    ends. *)
Fixpoint colorLoop (it : ImageComponents) (comps : ComponentsAvailableMap)
    (colorMatch : option (ImageComponents * option Node))
    : option (ImageComponents * option Node) * option (ImageComponents * option Node) :=
  match comps with
  | [] => (None, colorMatch)
  | it2 :: rest =>
      if bool_decide (it2.1 = it) then (Some it2, colorMatch)
      else if isColorPlane it2.1 then colorLoop it rest (Some it2)
      else colorLoop it rest colorMatch
  end.

(** Lines 4781-4799: the entry that stands for a plane the node produces. *)
Definition alreadyExisting (it : ImageComponents) (comps : ComponentsAvailableMap)
    : option (ImageComponents * option Node) :=
  if isColorPlane it then
    let '(existing, colorMatch) := colorLoop it comps None in
    match existing with
    | Some e => Some e
    | None => colorMatch
    end
  else stdmap_find it comps.

(** Lines 4776-4806, for one plane produced by the node. *)
Definition addProduced (node : Node) (comps : ComponentsAvailableMap)
    (it : ImageComponents) : ComponentsAvailableMap :=
  match alreadyExisting it comps with
  | Some _ => comps
  | None => Render.stdmap_insert compsLt it (Some node) comps
  end.

(** Lines 4765-4829 for a node that is not marked: the planes it produces
    are added, and the input to go on with is chosen. *)
Definition visitNode (node : Node) (time view : Z) (comps : ComponentsAvailableMap)
    (w : W) : ComponentsAvailableMap * option Node * W :=
  let '(neededComps, ptInput, w) :=
    getComponentsNeededAndProduced_public node time view ∅ None w in
  let comps :=
    match neededComps !! (-1) with
    | Some produced => fold_left (addProduced node) produced comps
    | None => comps
    end in
  if isPassThroughForNonRenderedPlanes node then
    let doHeuristicForPassThrough :=
      if isMultiPlanar node then bool_decide (ptInput = None) else true in
    let ptInput :=
      if doHeuristicForPassThrough then getInput node (getPreferredInput node)
      else ptInput in
    (comps, ptInput, w)
  else (comps, None, w).

(** [EffectInstance::getComponentsAvailableRecursive] (4757-4834), with at
    most [depth] calls nested in one another: what it leaves in [*comps]
    and [*markedNodes]. *)
Fixpoint getComponentsAvailableRecursive (depth : nat) (node : Node) (time view : Z)
    (comps : ComponentsAvailableMap) (markedNodes : list Node) (w : W)
    : option (ComponentsAvailableMap * list Node * W) :=
  match depth with
  | O => None
  | S depth =>
      if bool_decide (node ∈ markedNodes) then Some (comps, markedNodes, w)
      else
        let '(comps, ptInput, w) := visitNode node time view comps w in
        let markedNodes := markedNodes ++ [node] in
        match ptInput with
        | Some input =>
            getComponentsAvailableRecursive depth input time view comps markedNodes w
        | None => Some (comps, markedNodes, w)
        end
  end.

End Planes.
End Planes.

(** ** A ring of three nodes *)

Module Ring.
Import CacheLookup Graph Planes.
Local Open Scope Z_scope.

(** Three nodes in a cycle: the only input of node [n] is node
    [(n + 1) mod 3]. *)
Definition ring : GraphOps := {|
  Node := N;
  getMaxInputCount _ := 1;
  getInput n i := if i =? 0 then Some ((n + 1) mod 3)%N else None;
  isInputOptional _ _ := false;
  isInputRotoBrush _ _ := false;
  isNodeDisabled _ := false;
  isFrameVarying _ := false;
  getHasAnimation _ := false;
  hasRotoContext _ := false
|}.

#[local] Existing Instance ring | 0.

(** None of the nodes is multi-planar and all let the planes they do not
    render pass through from input 0.  Node 0 produces an auxiliary plane,
    node 1 the colour plane RGBA, node 2 the colour plane RGB and another
    auxiliary plane. *)
Definition ringPlanes : @PlaneOps unit Scene.sceneTypes ring := {|
  compsLt a b := (Scene.compsRank a <? Scene.compsRank b)%N;
  isMultiPlanar _ := false;
  isPassThroughForNonRenderedPlanes _ := true;
  getPreferredInput _ := 0;
  getPreferredComponents n _ :=
    match n with
    | 0%N => [Scene.Aux 1]
    | 1%N => [Scene.RGBA]
    | _ => [Scene.RGB; Scene.Aux 2]
    end;
  getComponentsNeededAndProduced_action _ _ _ comps passThroughInput w :=
    (comps, passThroughInput, w)
|}.

(** The walk over the ring, from a node, with an empty map and no node
    marked. *)
Definition available (depth : nat) (node : N)
    : option (list (Scene.Comps * option N) * list N * unit) :=
  @getComponentsAvailableRecursive Scene.sceneTypes ring unit ringPlanes depth node 5 0
    [] [] tt.

End Ring.

(** * Images being rendered *)

Module Trimap.
Import CacheLookup.
Local Open Scope Z_scope.

(** [EffectInstance::RenderRoIStatusEnum], what [renderRoIInternal] answers. *)
Inductive RenderRoIStatusEnum :=
| eRenderRoIStatusImageAlreadyRendered
| eRenderRoIStatusImageRendered
| eRenderRoIStatusRenderFailed.

#[global] Instance RenderRoIStatusEnum_eq_dec : EqDecision RenderRoIStatusEnum.
Proof. solve_decision. Defined.

(** [Implementation::ImageBeingRendered] (374-383), without its lock and its
    wait condition.  [refCount] is an [int] that counts the renders that
    hold the image; it is taken as an integer, far from the bounds of
    [int]. *)
Record ImageBeingRendered := mkImageBeingRendered {
  refCount : Z;
  renderFailed : bool
}.

(** The state the end of [renderRoI] runs in: the registry
    [_imp->imagesBeingRendered] of the effect, a [std::map<ImagePtr, IBRPtr>]
    whose key is the identity of the image, and [ext] for everything else. *)
Record World (X : Type) := mkWorld {
  imagesBeingRendered : gmap N ImageBeingRendered;
  ext : X
}.
Arguments mkWorld {X}.
Arguments imagesBeingRendered {X}.
Arguments ext {X}.

(** How the stretch of [renderRoI] below leaves the function or goes on. *)
Inductive Outcome :=
| ReturnAborted
| ThrowRenderingFailed
| GoOn (renderRetCode : RenderRoIStatusEnum).

#[global] Instance Outcome_eq_dec : EqDecision Outcome.
Proof. solve_decision. Defined.

Section Registry.
Context `{ImageTypes}.

(** What the stretch calls and does not define, or what is not followed
    here. *)
Class TrimapOps (X : Type) := {
  (** [Implementation::waitForImageBeingRenderedElsewhereAndUnmark] (417-464):
      the thread sleeps while other threads render, then takes its mark off;
      [None] when an assertion fails *)
  waitForImageBeingRenderedElsewhereAndUnmark :
    RectI.t -> Image -> World X -> option (World X);
  (** [appPTR->removeFromNodeCache(image)] *)
  removeFromNodeCache : Image -> X -> X;
  (** [aborted()] *)
  aborted : X -> bool
}.

Context {X : Type} `{!TrimapOps X}.

(** [Implementation::markImageAsBeingRendered] (401-415). *)
Definition markImageAsBeingRendered (img : Image) (m : gmap N ImageBeingRendered)
    : gmap N ImageBeingRendered :=
  if negb (usesBitMap img) then m
  else
    match m !! ptr img with
    | Some found => <[ptr img := mkImageBeingRendered (refCount found + 1) (renderFailed found)]> m
    | None => <[ptr img := mkImageBeingRendered (0 + 1) false]> m
    end.

(** [Implementation::unmarkImageAsBeingRendered] (466-486); [None] when the
    assertion that the image is registered fails. *)
Definition unmarkImageAsBeingRendered (img : Image) (failed : bool)
    (m : gmap N ImageBeingRendered)
    : option (gmap N ImageBeingRendered) :=
  if negb (usesBitMap img) then Some m
  else
    match m !! ptr img with
    | None => None
    | Some found =>
        let found :=
          mkImageBeingRendered (refCount found - 1)
            (if failed then true else renderFailed found) in
        if refCount found =? 0 then Some (delete (ptr img) m)
        else Some (<[ptr img := found]> m)
    end.

(** [useImageAsOutput ? it->second.fullscaleImage : it->second.downscaleImage];
    [None] is a null pointer. *)
Definition planeImage (useImageAsOutput : bool) (p : Tile.PlaneToRender) : option Image :=
  if useImageAsOutput then Tile.fullscaleImage p else Tile.downscaleImage p.

(** Lines 2749-2751: every plane is marked; a null image is dereferenced. *)
Fixpoint markPlanes (useImageAsOutput : bool) (planes : Tile.PlaneMap)
    (m : gmap N ImageBeingRendered)
    : option (gmap N ImageBeingRendered) :=
  match planes with
  | [] => Some m
  | (_, p) :: rest =>
      match planeImage useImageAsOutput p with
      | None => None
      | Some img => markPlanes useImageAsOutput rest (markImageAsBeingRendered img m)
      end
  end.

(** Lines 2794-2808: the marks are taken off; the boolean tells that the
    function has returned [eRenderRoIRetCodeAborted] from within the loop. *)
Fixpoint unmarkPlanes (useImageAsOutput renderAborted : bool)
    (renderRetCode : RenderRoIStatusEnum) (isBeingRenderedElsewhere : bool)
    (roi : RectI.t) (planes : Tile.PlaneMap) (w : World X) : option (bool * World X) :=
  match planes with
  | [] => Some (false, w)
  | (_, p) :: rest =>
      match planeImage useImageAsOutput p with
      | None => None
      | Some img =>
          if negb renderAborted then
            let unmarked :=
              if bool_decide (renderRetCode = eRenderRoIStatusRenderFailed)
                 || negb isBeingRenderedElsewhere
              then
                (fun m => mkWorld m (ext w)) <$>
                unmarkImageAsBeingRendered img
                  (bool_decide (renderRetCode = eRenderRoIStatusRenderFailed))
                  (imagesBeingRendered w)
              else waitForImageBeingRenderedElsewhereAndUnmark roi img w in
            match unmarked with
            | None => None
            | Some w =>
                unmarkPlanes useImageAsOutput renderAborted renderRetCode
                  isBeingRenderedElsewhere roi rest w
            end
          else
            match unmarkImageAsBeingRendered img true (imagesBeingRendered w) with
            | None => None
            | Some m => Some (true, mkWorld m (removeFromNodeCache img (ext w)))
            end
      end
  end.

(** Lines 2814-2823. *)
Definition verdict (renderAborted : bool) (renderRetCode : RenderRoIStatusEnum)
    : Outcome :=
  if renderAborted
     && negb (bool_decide (renderRetCode = eRenderRoIStatusImageAlreadyRendered))
  then ReturnAborted
  else if bool_decide (renderRetCode = eRenderRoIStatusRenderFailed)
  then ThrowRenderingFailed
  else GoOn renderRetCode.

(** [EffectInstance::renderRoI], lines 2738-2823: the planes are marked as
    being rendered, rendered, and unmarked.  [renderRoIInternal] stands for
    the call of lines 2769-2783 with its arguments; neither it nor the
    workers it starts name the registry. *)
Definition renderPlanes (frameRenderArgs : Tile.ParallelRenderArgs)
    (hasSomethingToRender isBeingRenderedElsewhere useImageAsOutput : bool)
    (roi : RectI.t) (planes : Tile.PlaneMap)
    (renderRoIInternal : X -> RenderRoIStatusEnum * X) (w : World X)
    : option (Outcome * World X) :=
  let renderRetCode := eRenderRoIStatusImageAlreadyRendered in
  if negb hasSomethingToRender && negb isBeingRenderedElsewhere then
    let renderAborted := aborted (ext w) in
    Some (verdict renderAborted renderRetCode, w)
  else
    let trimap :=
      negb (Tile.canAbort frameRenderArgs)
      && Tile.isRenderResponseToUserInteraction frameRenderArgs in
    match (if trimap
           then markPlanes useImageAsOutput planes (imagesBeingRendered w)
           else Some (imagesBeingRendered w)) with
    | None => None
    | Some m =>
        let '(renderRetCode, x) :=
          if hasSomethingToRender then renderRoIInternal (ext w)
          else (renderRetCode, ext w) in
        let w := mkWorld m x in
        let renderAborted := aborted (ext w) in
        if trimap then
          match unmarkPlanes useImageAsOutput renderAborted renderRetCode
                  isBeingRenderedElsewhere roi planes w with
          | None => None
          | Some (true, w) => Some (ReturnAborted, w)
          | Some (false, w) => Some (verdict renderAborted renderRetCode, w)
          end
        else Some (verdict renderAborted renderRetCode, w)
    end.

(** The number of planes of a render that hold the image of identity [k],
    among those that use a bitmap. *)
Fixpoint holders (useImageAsOutput : bool) (k : N) (planes : Tile.PlaneMap) : nat :=
  match planes with
  | [] => O
  | (_, p) :: rest =>
      match planeImage useImageAsOutput p with
      | Some img =>
          if usesBitMap img && bool_decide (ptr img = k)
          then S (holders useImageAsOutput k rest)
          else holders useImageAsOutput k rest
      | None => holders useImageAsOutput k rest
      end
  end.

(** Every entry of a registry counts at least one render. *)
Definition counted (m : gmap N ImageBeingRendered) : Prop :=
  forall k found, m !! k = Some found -> 0 < refCount found.

End Registry.

(** A state with the abort flag, the answer of the next render and the
    images removed from the node cache. *)
Definition sceneTrimap : @TrimapOps Scene.sceneTypes (bool * RenderRoIStatusEnum * list N) := {|
  waitForImageBeingRenderedElsewhereAndUnmark _ _ _ := None;
  removeFromNodeCache img x := (x.1, x.2 ++ [ptr img]);
  aborted x := x.1.1
|}.

Definition sceneRender (x : bool * RenderRoIStatusEnum * list N)
    : RenderRoIStatusEnum * (bool * RenderRoIStatusEnum * list N) :=
  (x.1.2, x).

(** Two planes held in two images of the scene; the second image is being
    rendered by another render as well. *)
Definition planesAB : Tile.PlaneMap :=
  [(Scene.RGBA,
    Tile.mkPlaneToRender (Some Scene.imgByte1) (Some Scene.imgByte1) None None false None);
   (Scene.Alpha,
    Tile.mkPlaneToRender (Some Scene.imgFloat0) (Some Scene.imgFloat0) None None false
      None)].

Definition registryB : gmap N ImageBeingRendered := {[ 2%N := mkImageBeingRendered 1 false ]}.

Definition sceneWorld (isAborted : bool) (answer : RenderRoIStatusEnum)
    : World (bool * RenderRoIStatusEnum * list N) :=
  mkWorld registryB (isAborted, answer, []).

Definition run (isAborted : bool) (answer : RenderRoIStatusEnum)
    : option (Outcome * World (bool * RenderRoIStatusEnum * list N)) :=
  @renderPlanes Scene.sceneTypes _ sceneTrimap Scene.interactiveFrame true false false
    Scene.tileRect planesAB sceneRender (sceneWorld isAborted answer).

End Trimap.

(** * The output effect *)

Module OutputEffect.
Local Open Scope Z_scope.

(** [OutputEffectInstance::ifInfiniteclipRectToProjectDefault] (5446-5477):
    the flag returned and the rectangle left in [*rod].  [projectDefault] is
    the format [getRenderFormat] gives, [None] when the application has no
    project. *)
Definition ifInfiniteclipRectToProjectDefault (e : Heuristic.Env)
    (projectDefault : option RectI.t) (rod : RectD.t) : bool * RectD.t :=
  match projectDefault with
  | None => (false, rod)
  | Some projectDefault =>
      let isRodProjctFormat := false in
      let '(rod, isRodProjctFormat) :=
        if RectD.x1 rod <=? Heuristic.kOfxFlagInfiniteMin e
        then (RectD.mk (RectI.x1 projectDefault) (RectD.y1 rod) (RectD.x2 rod) (RectD.y2 rod),
              true)
        else (rod, isRodProjctFormat) in
      let '(rod, isRodProjctFormat) :=
        if RectD.y1 rod <=? Heuristic.kOfxFlagInfiniteMin e
        then (RectD.mk (RectD.x1 rod) (RectI.y1 projectDefault) (RectD.x2 rod) (RectD.y2 rod),
              true)
        else (rod, isRodProjctFormat) in
      let '(rod, isRodProjctFormat) :=
        if RectD.x2 rod >=? Heuristic.kOfxFlagInfiniteMax e
        then (RectD.mk (RectD.x1 rod) (RectD.y1 rod) (RectI.x2 projectDefault) (RectD.y2 rod),
              true)
        else (rod, isRodProjctFormat) in
      let '(rod, isRodProjctFormat) :=
        if RectD.y2 rod >=? Heuristic.kOfxFlagInfiniteMax e
        then (RectD.mk (RectD.x1 rod) (RectD.y1 rod) (RectD.x2 rod) (RectI.y2 projectDefault),
              true)
        else (rod, isRodProjctFormat) in
      (isRodProjctFormat, rod)
  end.

Definition sceneProject : RectI.t := RectI.mk 0 0 1920 1080.

End OutputEffect.

(** * Properties *)

(** ** The actions cache *)

Section ActionsCacheProperties.
Import Actions.
Local Open Scope Z_scope.

(** The comparator of the two maps tells keys apart exactly when they differ:
    a finite map on [ActionKey] is the [std::map] of the source. *)
Lemma sameSlot_eq (a b : ActionKey) : sameSlot a b = true <-> a = b.
Proof.
  destruct a as [t v m], b as [t' v' m'].
  unfold sameSlot, CompareActionsCacheKeys; simpl.
  split.
  - intros Hs.
    destruct (Z.ltb_spec t t'), (Z.ltb_spec t' t), (Z.eqb_spec t t'), (Z.eqb_spec t' t);
      try discriminate; try lia.
    destruct (N.ltb_spec m m'), (N.ltb_spec m' m), (N.eqb_spec m m'), (N.eqb_spec m' m);
      try discriminate; try lia.
    destruct (Z.ltb_spec v v'), (Z.ltb_spec v' v); try discriminate.
    f_equal; lia.
  - intros [= -> -> ->].
    rewrite !Z.ltb_irrefl, !Z.eqb_refl, !N.ltb_irrefl, !N.eqb_refl. reflexivity.
Qed.

Lemma getRoDResult_store (op : Store) (c : ActionsCache) hash t v m rod :
  getRoDResult hash t v m c = Some rod ->
  getRoDResult hash t v m (store op c) = Some rod.
Proof.
  unfold getRoDResult. destruct op as [t' v' m' rod' | t' v' m' nb it | f l]; simpl.
  - unfold setRoDResult.
    destruct (_rodCache c !! mkActionKey t' v' m') eqn:Hk; [done |]. simpl.
    destruct (negb (hash =? _cacheHash c)%N); [done |].
    intros Hget. rewrite lookup_insert_ne; [done |]. congruence.
  - done.
  - done.
Qed.

Lemma getRoDResult_stores (ops : list Store) (c : ActionsCache) hash t v m rod :
  getRoDResult hash t v m c = Some rod ->
  getRoDResult hash t v m (stores ops c) = Some rod.
Proof.
  revert c. induction ops as [| op ops IH]; intros c Hget; [done |].
  apply IH. by apply getRoDResult_store.
Qed.

Lemma setRoDResult_again (c : ActionsCache) t v m rod rod' :
  setRoDResult t v m rod' (setRoDResult t v m rod c) = setRoDResult t v m rod c.
Proof.
  unfold setRoDResult at 2 3.
  destruct (_rodCache c !! mkActionKey t v m) eqn:Hk.
  - unfold setRoDResult. by rewrite Hk.
  - unfold setRoDResult. simpl. by rewrite lookup_insert_eq.
Qed.

(** C3.  For every actions cache: a look-up of a region of definition, of an
    identity verdict or of the time domain under a hash other than the
    cache's current one misses; [invalidateAll newHash] adopts [newHash] and
    empties the two tables and the time domain, so that every look-up misses
    afterwards; and while the hash stays the same the first region of
    definition written for a key wins: the write lands when the key is free,
    a second write for the key changes nothing, and once a look-up has found
    a rectangle every later look-up of the key finds the same one, whatever
    is written in between. *)
Theorem ActionsCache_tag_and_first_write (c : ActionsCache) (hash newHash : N)
    (t v : Z) (m : N) :
  (hash <> _cacheHash c ->
     getRoDResult hash t v m c = None
     /\ getIdentityResult hash t v m c = None
     /\ getTimeDomainResult hash c = None)
  /\ (_cacheHash (invalidateAll newHash c) = newHash
      /\ _rodCache (invalidateAll newHash c) = ∅
      /\ _identityCache (invalidateAll newHash c) = ∅
      /\ _timeDomainSet (invalidateAll newHash c) = false
      /\ getRoDResult hash t v m (invalidateAll newHash c) = None
      /\ getIdentityResult hash t v m (invalidateAll newHash c) = None
      /\ getTimeDomainResult hash (invalidateAll newHash c) = None)
  /\ (forall rod rod' : RectD.t,
        (getRoDResult (_cacheHash c) t v m c = None ->
           getRoDResult (_cacheHash c) t v m (setRoDResult t v m rod c) = Some rod)
        /\ setRoDResult t v m rod' (setRoDResult t v m rod c) = setRoDResult t v m rod c
        /\ (getRoDResult hash t v m c = Some rod ->
              setRoDResult t v m rod' c = c
              /\ forall ops : list Store,
                   getRoDResult hash t v m (stores ops c) = Some rod)).
Proof.
  split; [| split].
  - intros Hne. unfold getRoDResult, getIdentityResult, getTimeDomainResult.
    assert ((hash =? _cacheHash c)%N = false) as -> by by apply N.eqb_neq.
    done.
  - unfold getRoDResult, getIdentityResult, getTimeDomainResult, invalidateAll; simpl.
    repeat split; try done.
    + destruct (negb _); [done | apply lookup_empty].
    + destruct (negb _); [done | by rewrite lookup_empty].
    + by rewrite orb_true_r.
  - intros rod rod'. split; [| split].
    + unfold getRoDResult, setRoDResult. rewrite N.eqb_refl. simpl.
      intros ->. simpl. rewrite N.eqb_refl. simpl. apply lookup_insert_eq.
    + apply setRoDResult_again.
    + intros Hget. split.
      * unfold getRoDResult in Hget. unfold setRoDResult.
        destruct (negb _); [done |]. by rewrite Hget.
      * intros ops. by apply getRoDResult_stores.
Qed.

Lemma ActionsCache_tag_and_first_write_witness :
  getRoDResult 8 5 0 0 cacheA = None
  /\ getRoDResult 7 5 0 0
       (stores [StoreRoD 5 0 0 rodB; StoreIdentity 5 0 0 0 5; StoreTimeDomain 1 9] cacheA)
     = Some rodA.
Proof.
  split.
  - destruct (ActionsCache_tag_and_first_write cacheA 8 9 5 0 0) as [Htag _].
    apply Htag. vm_compute. congruence.
  - destruct (ActionsCache_tag_and_first_write cacheA 7 9 5 0 0) as (_ & _ & Hfirst).
    apply (Hfirst rodA rodB). reflexivity.
Defined.
End ActionsCacheProperties.

(** ** The infinite-RoD heuristic *)

Section HeuristicProperties.
Import Heuristic.
Local Open Scope Z_scope.

(** The rectangle the heuristic leaves, side by side. *)
Lemma ifInfiniteApplyHeuristic_sides (e : Env) (rod : RectD.t) :
  let U := inputsUnion e rod in
  let P := projectDefault e in
  let r := (ifInfiniteApplyHeuristic e rod).2 in
  let lowX := if x1Infinite e rod then clipLow U P RectD.x1 else RectD.x1 rod in
  let lowY := if y1Infinite e rod then clipLow U P RectD.y1 else RectD.y1 rod in
  let highX := if x2Infinite e rod then clipHigh U P RectD.x2
               else if x1Infinite e rod then Z.max lowX (RectD.x2 rod) else RectD.x2 rod in
  let highY := if y2Infinite e rod then clipHigh U P RectD.y2
               else if y1Infinite e rod then Z.max lowY (RectD.y2 rod) else RectD.y2 rod in
  r = RectD.mk (if x2Infinite e rod then Z.min lowX highX else lowX)
               (if y2Infinite e rod then Z.min lowY highY else lowY)
               highX highY.
Proof.
  unfold ifInfiniteApplyHeuristic, clipLow, clipHigh.
  destruct (x1Infinite e rod), (y1Infinite e rod), (x2Infinite e rod), (y2Infinite e rod),
    (RectD.isNull (inputsUnion e rod)); destruct rod; reflexivity.
Qed.



End HeuristicProperties.

(** ** The cache look-up *)

Section CacheLookupProperties.
Import CacheLookup.
Context `{ImageTypes} {W : Type} `{!CacheOps W}.
Local Open Scope Z_scope.

(** The body of the loop, verdict by verdict. *)
Lemma examine_Matching (rq : Request) (it : Image) (w : W) :
  examine rq it w = Matching ->
  getMipMapLevel it = mipMapLevel rq /\ convertibleFor rq it /\ deepEnough rq it.
Proof.
  unfold examine, convertibleFor, deepEnough.
  repeat case_match; try discriminate. intros _.
  match goal with Hm : _ && _ && _ = true |- _ =>
    apply andb_true_iff in Hm as [Hm Hd]; apply andb_true_iff in Hm as [Hl Hc] end.
  apply N.eqb_eq in Hl. apply Z.leb_le in Hd. done.
Qed.

Lemma examine_Candidate (rq : Request) (it : Image) (w : W) :
  examine rq it w = Candidate ->
  (getMipMapLevel it < mipMapLevel rq)%N /\ convertibleFor rq it /\ deepEnough rq it.
Proof.
  unfold examine, convertibleFor, deepEnough.
  repeat case_match; try discriminate. intros _.
  match goal with Hs : _ || _ || _ = false |- _ =>
    apply orb_false_iff in Hs as [Hs Hd]; apply orb_false_iff in Hs as [Hl Hc] end.
  apply N.leb_gt in Hl. apply negb_false_iff in Hc. apply Z.ltb_ge in Hd. done.
Qed.

Lemma examine_accepts (rq : Request) (it : Image) (w : W) :
  examine rq it w <> Evicted ->
  convertibleFor rq it -> deepEnough rq it ->
  ((getMipMapLevel it = mipMapLevel rq -> examine rq it w = Matching)
   /\ ((getMipMapLevel it < mipMapLevel rq)%N -> examine rq it w = Candidate)).
Proof.
  unfold examine, convertibleFor, deepEnough. intros Hne Hc Hd.
  destruct (isRodProjectFormat it && _); [done |].
  destruct (_ || _); [done |].
  rewrite Hc. apply Z.leb_le in Hd as Hd'. rewrite Hd'. simpl.
  assert ((getSizeOfForBitDepth (getBitDepth it) <? getSizeOfForBitDepth (bitdepth rq)) = false)
    as -> by (apply Z.ltb_ge; lia).
  rewrite !andb_true_r, !orb_false_r.
  split; intros Hl.
  - rewrite Hl, N.eqb_refl. done.
  - assert ((getMipMapLevel it =? mipMapLevel rq)%N = false) as -> by (apply N.eqb_neq; lia).
    assert ((mipMapLevel rq <=? getMipMapLevel it)%N = false) as -> by (apply N.leb_gt; lia).
    done.
Qed.

Lemma examine_rejects (rq : Request) (it : Image) (w : W) :
  ((mipMapLevel rq <= getMipMapLevel it)%N \/ ~ convertibleFor rq it \/ ~ deepEnough rq it) ->
  examine rq it w <> Candidate
  /\ ((mipMapLevel rq < getMipMapLevel it)%N \/ ~ convertibleFor rq it \/ ~ deepEnough rq it ->
      examine rq it w = Evicted \/ examine rq it w = Skipped).
Proof.
  intros Hr. split.
  - intros Hc. apply examine_Candidate in Hc as (Hl & Hc & Hd).
    destruct Hr as [Hr | [Hr | Hr]]; [lia | done | done].
  - intros Hr'. destruct (examine rq it w) eqn:He; auto.
    + apply examine_Matching in He as (Hl & Hc & Hd).
      destruct Hr' as [Hr' | [Hr' | Hr']]; [lia | done | done].
    + apply examine_Candidate in He as (Hl & Hc & Hd).
      destruct Hr' as [Hr' | [Hr' | Hr']]; [lia | done | done].
Qed.

(** What the loop leaves in [*image] and [imageToConvert]. *)
Lemma lookupLoop_selects (rq : Request) (cachedImages : list Image) :
  forall (w : W) (image imageToConvert : option Image) w' image' imageToConvert',
  lookupLoop rq cachedImages w image imageToConvert = (w', image', imageToConvert') ->
  (image' = image
   \/ exists p w0, image' = Some p /\ In p cachedImages /\ examine rq p w0 = Matching)
  /\ (imageToConvert' = imageToConvert
      \/ exists q w0, imageToConvert' = Some q /\ In q cachedImages
                      /\ examine rq q w0 = Candidate).
Proof.
  induction cachedImages as [| it rest IH]; intros w image conv w' image' conv' Hl; simpl in Hl.
  - injection Hl as <- <- <-. auto.
  - destruct (examine rq it w) eqn:He.
    + apply IH in Hl as [Hi Hc]. split.
      * destruct Hi as [-> | (p & w0 & -> & Hin & Hp)]; [by left |]. right. exists p, w0. simpl. auto.
      * destruct Hc as [-> | (q & w0 & -> & Hin & Hq)]; [by left |]. right. exists q, w0. simpl. auto.
    + injection Hl as <- <- <-. split; [| by left].
      right. exists it, w. simpl. auto.
    + apply IH in Hl as [Hi Hc]. split.
      * destruct Hi as [-> | (p & w0 & -> & Hin & Hp)]; [by left |]. right. exists p, w0. simpl. auto.
      * destruct Hc as [-> | (q & w0 & -> & Hin & Hq)].
        -- destruct conv as [cur |].
           ++ destruct (getMipMapLevel cur <? getMipMapLevel it)%N; [| by left].
              right. exists it, w. simpl. auto.
           ++ right. exists it, w. simpl. auto.
        -- right. exists q, w0. simpl. auto.
    + apply IH in Hl as [Hi Hc]. split.
      * destruct Hi as [-> | (p & w0 & -> & Hin & Hp)]; [by left |]. right. exists p, w0. simpl. auto.
      * destruct Hc as [-> | (q & w0 & -> & Hin & Hq)]; [by left |]. right. exists q, w0. simpl. auto.
Qed.

Lemma downscaledParams_keeps (rq : Request) (bounds : RectI.t) (rod : RectD.t)
    (q : Image) (w : W) :
  let p := (downscaledParams rq bounds rod q w).1 in
  p_bitDepth p = getBitDepth q
  /\ p_components p = getComponents q
  /\ p_mipMapLevel p = mipMapLevel rq.
Proof. done. Qed.

(** C2.  A cache look-up never selects an image whose bit depth is smaller
    than the requested one.  For every cached image the loop examines: it is
    taken as the match only at the requested mipmap level, with components
    convertible to the requested ones and pixels at least as large as
    requested; it is kept as a source to downscale from only at a lower
    mipmap level, convertible and as deep; an image that passed the two
    eviction tests with these three properties is indeed taken, as the match
    at the same level and as a source at a lower one; and an image at a
    higher or equal level, with components that do not convert or with
    smaller pixels is never a source (at a higher level, not convertible or
    too shallow, it is thrown out or passed over).  So the image and the
    source the loop ends with are cached images with these properties, and
    the image the whole function returns is either that match or what the
    cache handed back for parameters carrying the bit depth of that
    source. *)
Theorem cache_lookup_never_shallower (rq : Request) :
  (forall (it : Image) (w : W),
      (examine rq it w = Matching ->
         getMipMapLevel it = mipMapLevel rq /\ convertibleFor rq it /\ deepEnough rq it)
      /\ (examine rq it w = Candidate ->
            (getMipMapLevel it < mipMapLevel rq)%N /\ convertibleFor rq it
            /\ deepEnough rq it)
      /\ (examine rq it w <> Evicted -> convertibleFor rq it -> deepEnough rq it ->
            (getMipMapLevel it = mipMapLevel rq -> examine rq it w = Matching)
            /\ ((getMipMapLevel it < mipMapLevel rq)%N -> examine rq it w = Candidate))
      /\ ((mipMapLevel rq <= getMipMapLevel it)%N \/ ~ convertibleFor rq it
           \/ ~ deepEnough rq it ->
            examine rq it w <> Candidate)
      /\ ((mipMapLevel rq < getMipMapLevel it)%N \/ ~ convertibleFor rq it
           \/ ~ deepEnough rq it ->
            examine rq it w = Evicted \/ examine rq it w = Skipped))
  /\ (forall (cachedImages : list Image) (w w' : W) (image imageToConvert : option Image),
        lookupLoop rq cachedImages w None None = (w', image, imageToConvert) ->
        (forall p, image = Some p ->
           In p cachedImages /\ getMipMapLevel p = mipMapLevel rq
           /\ convertibleFor rq p /\ deepEnough rq p)
        /\ (forall q, imageToConvert = Some q ->
              In q cachedImages /\ (getMipMapLevel q < mipMapLevel rq)%N
              /\ convertibleFor rq q /\ deepEnough rq q))
  /\ (forall (useCache useDiskCache : bool) (key : ImageKey) (bounds : RectI.t)
             (rod : RectD.t) (inputImages : list (option Image)) (w w' : W) (r : Image),
        getImageFromCacheAndConvertIfNeeded useCache useDiskCache key rq bounds rod
          inputImages None w = (w', Some r) ->
        let cachedImages := (gatherCached useDiskCache key inputImages w).1.2 in
        (In r cachedImages /\ getMipMapLevel r = mipMapLevel rq
         /\ convertibleFor rq r /\ deepEnough rq r)
        \/ (exists (q : Image) (w1 w2 : W),
              In q cachedImages /\ (getMipMapLevel q < mipMapLevel rq)%N
              /\ convertibleFor rq q /\ deepEnough rq q
              /\ let p := (downscaledParams rq bounds rod q w1).1 in
                 p_bitDepth p = getBitDepth q
                 /\ getOrCreateFromCacheInternal key p useCache useDiskCache w1
                    = (Some r, w2))).
Proof.
  split; [| split].
  - intros it w. split; [apply examine_Matching |].
    split; [apply examine_Candidate |].
    split; [apply examine_accepts |].
    split; [apply examine_rejects |].
    intros Hr. apply examine_rejects; [| done].
    destruct Hr as [Hr | Hr]; [left; lia | by right].
  - intros cachedImages w w' image conv Hl.
    apply lookupLoop_selects in Hl as [Hi Hc]. split.
    + intros p ->. destruct Hi as [Hi | (p' & w0 & [= <-] & Hin & He)]; [done |].
      apply examine_Matching in He. tauto.
    + intros q ->. destruct Hc as [Hc | (q' & w0 & [= <-] & Hin & He)]; [done |].
      apply examine_Candidate in He. tauto.
  - intros useCache useDiskCache key bounds rod inputImages w w' r.
    unfold getImageFromCacheAndConvertIfNeeded.
    destruct (gatherCached useDiskCache key inputImages w) as [[isCached cachedImages] w0].
    simpl. destruct isCached; [| done].
    destruct (lookupLoop rq cachedImages w0 None None) as [[w1 image] conv] eqn:Hl.
    apply lookupLoop_selects in Hl as [Hi Hc].
    unfold finishLookup. intros Hr.
    destruct image as [p |].
    + destruct Hi as [Hi | (p' & w2 & [= <-] & Hin & He)]; [done |].
      apply examine_Matching in He.
      left. destruct conv; injection Hr as <- <-; tauto.
    + destruct conv as [q |]; [| done].
      destruct Hc as [Hc | (q' & w2 & [= <-] & Hin & He)]; [done |].
      apply examine_Candidate in He as (Hlt & Hcv & Hd).
      assert ((getMipMapLevel q =? mipMapLevel rq)%N = false) as Hne
        by (apply N.eqb_neq; lia).
      rewrite Hne in Hr. cbn [negb] in Hr.
      destruct (downscaledParams rq bounds rod q (allocateMemory q w1))
        as [imageParams imgToConvertBounds] eqn:Hp.
      destruct (getOrCreateFromCacheInternal key imageParams useCache useDiskCache
                  (allocateMemory q w1)) as [[img |] w3] eqn:Hg;
        simpl in Hr; [| done].
      injection Hr as <- <-.
      right. exists q, (allocateMemory q w1), w3.
      unfold downscaledParams in Hp. injection Hp as <- <-.
      repeat split; done.
Qed.
End CacheLookupProperties.

(** C2 at work: of the two cached images, the 8-bit one is thrown out and the
    float one at full resolution is kept to downscale from. *)
Lemma cache_lookup_never_shallower_witness :
  CacheLookup.lookupLoop Scene.requestA [Scene.imgByte1; Scene.imgFloat0] Scene.worldA
    None None
  = (Scene.evict Scene.imgByte1 Scene.worldA, None, Some Scene.imgFloat0)
  /\ CacheLookup.deepEnough Scene.requestA Scene.imgFloat0.
Proof.
  split; [reflexivity |].
  destruct (cache_lookup_never_shallower Scene.requestA) as (_ & Hloop & _).
  destruct (Hloop [Scene.imgByte1; Scene.imgFloat0] Scene.worldA _ _ _ eq_refl) as [_ Hq].
  apply (Hq Scene.imgFloat0 eq_refl).
Defined.


(** ** The output scheduler *)

Section SchedulerProperties.
Import Scheduler.
Local Open Scope Z_scope.












(** Frames 2, 1, 3 are appended in that order and delivered as 1, 2, 3. *)
Example scheduler_runA :
  times (delivered (run runA (start 1 3 RENDER_FORWARD))) = [1; 2; 3].
Proof. reflexivity. Qed.
End SchedulerProperties.

(** ** The tile worker *)

Section TileProperties.
Import CacheLookup Tile.
Context `{ImageTypes} {X : Type} `{!TileOps X}.
Local Open Scope Z_scope.



Lemma bitmaps_leaveScopes (p : Prepared) inputImages frameTLS (w : World X) :
  bitmaps (leaveScopes p inputImages frameTLS w) = bitmaps w.
Proof. unfold leaveScopes. by destruct (scoped p). Qed.



End TileProperties.



(** * The entry of renderRoI *)
Section RenderProperties.
Import CacheLookup Render.
Context `{ImageTypes} {W : Type} `{!CacheOps W} `{!RenderOps W}.
Local Open Scope Z_scope.

(** [renderRoI] with one more level of nesting allowed is one activation
    whose calls are [renderRoI] itself. *)
Lemma renderRoI_S (depth : nat) :
  renderRoI (S depth) = renderRoI_body (renderRoI depth).
Proof. reflexivity. Qed.

(** C9.  A call without a precomputed region of definition, asking for at
    least one plane, whose region-of-definition query fails or answers an
    empty rectangle, returns ok, with the list of output planes as it was
    handed in: nothing is appended, and the call does not return failed. *)
Theorem renderRoI_without_rod (depth : nat) (node : Node) (args : RenderRoIArgs)
    (outputPlanes : list Image) (w w' : W) (stat : StatusEnum) (rod : RectD.t)
    (isProjectFormat : bool) :
  components args <> [] ->
  RectD.isNull (preComputedRoD args) = true ->
  getRegionOfDefinition_public node
    (Tile.nodeHash (frameRenderArgs node (ensureFrameRenderArgs node args w)))
    (time args)
    (renderMappedMipMapLevel (entryScale node args (ensureFrameRenderArgs node args w)))
    (view args) (ensureFrameRenderArgs node args w)
  = (stat, rod, isProjectFormat, w') ->
  stat = eStatusFailed \/ RectD.isNull rod = true ->
  renderRoI (S depth) node args outputPlanes w
  = Some (Returned eRenderRoIRetCodeOk outputPlanes w').
Proof.
  intros Hc Hpre Hrod Hbad. rewrite renderRoI_S. unfold renderRoI_body, stageRoD.
  destruct (components args) as [| c cs]; [done |].
  cbv zeta. rewrite Hpre. cbn [negb]. rewrite Hrod.
  destruct Hbad as [-> | Hnull].
  - by rewrite bool_decide_eq_true_2.
  - rewrite Hnull. by destruct (bool_decide _).
Qed.


(** C5.  When the node declares itself identity to itself (input number
    -2): at the time asked for, the call returns failed without a nested
    call (no input has number -2); at another time, the call is the call on
    the same node with the time replaced and the precomputed region of
    definition forgotten. *)
Theorem renderRoI_identity_to_itself (depth : nat) (node : Node)
    (args : RenderRoIArgs) (outputPlanes : list Image) (w w1 w2 : W) (rs : RoDStage)
    (inputTimeIdentity : Z) :
  stageRoD node args outputPlanes w = Continue (rs, w1) ->
  isIdentity_public node (r_nodeHash rs) (time args)
    (renderMappedMipMapLevel (r_scale rs)) (r_rod rs) (r_par rs) (view args) w1
  = (Some (true, inputTimeIdentity, -2), w2) ->
  (inputTimeIdentity = time args ->
     let scope := enterIdentityScope node args rs true inputTimeIdentity (-2) w2 in
     getInput node (-2) scope = None ->
     renderRoI (S depth) node args outputPlanes w
     = Some (Returned eRenderRoIRetCodeFailed outputPlanes
               (ScopedRenderArgs_leave node scope)))
  /\ (inputTimeIdentity <> time args ->
        renderRoI (S depth) node args outputPlanes w
        = renderRoI depth node
            (withPreComputedRoD RectD.null (withTime inputTimeIdentity args))
            outputPlanes w2).
Proof.
  intros Hrod Hid. split.
  - intros Heq scope Hin. rewrite renderRoI_S. unfold renderRoI_body. rewrite Hrod.
    unfold stageIdentity. rewrite Hid. simpl.
    assert ((inputTimeIdentity =? time args) = true) as -> by by apply Z.eqb_eq.
    simpl. fold scope. by rewrite Hin.
  - intros Hne. rewrite renderRoI_S. unfold renderRoI_body. rewrite Hrod.
    unfold stageIdentity. rewrite Hid. simpl.
    assert ((inputTimeIdentity =? time args) = false) as -> by by apply Z.eqb_neq.
    simpl.
    by destruct (renderRoI depth node _ outputPlanes w2).
Qed.

(** The planes fetched upstream are appended, one per producer. *)
Lemma fetchUpstream_appends (self : Self) (args : RenderRoIArgs)
    (toFetch : list (ImageComponents * option Node)) :
  forall (outputPlanes outputPlanes' : list Image) (w w' : W),
  fetchUpstream self args toFetch outputPlanes w = Some (Continue (outputPlanes', w')) ->
  exists fetched : list Image,
    outputPlanes' = outputPlanes ++ fetched
    /\ length fetched = length (omap snd toFetch).
Proof.
  induction toFetch as [| [plane [node |]] rest IH]; intros out out' w w' Hf; simpl in Hf.
  - injection Hf as <- <-. exists []. by rewrite app_nil_r.
  - destruct (self node (withComponents [plane] args) [] w) as [[code planes w0 | ? ? |] |];
      simpl in Hf; try done.
    destruct code, planes as [| front planes]; try done.
    apply IH in Hf as (fetched & -> & Hlen).
    exists (front :: fetched). rewrite <- app_assoc. simpl. split; [done |]. by rewrite Hlen.
  - apply IH in Hf as (fetched & -> & Hlen). exists fetched. done.
Qed.

(** C10.  When none of the planes asked for is produced by the node itself,
    every one of them being found (or not) upstream, the call returns failed
    although every fetch upstream succeeded; the planes fetched, one per
    producer, have by then been appended to the output list. *)
Theorem renderRoI_only_pass_through (depth : nat) (node : Node) (args : RenderRoIArgs)
    (outputPlanes outputPlanes' : list Image) (w w1 w2 w3 w4 : W) (rs : RoDStage)
    (sc : Scale) (componentsAvailables componentsToFetchUpstream
                  : list (ImageComponents * option Node)) :
  stageRoD node args outputPlanes w = Continue (rs, w1) ->
  stageIdentity (renderRoI depth) node args rs outputPlanes w1 = Some (Continue (sc, w2)) ->
  getComponentsAvailable node (time args) w2 = (componentsAvailables, w3) ->
  splitPlanes node (components args) componentsAvailables w3 [] []
  = ([], componentsToFetchUpstream) ->
  fetchUpstream (renderRoI depth) args componentsToFetchUpstream outputPlanes w3
  = Some (Continue (outputPlanes', w4)) ->
  renderRoI (S depth) node args outputPlanes w
  = Some (Returned eRenderRoIRetCodeFailed outputPlanes' w4)
  /\ exists fetched : list Image,
       outputPlanes' = outputPlanes ++ fetched
       /\ length fetched = length (omap snd componentsToFetchUpstream).
Proof.
  intros Hrod Hid Hav Hsplit Hfetch. split.
  - rewrite renderRoI_S. unfold renderRoI_body. rewrite Hrod, Hid. simpl.
    unfold renderOwnPlanes, stagePassThrough. rewrite Hav, Hsplit, Hfetch. done.
  - by eapply fetchUpstream_appends.
Qed.


End RenderProperties.

(** * The scene *)
Section SceneRuns.
Import CacheLookup Render.
Local Open Scope Z_scope.







(** Node 6 of the scene has no region of definition: asked for the colour
    plane of frame 5, it answers ok, with no image, an empty cache and
    nothing rendered. *)
Lemma renderRoI_without_rod_witness :
  Scene.summary (renderRoI 1 6%N Scene.requestFrame5 [] Scene.emptyWorld)
  = Some (eRenderRoIRetCodeOk, [], [], []).
Proof.
  erewrite (@renderRoI_without_rod _ _ _ Scene.sceneRender 0 6%N Scene.requestFrame5 []
              Scene.emptyWorld); cycle 1.
  - discriminate.
  - reflexivity.
  - lazy. reflexivity.
  - left. reflexivity.
  - reflexivity.
Defined.


(** Node 3 of the scene is identity to itself at the time asked for, and
    fails; node 2 is identity to itself at frame 1, and answers frame 5 with
    its image of frame 1. *)
Lemma renderRoI_identity_to_itself_witness :
  Scene.summary (renderRoI 1 3%N Scene.requestFrame5 [] Scene.emptyWorld)
  = Some (eRenderRoIRetCodeFailed, [], [], [])
  /\ Scene.summary (renderRoI 2 2%N Scene.requestFrame5 [] Scene.emptyWorld)
     = Some (eRenderRoIRetCodeOk, [(102%N, 1)], [102%N], [2%N]).
Proof.
  split.
  - edestruct (@renderRoI_identity_to_itself _ _ _ Scene.sceneRender 0 3%N Scene.requestFrame5 [] Scene.emptyWorld)
      as [Hsame _].
    + lazy. reflexivity.
    + lazy. reflexivity.
    + rewrite Hsame; reflexivity.
  - edestruct (@renderRoI_identity_to_itself _ _ _ Scene.sceneRender 1 2%N Scene.requestFrame5 [] Scene.emptyWorld)
      as [_ Hother].
    + lazy. reflexivity.
    + lazy. reflexivity.
    + rewrite Hother; [vm_compute; reflexivity | discriminate].
Defined.

(** Node 5 of the scene passes the colour plane of node 0 through and
    produces nothing itself: the call fails, with the image of node 0
    fetched, rendered and in the output list. *)
Lemma renderRoI_only_pass_through_witness :
  Scene.summary (renderRoI 2 5%N Scene.requestFrame5 [] Scene.emptyWorld)
  = Some (eRenderRoIRetCodeFailed, [(100%N, 5)], [100%N], [0%N]).
Proof.
  edestruct (@renderRoI_only_pass_through _ _ _ Scene.sceneRender 1 5%N Scene.requestFrame5 [])
    with (w := Scene.emptyWorld) as [Hret _].
  - lazy. reflexivity.
  - lazy. reflexivity.
  - lazy. reflexivity.
  - lazy. reflexivity.
  - lazy. reflexivity.
  - rewrite Hret. reflexivity.
Defined.


End SceneRuns.

(** * Further properties of the code above *)

Section ActionsCacheWrites.
Import Actions.
Local Open Scope Z_scope.

(** X1.  Identity verdicts and the time domain are overwritten: the value
    read back under the cache's hash is the one written last (a region of
    definition, by contrast, keeps its first value).  Writing a verdict
    leaves the hash, the verdicts of the other keys, the regions of
    definition and the time domain as they were. *)
Theorem ActionsCache_last_write (c : ActionsCache) (t v : Z) (m : N)
    (nb it nb' it' first last first' last' : Z) :
  let c1 := setIdentityResult t v m nb it c in
  let c2 := setIdentityResult t v m nb' it' c1 in
  getIdentityResult (_cacheHash c) t v m c1 = Some (nb, it)
  /\ getIdentityResult (_cacheHash c) t v m c2 = Some (nb', it')
  /\ getTimeDomainResult (_cacheHash c)
       (setTimeDomainResult first' last' (setTimeDomainResult first last c))
     = Some (first', last')
  /\ _cacheHash c1 = _cacheHash c
  /\ (forall hash t0 v0 m0, mkActionKey t0 v0 m0 <> mkActionKey t v m ->
        getIdentityResult hash t0 v0 m0 c1 = getIdentityResult hash t0 v0 m0 c)
  /\ (forall hash t0 v0 m0,
        getRoDResult hash t0 v0 m0 c1 = getRoDResult hash t0 v0 m0 c)
  /\ (forall hash, getTimeDomainResult hash c1 = getTimeDomainResult hash c).
Proof.
  intros c1 c2. subst c1 c2.
  unfold getIdentityResult, getRoDResult, getTimeDomainResult, setIdentityResult,
    setTimeDomainResult; simpl.
  rewrite N.eqb_refl; simpl. rewrite !lookup_insert_eq.
  repeat split; try done.
  intros hash t0 v0 m0 Hne. destruct (negb _); [done |].
  by rewrite lookup_insert_ne.
Qed.
End ActionsCacheWrites.

Section HeuristicResult.
Import Heuristic.
Local Open Scope Z_scope.

Lemma isNull_false (r : RectD.t) :
  RectD.isNull r = false <-> RectD.x1 r < RectD.x2 r /\ RectD.y1 r < RectD.y2 r.
Proof. unfold RectD.isNull. rewrite orb_false_iff, !Z.leb_gt. done. Qed.

Lemma anyInfinite_false (e : Env) (r : RectD.t) :
  anyInfinite e r = false
  <-> kOfxFlagInfiniteMin e < RectD.x1 r /\ kOfxFlagInfiniteMin e < RectD.y1 r
      /\ RectD.x2 r < kOfxFlagInfiniteMax e /\ RectD.y2 r < kOfxFlagInfiniteMax e.
Proof.
  unfold anyInfinite, x1Infinite, y1Infinite, x2Infinite, y2Infinite.
  rewrite !orb_false_iff, !Z.leb_gt. tauto.
Qed.

(** X2.  What the heuristic guarantees of the rectangle it leaves.  A
    rectangle with no infinite side is returned as it is, with the answer
    false.  A well-formed rectangle ([x1 <= x2], [y1 <= y2]) stays well
    formed: the assertion that ends the function holds.  And when the
    project default is not empty and has no infinite side, and the union of
    the inputs is empty or has no infinite side, no side of the result is
    infinite. *)
Theorem ifInfiniteApplyHeuristic_result (e : Env) (rod : RectD.t) :
  let r := (ifInfiniteApplyHeuristic e rod).2 in
  (anyInfinite e rod = false -> ifInfiniteApplyHeuristic e rod = (false, rod))
  /\ (RectD.x1 rod <= RectD.x2 rod -> RectD.y1 rod <= RectD.y2 rod ->
        RectD.x1 r <= RectD.x2 r /\ RectD.y1 r <= RectD.y2 r)
  /\ (RectD.isNull (projectDefault e) = false ->
      anyInfinite e (projectDefault e) = false ->
      (RectD.isNull (inputsUnion e rod) = false ->
         anyInfinite e (inputsUnion e rod) = false) ->
      anyInfinite e r = false).
Proof.
  intros r. split; [| split].
  - unfold anyInfinite. rewrite !orb_false_iff. intros [[[H1 H2] H3] H4].
    unfold ifInfiniteApplyHeuristic. rewrite H1, H2, H3, H4. by destruct (isGenerator e).
  - intros Hx Hy. subst r. rewrite ifInfiniteApplyHeuristic_sides. simpl.
    unfold clipLow, clipHigh.
    destruct (x1Infinite e rod), (y1Infinite e rod), (x2Infinite e rod), (y2Infinite e rod),
      (RectD.isNull (inputsUnion e rod)); simpl; lia.
  - intros HPn HPf HU. subst r. rewrite ifInfiniteApplyHeuristic_sides.
    apply isNull_false in HPn. apply anyInfinite_false in HPf.
    apply anyInfinite_false. simpl. unfold clipLow, clipHigh.
    destruct (RectD.isNull (inputsUnion e rod)) eqn:HUn.
    + destruct (x1Infinite e rod) eqn:H1, (y1Infinite e rod) eqn:H2,
        (x2Infinite e rod) eqn:H3, (y2Infinite e rod) eqn:H4;
        unfold x1Infinite, y1Infinite, x2Infinite, y2Infinite in *;
        rewrite ?Z.leb_gt in *; lia.
    + specialize (HU eq_refl). apply anyInfinite_false in HU.
      apply isNull_false in HUn.
      destruct (x1Infinite e rod) eqn:H1, (y1Infinite e rod) eqn:H2,
        (x2Infinite e rod) eqn:H3, (y2Infinite e rod) eqn:H4;
        unfold x1Infinite, y1Infinite, x2Infinite, y2Infinite in *;
        rewrite ?Z.leb_gt in *; lia.
Qed.

(** The scene of C6: the region unbounded on the left comes out well formed
    and with no infinite side. *)
Lemma ifInfiniteApplyHeuristic_result_witness :
  anyInfinite sceneEnv sceneRoD = true
  /\ anyInfinite sceneEnv (ifInfiniteApplyHeuristic sceneEnv sceneRoD).2 = false
  /\ RectD.x1 (ifInfiniteApplyHeuristic sceneEnv sceneRoD).2
     <= RectD.x2 (ifInfiniteApplyHeuristic sceneEnv sceneRoD).2.
Proof.
  destruct (ifInfiniteApplyHeuristic_result sceneEnv sceneRoD) as (_ & Hwf & Hfin).
  split; [reflexivity |]. split.
  - apply Hfin; reflexivity.
  - apply Hwf; vm_compute; discriminate.
Defined.

(** X3.  The heuristic answers "this is the project format" exactly when
    the effect is a generator, some side of its region is infinite and the
    union of the inputs (which starts from the effect's default region) is
    empty: the sides were then taken from the project default alone. *)
Theorem ifInfiniteApplyHeuristic_project_format (e : Env) (rod : RectD.t) :
  (ifInfiniteApplyHeuristic e rod).1 = true
  <-> isGenerator e = true /\ anyInfinite e rod = true
      /\ RectD.isNull (inputsUnion e rod) = true.
Proof.
  unfold ifInfiniteApplyHeuristic, anyInfinite.
  destruct (x1Infinite e rod), (y1Infinite e rod), (x2Infinite e rod), (y2Infinite e rod),
    (RectD.isNull (inputsUnion e rod)), (isGenerator e); simpl; split;
    try discriminate; try tauto; intros (? & ? & ?); discriminate.
Qed.
End HeuristicResult.

Section CacheLookupPreferences.
Import CacheLookup.
Context `{ImageTypes} {W : Type} `{!CacheOps W}.
Local Open Scope Z_scope.

(** An image the loop does not throw out has the bit depth the node
    prefers, the components the node prefers when both are colour planes,
    and, when its region is a project format, the format of the project. *)
Lemma examine_kept (rq : Request) (it : Image) (w : W) :
  examine rq it w <> Evicted ->
  getBitDepth it = nodePrefDepth rq
  /\ (isColorPlane (getComponents it) = true -> isColorPlane (nodePrefComps rq) = true ->
      getComponents it = nodePrefComps rq)
  /\ (isRodProjectFormat it = true -> canonicalProjectFormat w = getRoD it).
Proof.
  unfold examine. intros Hne.
  destruct (isRodProjectFormat it && _) eqn:Hstale; [done |].
  destruct (_ || _) eqn:Hpref; [done |].
  apply orb_false_iff in Hpref as [Hc Hd].
  apply negb_false_iff, bool_decide_eq_true in Hd.
  split; [done |]. split.
  - intros Hi Hn. rewrite Hi, Hn in Hc. simpl in Hc.
    by apply negb_false_iff, bool_decide_eq_true in Hc.
  - intros Hpf. rewrite Hpf in Hstale. simpl in Hstale.
    by apply negb_false_iff, bool_decide_eq_true in Hstale.
Qed.

(** The state the loop leaves is the state it started in with the images it
    threw out removed from the cache, in the order it met them. *)
Lemma lookupLoop_evicts (rq : Request) (cachedImages : list Image) :
  forall (w : W) (image imageToConvert : option Image) w' image' imageToConvert',
  lookupLoop rq cachedImages w image imageToConvert = (w', image', imageToConvert') ->
  exists evicted : list Image,
    w' = fold_left (fun w i => removeFromNodeCache i w) evicted w
    /\ forall i, In i evicted -> In i cachedImages /\ exists w0, examine rq i w0 = Evicted.
Proof.
  induction cachedImages as [| it rest IH]; intros w image conv w' image' conv' Hl; simpl in Hl.
  - injection Hl as <- <- <-. exists []. done.
  - destruct (examine rq it w) eqn:He.
    + apply IH in Hl as (evicted & -> & Hev). exists (it :: evicted). split; [done |].
      intros i [<- | Hi]; [split; [by left | by exists w] |].
      destruct (Hev i Hi) as [Hin Hw]. split; [by right | done].
    + injection Hl as <- <- <-. exists []. done.
    + apply IH in Hl as (evicted & -> & Hev). exists evicted. split; [done |].
      intros i Hi. destruct (Hev i Hi) as [Hin Hw]. split; [by right | done].
    + apply IH in Hl as (evicted & -> & Hev). exists evicted. split; [done |].
      intros i Hi. destruct (Hev i Hi) as [Hin Hw]. split; [by right | done].
Qed.

(** X4.  The cache look-up honours what the node prefers now.  The image the
    loop selects, as the match or as the source to downscale from, is one of
    the cached images, has the bit depth the node prefers and, when it and
    the node's preferred components are colour planes, exactly these
    components.  The only change the loop makes to the state is to remove
    from the cache images it judged stale (a project-format region that is
    no longer the project's, components or a bit depth the node no longer
    prefers), each of them one of the cached images. *)
Theorem cache_lookup_honours_preferences (rq : Request) (cachedImages : list Image)
    (w w' : W) (image imageToConvert : option Image) :
  lookupLoop rq cachedImages w None None = (w', image, imageToConvert) ->
  (forall p, image = Some p \/ imageToConvert = Some p ->
     In p cachedImages
     /\ getBitDepth p = nodePrefDepth rq
     /\ (isColorPlane (getComponents p) = true -> isColorPlane (nodePrefComps rq) = true ->
         getComponents p = nodePrefComps rq))
  /\ exists evicted : list Image,
       w' = fold_left (fun w i => removeFromNodeCache i w) evicted w
       /\ forall i, In i evicted ->
            In i cachedImages
            /\ ((exists w0, isRodProjectFormat i = true
                            /\ canonicalProjectFormat w0 <> getRoD i)
                \/ (isColorPlane (getComponents i) = true
                    /\ isColorPlane (nodePrefComps rq) = true
                    /\ getComponents i <> nodePrefComps rq)
                \/ getBitDepth i <> nodePrefDepth rq).
Proof.
  intros Hl. split.
  - intros p Hp. apply lookupLoop_selects in Hl as [Hi Hc].
    assert (exists w0, In p cachedImages /\ examine rq p w0 <> Evicted) as (w0 & Hin & Hne).
    { destruct Hp as [-> | ->].
      - destruct Hi as [Hi | (p' & w0 & [= <-] & Hin & He)]; [done |].
        exists w0. split; [done |]. by rewrite He.
      - destruct Hc as [Hc | (p' & w0 & [= <-] & Hin & He)]; [done |].
        exists w0. split; [done |]. by rewrite He. }
    apply examine_kept in Hne as (Hd & Hc' & _). done.
  - apply lookupLoop_evicts in Hl as (evicted & -> & Hev). exists evicted.
    split; [done |]. intros i Hi. destruct (Hev i Hi) as [Hin [w0 He]].
    split; [done |]. unfold examine in He.
    destruct (isRodProjectFormat i && _) eqn:Hstale.
    + left. exists w0. apply andb_true_iff in Hstale as [Hpf Hne].
      split; [done |]. apply negb_true_iff, bool_decide_eq_false in Hne. done.
    + destruct (_ || _) eqn:Hpref; [| repeat case_match; discriminate].
      right. apply orb_true_iff in Hpref as [Hc | Hd].
      * left. apply andb_true_iff in Hc as [Hc Hne]. apply andb_true_iff in Hc as [Hc1 Hc2].
        apply negb_true_iff, bool_decide_eq_false in Hne. done.
      * right. by apply negb_true_iff, bool_decide_eq_false in Hd.
Qed.
End CacheLookupPreferences.

(** In the scene of C2 the node prefers float pixels: the 8-bit image is
    thrown out of the cache and the float one is kept, as the source to
    downscale from. *)
Lemma cache_lookup_honours_preferences_witness :
  CacheLookup.lookupLoop Scene.requestA (Scene.cache Scene.worldA) Scene.worldA None None
  = (Scene.evict Scene.imgByte1 Scene.worldA, None, Some Scene.imgFloat0)
  /\ CacheLookup.getBitDepth Scene.imgFloat0 = CacheLookup.nodePrefDepth Scene.requestA.
Proof.
  assert (CacheLookup.lookupLoop Scene.requestA (Scene.cache Scene.worldA) Scene.worldA
            None None
          = (Scene.evict Scene.imgByte1 Scene.worldA, None, Some Scene.imgFloat0)) as Hrun
    by reflexivity.
  split; [exact Hrun |].
  destruct (cache_lookup_honours_preferences _ _ _ _ _ _ Hrun) as [Hsel _].
  destruct (Hsel Scene.imgFloat0) as (_ & Hd & _); [by right | exact Hd].
Defined.

Section TileOutcomes.
Import CacheLookup Tile TileResult.
Context `{ImageTypes} {X : Type} `{!TileOps X}.
Local Open Scope Z_scope.

Lemma bitmaps_markForRendered (i : Image) (r : RectI.t) (w : World X) (p : N) (x y : Z) :
  bitmaps (markForRendered i r w) p x y
  = if (p =? ptr i)%N && RectI.covers r x y then Rendered else bitmaps w p x y.
Proof.
  unfold markForRendered, setBitmap, fill. simpl.
  destruct (p =? ptr i)%N; [| done]. by destruct (RectI.covers r x y).
Qed.


Lemma renderStatusOfAll_ok (rets : list RenderingFunctorRetEnum) (st : StatusEnum) :
  Forall (fun r => r = eRenderingFunctorRetOK \/ r = eRenderingFunctorRetTakeImageLock) rets ->
  renderStatusOfAll rets st = st.
Proof.
  induction 1 as [| r rets [-> | ->] _ IH]; simpl; auto.
Qed.


(** The committing loop: with no null image pointer it runs to its end; it
    changes bitmaps only by marking cells of the two tile rectangles as
    rendered, and leaves the cells of every plane's target rendered. *)
Lemma storePlanes_marks (fs so : bool) (mipMapLevel : N) (rr dr : RectI.t)
    (planes : PlaneMap) :
  forall w : World X,
  Forall (fun cp => allocated cp.2) planes ->
  exists w',
    storePlanes fs so mipMapLevel rr dr planes w = Some w'
    /\ renderArgs w' = renderArgs w
    /\ (forall i x y, bitmaps w' i x y = bitmaps w i x y
          \/ (bitmaps w' i x y = Rendered
              /\ (RectI.covers rr x y = true \/ RectI.covers dr x y = true)))
    /\ (forall i x y, bitmaps w i x y = Rendered -> bitmaps w' i x y = Rendered)
    /\ (forall c pl t r x y, In (c, pl) planes ->
          committed fs so mipMapLevel rr dr pl = (Some t, r) ->
          RectI.covers r x y = true -> bitmaps w' (ptr t) x y = Rendered).
Proof.
  induction planes as [| [c pl] rest IH]; intros w Hall.
  - exists w. simpl. repeat split; auto. intros; done.
  - inversion_clear Hall as [| cp0 l0 Hpl Hrest]. simpl in Hpl.
    destruct Hpl as ([fsi Hfs] & [ds Hds] & [rm Hrm] & [tmp Htmp]).
    assert (exists (t : Image) (r : RectI.t) (w1 : World X),
              committed fs so mipMapLevel rr dr pl = (Some t, r)
              /\ (r = rr \/ r = dr)
              /\ bitmaps w1 = bitmaps (markForRendered t r w)
              /\ renderArgs w1 = renderArgs w
              /\ storePlanes fs so mipMapLevel rr dr ((c, pl) :: rest) w
                 = storePlanes fs so mipMapLevel rr dr rest w1)
      as (t & r & w1 & Hcom & Hr & Hb & Hra & Hstep).
    { unfold committed. simpl. rewrite Htmp, Hrm, Hds, Hfs. simpl.
      destruct (isAllocatedOnTheFly pl).
      - eexists rm, rr, _. split; [done |]. split; [by left |].
        split; [| split; [| reflexivity]]; by destruct (negb _).
      - destruct fs.
        + destruct (negb (mipMapLevel =? 0)%N && negb so).
          * eexists ds, dr, _. split; [done |]. split; [by right |].
            split; [| split; [| reflexivity]]; done.
          * eexists fsi, rr, _. split; [done |]. split; [by left |].
            split; [| split; [| reflexivity]]; by destruct (negb _).
        + eexists ds, dr, _. split; [done |]. split; [by right |].
          split; [| split; [| reflexivity]]; by destruct (negb _). }
    destruct (IH w1 Hrest) as (w' & Hrun & Hra' & Hframe & Hmono & Hin).
    exists w'. rewrite Hstep. split; [done |]. split; [congruence |].
    assert (forall i x y, bitmaps w1 i x y
              = if (i =? ptr t)%N && RectI.covers r x y then Rendered else bitmaps w i x y)
      as Hw1 by (intros; rewrite Hb; apply bitmaps_markForRendered).
    split; [| split].
    + intros i x y. destruct (Hframe i x y) as [Heq | Hm]; [| by right].
      rewrite Heq, Hw1. destruct ((i =? ptr t)%N && RectI.covers r x y) eqn:Hc; [| by left].
      right. split; [done |].
      apply andb_true_iff in Hc as [_ Hc]. destruct Hr as [-> | ->]; auto.
    + intros i x y Hren. apply Hmono. rewrite Hw1. by destruct (_ && _).
    + intros c' pl' t' r' x y [[= <- <-] | Hin'] Hcom' Hcov.
      * rewrite Hcom in Hcom'. injection Hcom' as <- <-.
        apply Hmono. rewrite Hw1. by rewrite N.eqb_refl, Hcov.
      * by eapply Hin.
Qed.

(** X6.  When the plug-in has rendered the tile and the render is not
    aborted, the worker returns OK (or "take the image lock" when part of
    the tile is being rendered by another thread), which leaves the status
    of the frame OK.  For every output plane the cells of the tile are then
    marked as rendered on the image the plane is committed to, and the
    worker changes no cell of any bitmap other than by marking a cell of
    the tile as rendered. *)
Theorem tile_render_ok (args : RenderArgs) (frameArgs : ParallelRenderArgs)
    (inputImages : list Image) (frameTLS : list FrameTLSEntry)
    (fs so isSequentialRender isRRTUI : bool) (downscaledRectToRender : RectI.t)
    (par : Z) (planes : PlaneMap) (w w1 w2 w3 : World X) (p : Prepared) :
  prepareTile args frameArgs inputImages frameTLS fs so downscaledRectToRender par
    planes w = Some (inr (p, w1)) ->
  markTile frameArgs fs so downscaledRectToRender p w1 = Some w2 ->
  render_public (_time args) (getMipMapLevel (firstDown p)) (getMipMapLevel (firstMapped p))
    (renderRectToRender p) (_view args) isSequentialRender isRRTUI (tmpPlanes p) w2
  = (eStatusOK, w3) ->
  aborted w3 = false ->
  Forall (fun cp => allocated cp.2) (_outputPlanes (renderArgs w3)) ->
  let ret := if isBeingRenderedElseWhere p then eRenderingFunctorRetTakeImageLock
             else eRenderingFunctorRetOK in
  exists w' : World X,
    tiledRenderingFunctor args frameArgs inputImages frameTLS fs so isSequentialRender
      isRRTUI downscaledRectToRender par planes w
    = Some (ret, w')
    /\ renderStatusOf ret = eStatusOK
    /\ (forall c pl t r x y, In (c, pl) (_outputPlanes (renderArgs w3)) ->
          committed fs so (getMipMapLevel (firstDown p)) (renderRectToRender p)
            downscaledRectToRender pl = (Some t, r) ->
          RectI.covers r x y = true -> bitmaps w' (ptr t) x y = Rendered)
    /\ (forall i x y, bitmaps w' i x y = bitmaps w3 i x y
          \/ (bitmaps w' i x y = Rendered
              /\ (RectI.covers (renderRectToRender p) x y = true
                  \/ RectI.covers downscaledRectToRender x y = true))).
Proof.
  intros Hprep Hmark Hrender Hab Hall ret.
  destruct (storePlanes_marks fs so (getMipMapLevel (firstDown p)) (renderRectToRender p)
              downscaledRectToRender (_outputPlanes (renderArgs w3)) w3 Hall)
    as (w4 & Hrun & _ & Hframe & _ & Hin).
  exists (leaveScopes p inputImages frameTLS w4).
  unfold tiledRenderingFunctor. rewrite Hprep. simpl. rewrite Hmark. simpl.
  rewrite Hrender. unfold finishTile. rewrite Hab. simpl. rewrite Hrun. simpl.
  split; [done |]. split; [subst ret; by destruct (isBeingRenderedElseWhere p) |].
  split.
  - intros c pl t r x y Hpl Hcom Hcov. rewrite bitmaps_leaveScopes. by eapply Hin.
  - intros i x y. rewrite bitmaps_leaveScopes. apply Hframe.
Qed.
End TileOutcomes.


(** The same tile on a frame of a playback, rendered and not aborted: the
    worker answers OK and the cell (5, 5), unrendered before, is rendered. *)
Lemma tile_render_ok_witness :
  Tile.bitmaps (Studio.tileWorld eStatusOK false) 2 5%Z 5%Z = Tile.Unrendered
  /\ Studio.answerAndCell 2 5%Z 5%Z
       (Tile.tiledRenderingFunctor Scene.tileArgs Scene.playbackFrame [] [] false false
          true false Scene.tileRect 1%Z Scene.planesA (Studio.tileWorld eStatusOK false))
     = Some (Tile.eRenderingFunctorRetOK, Tile.Rendered).
Proof.
  split; [reflexivity |].
  edestruct (tile_render_ok Scene.tileArgs Scene.playbackFrame [] [] false false
               true false Scene.tileRect 1%Z Scene.planesA (Studio.tileWorld eStatusOK false))
    as (w' & Hrun & _ & Hin & _).
  - lazy. reflexivity.
  - lazy. reflexivity.
  - lazy. reflexivity.
  - reflexivity.
  - repeat constructor; by eexists.
  - rewrite Hrun. unfold Studio.answerAndCell. simpl. do 2 f_equal.
    eapply (Hin _ _ Scene.imgFloat0 Scene.tileRect 5%Z 5%Z).
    + left. reflexivity.
    + reflexivity.
    + reflexivity.
Defined.

Section RenderEdges.
Import CacheLookup Render.
Context `{ImageTypes} {W : Type} `{!CacheOps W} `{!RenderOps W}.
Local Open Scope Z_scope.

(** X7.  An identity that cannot be followed makes the call fail, with the
    output list untouched and no nested call: when [isIdentity] throws,
    when the effect is identity to input -1 (none), and when it is identity
    to an input [i >= 0] that is not connected (the render arguments set
    for that input are released first). *)
Theorem renderRoI_identity_not_followed (depth : nat) (node : Node)
    (args : RenderRoIArgs) (outputPlanes : list Image) (w w1 w2 : W) (rs : RoDStage) :
  stageRoD node args outputPlanes w = Continue (rs, w1) ->
  let verdict :=
    isIdentity_public node (r_nodeHash rs) (time args)
      (renderMappedMipMapLevel (r_scale rs)) (r_rod rs) (r_par rs) (view args) w1 in
  (verdict = (None, w2) ->
     renderRoI (S depth) node args outputPlanes w
     = Some (Returned eRenderRoIRetCodeFailed outputPlanes w2))
  /\ (forall inputTimeIdentity,
        verdict = (Some (true, inputTimeIdentity, -1), w2) ->
        renderRoI (S depth) node args outputPlanes w
        = Some (Returned eRenderRoIRetCodeFailed outputPlanes w2))
  /\ (forall inputTimeIdentity inputNbIdentity,
        verdict = (Some (true, inputTimeIdentity, inputNbIdentity), w2) ->
        0 <= inputNbIdentity ->
        let scope :=
          enterIdentityScope node args rs true inputTimeIdentity inputNbIdentity w2 in
        getInput node inputNbIdentity scope = None ->
        renderRoI (S depth) node args outputPlanes w
        = Some (Returned eRenderRoIRetCodeFailed outputPlanes
                  (ScopedRenderArgs_leave node scope))).
Proof.
  intros Hrod verdict. subst verdict. split; [| split].
  - intros Hid. rewrite renderRoI_S. unfold renderRoI_body. rewrite Hrod.
    unfold stageIdentity. by rewrite Hid.
  - intros t' Hid. rewrite renderRoI_S. unfold renderRoI_body. rewrite Hrod.
    unfold stageIdentity. by rewrite Hid.
  - intros t' nb Hid Hnb scope Hin. rewrite renderRoI_S. unfold renderRoI_body.
    rewrite Hrod. unfold stageIdentity. rewrite Hid.
    assert ((nb =? -1) = false) as -> by (apply Z.eqb_neq; lia).
    assert ((nb =? -2) = false) as -> by (apply Z.eqb_neq; lia).
    simpl. fold scope. by rewrite Hin.
Qed.

(** The fetch stops at the first producer that does not hand a plane over. *)
Lemma fetchUpstream_stops (self : Self) (args : RenderRoIArgs)
    (pre : list (ImageComponents * option Node)) (plane : ImageComponents)
    (producer : Node) (post : list (ImageComponents * option Node)) :
  forall (outputPlanes outputPlanes' : list Image) (w w' w'' : W)
         (code : RenderRoIRetCode) (planes : list Image),
  fetchUpstream self args pre outputPlanes w = Some (Continue (outputPlanes', w')) ->
  self producer (withComponents [plane] args) [] w' = Some (Returned code planes w'') ->
  code <> eRenderRoIRetCodeOk \/ planes = [] ->
  fetchUpstream self args (pre ++ (plane, Some producer) :: post) outputPlanes w
  = Some (Exit (Returned code outputPlanes' w'')).
Proof.
  induction pre as [| [c [n |]] pre IH]; intros out out' w w' w'' code planes Hpre Hself Hbad;
    simpl in *.
  - injection Hpre as <- <-. rewrite Hself. simpl.
    destruct Hbad as [Hbad | ->]; by destruct code.
  - destruct (self n (withComponents [c] args) [] w) as [[code0 planes0 w0 | ? ? |] |];
      simpl in *; try done.
    destruct code0, planes0 as [| front planes0]; try done. by eapply IH.
  - by eapply IH.
Qed.

(** X8.  When a producer upstream of a pass-through plane answers a code
    other than ok, or answers ok without an image, the call stops there and
    returns that very code, with the planes fetched before it in the output
    list: a producer that answers ok with nothing makes the call return ok
    with the plane missing. *)
Theorem renderRoI_upstream_failure (depth : nat) (node producer : Node)
    (args : RenderRoIArgs) (outputPlanes outputPlanes' planes : list Image)
    (w w1 w2 w3 w4 w5 : W) (rs : RoDStage) (sc : Scale)
    (componentsAvailables pre post : list (ImageComponents * option Node))
    (requestedComponents : list ImageComponents) (plane : ImageComponents)
    (code : RenderRoIRetCode) :
  stageRoD node args outputPlanes w = Continue (rs, w1) ->
  stageIdentity (renderRoI depth) node args rs outputPlanes w1 = Some (Continue (sc, w2)) ->
  getComponentsAvailable node (time args) w2 = (componentsAvailables, w3) ->
  splitPlanes node (components args) componentsAvailables w3 [] []
  = (requestedComponents, pre ++ (plane, Some producer) :: post) ->
  fetchUpstream (renderRoI depth) args pre outputPlanes w3
  = Some (Continue (outputPlanes', w4)) ->
  renderRoI depth producer (withComponents [plane] args) [] w4
  = Some (Returned code planes w5) ->
  code <> eRenderRoIRetCodeOk \/ planes = [] ->
  renderRoI (S depth) node args outputPlanes w = Some (Returned code outputPlanes' w5).
Proof.
  intros Hrod Hid Hav Hsplit Hpre Hprod Hbad.
  rewrite renderRoI_S. unfold renderRoI_body. rewrite Hrod, Hid. simpl.
  unfold renderOwnPlanes, stagePassThrough. rewrite Hav, Hsplit.
  by rewrite (fetchUpstream_stops _ _ _ _ _ _ _ _ _ _ _ _ _ Hpre Hprod Hbad).
Qed.

Lemma stdmap_insert_In {K V : Type} (lt : K -> K -> bool) (k : K) (v : V)
    (m : list (K * V)) (e : K * V) :
  In e (stdmap_insert lt k v m) -> e = (k, v) \/ In e m.
Proof.
  induction m as [| [k' v'] m IH]; simpl.
  - intros [<- | []]. by left.
  - destruct (lt k k'); [simpl; intuition |].
    destruct (lt k' k); [| simpl; intuition].
    simpl. intros [<- | Hin]; [right; by left |]. destruct (IH Hin); auto.
Qed.

(** The split with its accumulators. *)
Lemma splitPlanes_acc (node : Node) (componentsAvailables : list (ImageComponents * option Node))
    (w : W) (requested : list ImageComponents) :
  forall own0 up0 own up,
  splitPlanes node requested componentsAvailables w own0 up0 = (own, up) ->
  own = own0
        ++ List.filter (fun it => match findAvailable node it componentsAvailables w with
                                  | Some found => bool_decide (found.2 = Some node)
                                  | None => false
                                  end) requested
  /\ forall plane producer, In (plane, producer) up ->
       In (plane, producer) up0
       \/ (In plane requested /\ producer <> Some node
           /\ exists found, findAvailable node plane componentsAvailables w = Some found
                            /\ found.2 = producer).
Proof.
  induction requested as [| it rest IH]; intros own0 up0 own up Hs; simpl in Hs.
  - injection Hs as <- <-. rewrite app_nil_r. auto.
  - simpl. destruct (findAvailable node it componentsAvailables w) as [found |] eqn:Hf.
    + destruct (bool_decide (found.2 = Some node)) eqn:Hme.
      * apply IH in Hs as [-> Hup]. rewrite <- app_assoc. split; [done |].
        intros plane producer Hin. destruct (Hup _ _ Hin) as [? | (Hr & Hne & Hfound)]; auto.
      * apply IH in Hs as [-> Hup]. split; [done |].
        intros plane producer Hin. destruct (Hup _ _ Hin) as [Hin0 | (Hr & Hne & Hfound)].
        -- apply stdmap_insert_In in Hin0 as [[= -> ->] | Hin0]; [| by left].
           right. split; [by left |]. apply bool_decide_eq_false in Hme.
           split; [done |]. by exists found.
        -- right. auto.
    + apply IH in Hs as [-> Hup]. split; [done |].
      intros plane producer Hin. destruct (Hup _ _ Hin) as [? | (Hr & Hne & Hfound)]; auto.
Qed.

(** X9.  How the requested planes are split.  The planes the node renders
    itself are, in the order of the request, those whose entry among the
    available planes names the node; every plane fetched upstream is a
    requested plane whose entry names another producer (or none); and a
    requested plane with no entry among the available planes is dropped: it
    is neither rendered nor fetched. *)
Theorem splitPlanes_partition (node : Node) (requested : list ImageComponents)
    (componentsAvailables : list (ImageComponents * option Node)) (w : W)
    (own : list ImageComponents) (up : list (ImageComponents * option Node)) :
  splitPlanes node requested componentsAvailables w [] [] = (own, up) ->
  own = List.filter (fun it => match findAvailable node it componentsAvailables w with
                               | Some found => bool_decide (found.2 = Some node)
                               | None => false
                               end) requested
  /\ (forall plane producer, In (plane, producer) up ->
        In plane requested /\ producer <> Some node
        /\ exists found, findAvailable node plane componentsAvailables w = Some found
                         /\ found.2 = producer)
  /\ (forall plane, findAvailable node plane componentsAvailables w = None ->
        ~ In plane own /\ forall producer, ~ In (plane, producer) up).
Proof.
  intros Hs. apply splitPlanes_acc in Hs as [Hown Hup]. simpl in Hown.
  split; [done |]. split.
  - intros plane producer Hin. by destruct (Hup _ _ Hin) as [[] | ?].
  - intros plane Hnone. split.
    + rewrite Hown. intros Hin. apply filter_In in Hin as [_ Hin]. by rewrite Hnone in Hin.
    + intros producer Hin. destruct (Hup _ _ Hin) as [[] | (_ & _ & found & Hf & _)].
      congruence.
Qed.
End RenderEdges.

Section StudioRuns.
Import CacheLookup Render.
Local Open Scope Z_scope.

(** On the second graph: the identity action of node 7 throws, node 8 is
    identity to no input and node 9 to an input that is not connected; the
    three calls fail with nothing returned and nothing rendered. *)
Lemma renderRoI_identity_not_followed_witness :
  Scene.summary (Studio.renderRoI 1 7%N Scene.requestFrame5 [] Scene.emptyWorld)
  = Some (eRenderRoIRetCodeFailed, [], [], [])
  /\ Scene.summary (Studio.renderRoI 1 8%N Scene.requestFrame5 [] Scene.emptyWorld)
     = Some (eRenderRoIRetCodeFailed, [], [], [])
  /\ Scene.summary (Studio.renderRoI 1 9%N Scene.requestFrame5 [] Scene.emptyWorld)
     = Some (eRenderRoIRetCodeFailed, [], [], []).
Proof.
  unfold Studio.renderRoI. split; [| split].
  - edestruct (@renderRoI_identity_not_followed _ _ _ Studio.studioRender 0 7%N
                 Scene.requestFrame5 [] Scene.emptyWorld) as (Hthrow & _).
    + lazy. reflexivity.
    + erewrite Hthrow; cycle 1; [lazy; reflexivity | reflexivity].
  - edestruct (@renderRoI_identity_not_followed _ _ _ Studio.studioRender 0 8%N
                 Scene.requestFrame5 [] Scene.emptyWorld) as (_ & Hnone & _).
    + lazy. reflexivity.
    + erewrite Hnone; cycle 1; [lazy; reflexivity | reflexivity].
  - edestruct (@renderRoI_identity_not_followed _ _ _ Studio.studioRender 0 9%N
                 Scene.requestFrame5 [] Scene.emptyWorld) as (_ & _ & Hloose).
    + lazy. reflexivity.
    + erewrite Hloose; cycle 1; [lazy; reflexivity | lia | reflexivity | reflexivity].
Defined.

(** Node 10 passes through the colour plane of node 6, which answers ok
    with no image for lack of a region of definition: the call on node 10
    returns ok with an empty output list. *)
Lemma renderRoI_upstream_failure_witness :
  Scene.summary (Studio.renderRoI 2 10%N Scene.requestFrame5 [] Scene.emptyWorld)
  = Some (eRenderRoIRetCodeOk, [], [], []).
Proof.
  unfold Studio.renderRoI.
  erewrite (@renderRoI_upstream_failure _ _ _ Studio.studioRender 1 10%N 6%N
              Scene.requestFrame5 [] [] _ Scene.emptyWorld _ _ _ _ _ _ _ _ [] []);
    cycle 1.
  - lazy. reflexivity.
  - lazy. reflexivity.
  - lazy. reflexivity.
  - lazy. reflexivity.
  - reflexivity.
  - lazy. reflexivity.
  - right. reflexivity.
  - reflexivity.
Defined.

(** Node 0 of the scene makes one colour plane available.  Asked for RGBA,
    an auxiliary plane and RGB, it renders the two colour planes itself and
    drops the auxiliary plane. *)
Lemma splitPlanes_partition_witness :
  splitPlanes 0%N [Scene.RGBA; Scene.Aux 1; Scene.RGB] [(Scene.RGBA, Some 0%N)]
    Scene.emptyWorld [] []
  = ([Scene.RGBA; Scene.RGB], [])
  /\ ~ In (Scene.Aux 1) [Scene.RGBA; Scene.RGB].
Proof.
  assert (splitPlanes 0%N [Scene.RGBA; Scene.Aux 1; Scene.RGB] [(Scene.RGBA, Some 0%N)]
            Scene.emptyWorld [] []
          = ([Scene.RGBA; Scene.RGB], [])) as Hrun by reflexivity.
  split; [exact Hrun |].
  destruct (splitPlanes_partition _ _ _ _ _ _ Hrun) as (_ & _ & Hdrop).
  apply (Hdrop (Scene.Aux 1)). reflexivity.
Defined.
End StudioRuns.

(** * The action wrappers *)

Section PublicActionsProperties.
Import Actions PublicActions.
Context {X : Type} `{!EffectOps X}.
Local Open Scope Z_scope.

Lemma getIdentityResult_set (c : ActionsCache) (t v : Z) (m : N) (nb it : Z) :
  getIdentityResult (_cacheHash c) t v m (setIdentityResult t v m nb it c) = Some (nb, it).
Proof.
  unfold getIdentityResult, setIdentityResult. simpl.
  rewrite N.eqb_refl. simpl. by rewrite lookup_insert_eq.
Qed.

(** X10.  A verdict of [isIdentity_public] that came neither from the
    actions cache nor from the thread-local render args is remembered: it
    is stored under the hash the cache carries, whatever hash the call was
    made with, and every later call for the same time, view and mipmap
    level under that hash answers from the cache, without calling the
    plug-in, the same input number and time.  The boolean it then returns
    is recomputed from the input number (identity when it is -2 or not
    negative); a verdict "not identity" always carries input -1 and the
    time asked for. *)
Theorem isIdentity_public_remembered (hash : N) (time : Z) (mipMapLevel : N)
    (rod : RectD.t) (par view inputTime0 inputNb0 : Z) (s s' : Effect X)
    (ret : bool) (inputTime inputNb : Z) :
  getIdentityResult hash time view mipMapLevel (actionsCache s) = None ->
  threadLocalArgs s = None ->
  isIdentity_public hash time mipMapLevel rod par view inputTime0 inputNb0 s
  = (Some (ret, inputTime, inputNb), s') ->
  _cacheHash (actionsCache s') = _cacheHash (actionsCache s)
  /\ (ret = false -> inputNb = -1 /\ inputTime = time)
  /\ forall (rod' : RectD.t) (par' inputTime1 inputNb1 : Z),
       isIdentity_public (_cacheHash (actionsCache s)) time mipMapLevel rod' par' view
         inputTime1 inputNb1 s'
       = (Some ((0 <=? inputNb) || (inputNb =? -2), inputTime, inputNb), s').
Proof.
  intros Hmiss Htls. unfold isIdentity_public at 1. rewrite Hmiss, Htls.
  destruct (if isBackground (ext s) && isDiskCacheNode (ext s) then _ else _)
    as [[[[ret0 it0] nb0] |] x] eqn:Hplug; [| done].
  intros Hcall.
  assert (ret = ret0
          /\ (inputTime, inputNb) = (if negb ret0 then (time, -1) else (it0, nb0))
          /\ s' = mkEffect (setIdentityResult time view mipMapLevel inputNb inputTime
                              (actionsCache s)) (renderArgs s) x) as (-> & Hout & ->).
  { destruct (negb ret0); injection Hcall as <- <- <- <-; done. }
  split; [done |]. split.
  - intros ->. simpl in Hout. by injection Hout as -> ->.
  - intros rod' par' it1 nb1. unfold isIdentity_public. simpl.
    by rewrite getIdentityResult_set.
Qed.

(** X11.  A disabled node (outside the background disk-cache case) is
    declared identity to the input its node prefers, at the time asked for,
    and the plug-in is not asked.  The verdict is cached, and the cached
    call answers "identity" only when that input is -2 or not negative: for
    a disabled node with no preferred input (-1) the first call answers
    identity and the following ones answer not identity. *)
Theorem isIdentity_public_disabled (hash : N) (time : Z) (mipMapLevel : N)
    (rod : RectD.t) (par view inputTime0 inputNb0 : Z) (s : Effect X) :
  getIdentityResult hash time view mipMapLevel (actionsCache s) = None ->
  threadLocalArgs s = None ->
  isBackground (ext s) && isDiskCacheNode (ext s) = false ->
  isNodeDisabled (ext s) = true ->
  let preferred := getPreferredInput (ext s) in
  let s' := mkEffect (setIdentityResult time view mipMapLevel preferred time
                        (actionsCache s)) (renderArgs s) (ext s) in
  isIdentity_public hash time mipMapLevel rod par view inputTime0 inputNb0 s
  = (Some (true, time, preferred), s')
  /\ forall (rod' : RectD.t) (par' inputTime1 inputNb1 : Z),
       isIdentity_public (_cacheHash (actionsCache s)) time mipMapLevel rod' par' view
         inputTime1 inputNb1 s'
       = (Some ((0 <=? preferred) || (preferred =? -2), time, preferred), s').
Proof.
  intros Hmiss Htls Hbg Hdis preferred s'. split.
  - unfold isIdentity_public. by rewrite Hmiss, Htls, Hbg, Hdis.
  - intros rod' par' it1 nb1. unfold isIdentity_public. subst s'. simpl.
    by rewrite getIdentityResult_set.
Qed.

Lemma getRoDResult_set_fresh (c : ActionsCache) (hash : N) (t v : Z) (m : N) (rod : RectD.t) :
  getRoDResult hash t v m (setRoDResult t v m rod (invalidateAll hash c)) = Some rod.
Proof.
  unfold getRoDResult, setRoDResult, invalidateAll. simpl. rewrite lookup_empty. simpl.
  rewrite N.eqb_refl. simpl. by rewrite lookup_insert_eq.
Qed.

(** X12.  A failed region-of-definition query is remembered, at the price
    of everything else the cache knew.  When the query is answered by the
    plug-in and it answers a status other than OK and "reply default", or
    an empty rectangle, the wrapper returns that status (failed for an
    empty rectangle), leaves [*isProjectFormat] alone, retags the actions
    cache with the hash of the call and empties it, and stores the empty
    rectangle for the key: under that hash every identity verdict, the time
    domain and the regions of all other keys are forgotten, and the same
    query, once more, fails from the cache without calling the plug-in. *)
Theorem getRegionOfDefinition_public_failure (hash : N) (time : Z) (mipMapLevel : N)
    (view : Z) (rod0 rod1 : RectD.t) (isProjectFormat0 : bool) (s : Effect X)
    (ret : StatusEnum) (x1 : X) :
  isEffectCreated (ext s) = true ->
  getRoDResult hash time view mipMapLevel (actionsCache s) = None ->
  threadLocalArgs s = None ->
  getRegionOfDefinition hash time
    (if bool_decide (supportsRenderScaleMaybe (ext s) = Render.eSupportsNo)
     then 0%N else mipMapLevel) view rod0 (ext s)
  = (ret, rod1, x1) ->
  (ret <> eStatusOK /\ ret <> eStatusReplyDefault) \/ RectD.isNull rod1 = true ->
  let c' := setRoDResult time view mipMapLevel RectD.null
              (invalidateAll hash (actionsCache s)) in
  let s' := mkEffect c' (renderArgs s) x1 in
  exists stat : StatusEnum,
    getRegionOfDefinition_public hash time mipMapLevel view rod0 isProjectFormat0 s
    = (stat, rod1, isProjectFormat0, s')
    /\ stat <> eStatusOK
    /\ _cacheHash c' = hash
    /\ (forall t0 v0 m0, getIdentityResult hash t0 v0 m0 c' = None)
    /\ getTimeDomainResult hash c' = None
    /\ (forall t0 v0 m0, mkActionKey t0 v0 m0 <> mkActionKey time view mipMapLevel ->
          getRoDResult hash t0 v0 m0 c' = None)
    /\ (isEffectCreated x1 = true ->
        forall (rod2 : RectD.t) (isProjectFormat2 : bool),
          getRegionOfDefinition_public hash time mipMapLevel view rod2 isProjectFormat2 s'
          = (eStatusFailed, RectD.null, false, s')).
Proof.
  intros Hcreated Hmiss Htls Hplug Hbad c' s'.
  assert (exists stat,
            getRegionOfDefinition_public hash time mipMapLevel view rod0 isProjectFormat0 s
            = (stat, rod1, isProjectFormat0, s') /\ stat <> eStatusOK) as (stat & Hcall & Hstat).
  { unfold getRegionOfDefinition_public. rewrite Hcreated, Hmiss, Htls, Hplug. simpl.
    destruct (negb (bool_decide (ret = eStatusOK))
              && negb (bool_decide (ret = eStatusReplyDefault))) eqn:Hret.
    - exists ret. split; [done |].
      apply andb_true_iff in Hret as [Hok _].
      by apply negb_true_iff, bool_decide_eq_false in Hok.
    - destruct Hbad as [[Hok Hdef] | Hnull].
      + rewrite !bool_decide_eq_false_2 in Hret by done. done.
      + rewrite Hnull. by exists eStatusFailed. }
  exists stat. split; [done |]. split; [done |].
  assert (_rodCache (invalidateAll hash (actionsCache s))
          !! mkActionKey time view mipMapLevel = None) as Hfree by apply lookup_empty.
  assert (c' = mkActionsCache hash (_timeDomain (actionsCache s)) false ∅
                 (<[mkActionKey time view mipMapLevel := RectD.null]> ∅)) as Hc'.
  { subst c'. unfold setRoDResult. by rewrite Hfree. }
  split; [by rewrite Hc' |]. split; [| split; [| split]].
  - intros t0 v0 m0. rewrite Hc'. unfold getIdentityResult. simpl. rewrite N.eqb_refl.
    simpl. by rewrite lookup_empty.
  - rewrite Hc'. unfold getTimeDomainResult. simpl. by rewrite orb_true_r.
  - intros t0 v0 m0 Hne. rewrite Hc'. unfold getRoDResult. simpl. rewrite N.eqb_refl.
    simpl. rewrite lookup_insert_ne by done. apply lookup_empty.
  - intros Hcreated' rod2 pf2. unfold getRegionOfDefinition_public.
    subst s'. cbn [ext actionsCache]. rewrite Hcreated'. cbn [negb].
    subst c'. by rewrite getRoDResult_set_fresh.
Qed.

(** X13.  A region of definition computed by the plug-in under the hash the
    actions cache carries is remembered: the wrapper returns the plug-in's
    status with the rectangle the heuristic leaves and the heuristic's
    answer for [*isProjectFormat], and the same query, once more, answers
    the same rectangle from the cache without calling the plug-in.  The
    cached answer says OK where the first may have said "reply default",
    says failed when the remembered rectangle is empty, and always says the
    rectangle is not the project format. *)
Theorem getRegionOfDefinition_public_remembered (time : Z) (mipMapLevel : N)
    (view : Z) (rod0 rod1 : RectD.t) (isProjectFormat0 : bool) (s : Effect X)
    (ret : StatusEnum) (x1 : X) :
  let hash := _cacheHash (actionsCache s) in
  isEffectCreated (ext s) = true ->
  getRoDResult hash time view mipMapLevel (actionsCache s) = None ->
  threadLocalArgs s = None ->
  getRegionOfDefinition hash time
    (if bool_decide (supportsRenderScaleMaybe (ext s) = Render.eSupportsNo)
     then 0%N else mipMapLevel) view rod0 (ext s)
  = (ret, rod1, x1) ->
  ret = eStatusOK \/ ret = eStatusReplyDefault ->
  RectD.isNull rod1 = false ->
  let e := (heuristicEnv hash time mipMapLevel view x1).1 in
  let answer := Heuristic.ifInfiniteApplyHeuristic e rod1 in
  exists s' : Effect X,
    getRegionOfDefinition_public hash time mipMapLevel view rod0 isProjectFormat0 s
    = (ret, answer.2, answer.1, s')
    /\ (Heuristic.anyInfinite e rod1 = false -> ext s' = x1 /\ answer = (false, rod1))
    /\ (isEffectCreated (ext s') = true ->
        forall (rod2 : RectD.t) (isProjectFormat2 : bool),
          getRegionOfDefinition_public hash time mipMapLevel view rod2 isProjectFormat2 s'
          = (if RectD.isNull answer.2 then eStatusFailed else eStatusOK,
             answer.2, false, s')).
Proof.
  intros hash Hcreated Hmiss Htls Hplug Hret Hnull e answer.
  assert (_rodCache (actionsCache s) !! mkActionKey time view mipMapLevel = None) as Hfree.
  { unfold getRoDResult in Hmiss. subst hash. by rewrite N.eqb_refl in Hmiss. }
  destruct (heuristicEnv hash time mipMapLevel view x1) as [e0 x2] eqn:He.
  simpl in e. subst e.
  destruct (Heuristic.ifInfiniteApplyHeuristic e0 rod1) as [pf rod2] eqn:Hh.
  subst answer. simpl.
  eexists. split; [| split].
  - unfold getRegionOfDefinition_public. rewrite Hcreated, Hmiss, Htls, Hplug. simpl.
    assert (negb (bool_decide (ret = eStatusOK))
            && negb (bool_decide (ret = eStatusReplyDefault)) = false) as ->.
    { destruct Hret as [-> | ->]; reflexivity. }
    rewrite Hnull, He, Hh. reflexivity.
  - intros Hfin. simpl. rewrite Hfin. split; [done |].
    rewrite <- Hh. unfold Heuristic.anyInfinite in Hfin.
    rewrite !orb_false_iff in Hfin. destruct Hfin as [[[H1 H2] H3] H4].
    unfold Heuristic.ifInfiniteApplyHeuristic. rewrite H1, H2, H3, H4.
    by destruct (Heuristic.isGenerator e0).
  - simpl. intros Hcreated' rod3 pf3. unfold getRegionOfDefinition_public. simpl.
    rewrite Hcreated'. simpl. unfold setRoDResult. rewrite Hfree.
    unfold getRoDResult. simpl. fold hash. rewrite N.eqb_refl. simpl.
    by rewrite lookup_insert_eq.
Qed.

(** X14.  The frame range the effect computes is remembered under the hash
    the actions cache carries: a later call that does not by-pass the cache
    answers it without asking the effect.  A call that by-passes the cache
    asks the effect even when a range is cached, and replaces what the cache
    holds. *)
Theorem getFrameRange_public_remembered (hash : N) (first0 last0 first last : Z)
    (bypasscache : bool) (s : Effect X) (x1 : X) :
  threadLocalArgs s = None ->
  bypasscache = true \/ getTimeDomainResult hash (actionsCache s) = None ->
  getFrameRange first0 last0 (ext s) = (first, last, x1) ->
  let s' := mkEffect (setTimeDomainResult first last (actionsCache s)) (renderArgs s) x1 in
  getFrameRange_public hash first0 last0 bypasscache s = (first, last, s')
  /\ forall first1 last1 : Z,
       getFrameRange_public (_cacheHash (actionsCache s)) first1 last1 false s'
       = (first, last, s').
Proof.
  intros Htls Hmiss Hplug s'. split.
  - unfold getFrameRange_public.
    assert ((if negb bypasscache then getTimeDomainResult hash (actionsCache s) else None)
            = None) as ->.
    { destruct Hmiss as [-> | ->]; [done |]. by destruct (negb bypasscache). }
    by rewrite Htls, Hplug.
  - intros first1 last1. unfold getFrameRange_public, getTimeDomainResult. subst s'.
    simpl. by rewrite N.eqb_refl.
Qed.
End PublicActionsProperties.

Section PublicActionsRuns.
Import Actions PublicActions.
Local Open Scope Z_scope.

(** The retime effect is asked once: the second call answers from the
    cache. *)
Lemma isIdentity_public_remembered_witness :
  exists s' : Effect Retime,
    isIdentity_public 0 5 0 rodA 1 0 0 0 retime = (Some (true, 4, 0), s')
    /\ isIdentity_public 0 5 0 rodB 1 0 9 9 s' = (Some (true, 4, 0), s')
    /\ calls (ext s') = 1%nat.
Proof.
  eexists. split; [reflexivity |]. split; [| reflexivity].
  edestruct (isIdentity_public_remembered 0 5 0 rodA 1 0 0 0 retime) as (_ & _ & Hagain).
  - reflexivity.
  - reflexivity.
  - reflexivity.
  - apply (Hagain rodB 1 9 9).
Defined.

(** The disabled retime effect has no preferred input: identity at the
    first call, not identity at the second. *)
Lemma isIdentity_public_disabled_witness :
  exists s' : Effect Retime,
    isIdentity_public 0 5 0 rodA 1 0 0 0 retimeOff = (Some (true, 5, -1), s')
    /\ isIdentity_public 0 5 0 rodA 1 0 0 0 s' = (Some (false, 5, -1), s')
    /\ calls (ext s') = 0%nat.
Proof.
  destruct (isIdentity_public_disabled 0 5 0 rodA 1 0 0 0 retimeOff)
    as [Hfirst Hagain]; try reflexivity.
  eexists. split; [exact Hfirst |]. split; [| reflexivity].
  apply (Hagain rodA 1 0 0).
Defined.

(** Before frame 0 the region query of the retime effect fails: the cache,
    which held a region for frame 5 under hash 7, is emptied and retagged,
    and the second call fails without asking the plug-in. *)
Lemma getRegionOfDefinition_public_failure_witness :
  exists s' : Effect Retime,
    getRoDResult 7 5 0 0 (actionsCache retimeA) = Some rodA
    /\ getRegionOfDefinition_public 8 (-1) 0 0 rodB true retimeA
       = (eStatusFailed, rodB, true, s')
    /\ getRoDResult 8 5 0 0 (actionsCache s') = None
    /\ getRegionOfDefinition_public 8 (-1) 0 0 rodB true s'
       = (eStatusFailed, RectD.null, false, s')
    /\ calls (ext s') = 1%nat.
Proof.
  edestruct (getRegionOfDefinition_public_failure 8 (-1) 0 0 rodB rodB true retimeA)
    as (stat & Hfirst & _ & _ & _ & _ & Hforgot & Hagain).
  - reflexivity.
  - reflexivity.
  - reflexivity.
  - reflexivity.
  - left. split; discriminate.
  - eexists. split; [reflexivity |]. split; [reflexivity |].
    split; [apply Hforgot; discriminate |].
    split; [apply (Hagain eq_refl rodB true) | reflexivity].
Defined.

(** From frame 0 on the region query succeeds with "reply default": the
    second call answers the same rectangle with OK, from the cache. *)
Lemma getRegionOfDefinition_public_remembered_witness :
  exists s' : Effect Retime,
    getRegionOfDefinition_public 0 5 0 0 rodB true retime
    = (eStatusReplyDefault, RectD.mk 0 0 100 100, false, s')
    /\ getRegionOfDefinition_public 0 5 0 0 rodB true s'
       = (eStatusOK, RectD.mk 0 0 100 100, false, s')
    /\ calls (ext s') = 1%nat.
Proof.
  edestruct (getRegionOfDefinition_public_remembered 5 0 0 rodB (RectD.mk 0 0 100 100)
               true retime)
    as (s' & Hfirst & _ & Hagain).
  - reflexivity.
  - reflexivity.
  - reflexivity.
  - reflexivity.
  - by right.
  - reflexivity.
  - exists s'. split; [exact Hfirst |].
    assert (s' = mkEffect (setRoDResult 5 0 0 (RectD.mk 0 0 100 100) empty) None
                   (mkRetime false 0 1)) as Hs'.
    { clear Hagain. vm_compute in Hfirst. by injection Hfirst as <-. }
    split; [| by rewrite Hs'].
    assert (isEffectCreated (ext s') = true) as Hcreated by reflexivity.
    exact (Hagain Hcreated rodB true).
Defined.

(** The frame range of the retime effect is asked for once. *)
Lemma getFrameRange_public_remembered_witness :
  exists s' : Effect Retime,
    getFrameRange_public 0 0 0 false retime = (1, 100, s')
    /\ getFrameRange_public 0 7 7 false s' = (1, 100, s')
    /\ calls (ext s') = 1%nat.
Proof.
  destruct (getFrameRange_public_remembered 0 0 0 1 100 false retime (mkRetime false 0 1))
    as [Hfirst Hagain].
  - reflexivity.
  - by right.
  - reflexivity.
  - eexists. split; [exact Hfirst |]. split; [apply (Hagain 7 7) | reflexivity].
Defined.
End PublicActionsRuns.

(** * Walks over the node graph *)

Section GraphProperties.
Import Graph.
Context {G : GraphOps}.
Local Open Scope Z_scope.

Lemma elem_of_slots (node : Node) (i : Z) :
  In i (slots node) <-> 0 <= i < getMaxInputCount node.
Proof.
  unfold slots. rewrite <- list_elem_of_In, elem_of_seqZ. lia.
Qed.

(** [List.find] on consecutive integers returns the least one that passes
    the test. *)
Lemma find_seqZ (f : Z -> bool) (n : nat) :
  forall m : Z,
  match List.find f (seqZ m (Z.of_nat n)) with
  | Some r => m <= r < m + Z.of_nat n /\ f r = true /\ forall j, m <= j < r -> f j = false
  | None => forall j, m <= j < m + Z.of_nat n -> f j = false
  end.
Proof.
  induction n as [| n IH]; intros m.
  - simpl. intros j Hj. lia.
  - rewrite seqZ_cons by lia. simpl.
    replace (Z.pred (Z.of_nat (S n))) with (Z.of_nat n) by lia.
    destruct (f m) eqn:Hm.
    + split; [lia |]. split; [done |]. intros j Hj. lia.
    + specialize (IH (Z.succ m)). destruct (List.find f _) as [r |].
      * destruct IH as (Hr & Hfr & Hleast). split; [lia |]. split; [done |].
        intros j Hj. destruct (decide (j = m)) as [-> | Hne]; [done |].
        apply Hleast. lia.
      * intros j Hj. destruct (decide (j = m)) as [-> | Hne]; [done |].
        apply IH. lia.
Qed.

Lemma find_slots (f : Z -> bool) (node : Node) :
  match List.find f (slots node) with
  | Some r => 0 <= r < getMaxInputCount node /\ f r = true
              /\ forall j, 0 <= j < r -> f j = false
  | None => forall j, 0 <= j < getMaxInputCount node -> f j = false
  end.
Proof.
  unfold slots. destruct (Z_le_gt_dec (getMaxInputCount node) 0) as [Hle | Hgt].
  - rewrite seqZ_nil by done. simpl. intros j Hj. lia.
  - pose proof (find_seqZ f (Z.to_nat (getMaxInputCount node)) 0) as Hf.
    rewrite Z2Nat.id in Hf by lia. destruct (List.find f _) as [r |].
    + destruct Hf as (Hr & Hfr & Hleast). split; [lia |]. done.
    + intros j Hj. apply Hf. lia.
Qed.

(** X15.  [getInputNumber] answers the lowest slot the effect is connected
    to, a slot of the node, and -1 exactly when no slot holds it.  Asked
    for the null effect, it answers the lowest slot that is not
    connected. *)
Theorem getInputNumber_lowest (node : Node) (inputEffect : option Node) :
  let r := getInputNumber node inputEffect in
  (r = -1 /\ forall i, 0 <= i < getMaxInputCount node -> getInput node i <> inputEffect)
  \/ (0 <= r < getMaxInputCount node /\ getInput node r = inputEffect
      /\ forall j, 0 <= j < r -> getInput node j <> inputEffect).
Proof.
  intros r. subst r. unfold getInputNumber.
  pose proof (find_slots (fun i => bool_decide (getInput node i = inputEffect)) node) as Hf.
  destruct (List.find _ _) as [r |]; simpl.
  - right. destruct Hf as (Hr & Hfr & Hleast). split; [done |].
    split; [by apply bool_decide_eq_true in Hfr |].
    intros j Hj. specialize (Hleast j Hj). by apply bool_decide_eq_false in Hleast.
  - left. split; [done |]. intros i Hi. specialize (Hf i Hi).
    by apply bool_decide_eq_false in Hf.
Qed.

(** One turn of the loop of [getFrameRange]. *)
Lemma getFrameRange_turn (inputRange : Node -> Z * Z) (node : Node) (l : list Z) :
  forall acc : Z * Z,
  (forall i, In i l -> i <> 0) ->
  let step := fun '(first, last) i =>
       match getInput node i with
       | Some input =>
           let '(inpFirst, inpLast) := inputRange input in
           if i =? 0 then (inpFirst, inpLast)
           else (if inpFirst <? first then inpFirst else first,
                 if last <? inpLast then inpLast else last)
       | None => (first, last)
       end in
  let r := fold_left step l acc in
  r.1 <= acc.1 /\ acc.2 <= r.2
  /\ (forall i input, In i l -> getInput node i = Some input ->
        r.1 <= (inputRange input).1 /\ (inputRange input).2 <= r.2)
  /\ (r.1 = acc.1
      \/ exists i input, In i l /\ getInput node i = Some input
                         /\ r.1 = (inputRange input).1)
  /\ (r.2 = acc.2
      \/ exists i input, In i l /\ getInput node i = Some input
                         /\ r.2 = (inputRange input).2).
Proof.
  induction l as [| i l IH]; intros [first last] Hnz step r.
  - subst r. simpl. repeat split; try lia; try (by left); by intros i input [].
  - assert (i <> 0) as Hi by (apply Hnz; by left).
    assert (forall j, In j l -> j <> 0) as Hnz' by (intros j Hj; apply Hnz; by right).
    subst r.
    change (fold_left step (i :: l) (first, last))
      with (fold_left step l (step (first, last) i)).
    set (acc' := step (first, last) i).
    specialize (IH acc' Hnz'). cbv zeta in IH. fold step in IH.
    destruct IH as (Hlo & Hhi & Hall & Hf & Hl).
    assert (acc'.1 <= first /\ last <= acc'.2
            /\ (forall input, getInput node i = Some input ->
                  acc'.1 <= (inputRange input).1 /\ (inputRange input).2 <= acc'.2)
            /\ (acc'.1 = first \/ exists input, getInput node i = Some input
                                                /\ acc'.1 = (inputRange input).1)
            /\ (acc'.2 = last \/ exists input, getInput node i = Some input
                                               /\ acc'.2 = (inputRange input).2))
      as (Hlo' & Hhi' & Hme & Hf' & Hl').
    { subst acc'. unfold step. destruct (getInput node i) as [input |].
      - destruct (inputRange input) as [a b] eqn:Heqp. simpl.
        assert ((i =? 0) = false) as -> by by apply Z.eqb_neq.
        simpl. destruct (Z.ltb_spec a first), (Z.ltb_spec last b); simpl;
          (split; [lia |]); (split; [lia |]);
          (split; [intros ? [= <-]; rewrite Heqp; simpl; lia |]);
          split; try (by left); right; exists input; by rewrite Heqp.
      - simpl. split; [done |]. split; [done |]. split; [intros ? [=] |]. split; by left. }
    remember (fold_left step l acc') as r' eqn:Hr'. clear Hr'.
    remember acc' as a' eqn:Ha'. clear Ha'. cbn [fst snd] in *.
    split; [lia |]. split; [lia |]. split; [| split].
    + intros j input [<- | Hj] Hin.
      * destruct (Hme input Hin). lia.
      * exact (Hall j input Hj Hin).
    + destruct Hf as [Hf | (j & input & Hj & Hin & Hf)].
      * destruct Hf' as [Hf' | (input & Hin & Hf')]; [left; lia |].
        right. exists i, input. split; [by left |]. split; [done |]. lia.
      * right. exists j, input. split; [by right |]. done.
    + destruct Hl as [Hl | (j & input & Hj & Hin & Hl)].
      * destruct Hl' as [Hl' | (input & Hin & Hl')]; [left; lia |].
        right. exists i, input. split; [by left |]. split; [done |]. lia.
      * right. exists j, input. split; [by right |]. done.
Qed.

(** X16.  The default frame range of an effect.  When its input 0 is
    connected, the range is the hull of the ranges of its connected inputs:
    it holds each of them, and its two ends are ends of input ranges.  When
    input 0 is not connected the range is the whole of [INT_MIN, INT_MAX],
    whatever is connected to the other inputs (their ranges being made of
    [int]s). *)
Theorem getFrameRange_hull (inputRange : Node -> Z * Z) (node : Node) :
  let r := getFrameRange inputRange node in
  (forall input0, 0 < getMaxInputCount node -> getInput node 0 = Some input0 ->
     (forall i input, 0 <= i < getMaxInputCount node -> getInput node i = Some input ->
        r.1 <= (inputRange input).1 /\ (inputRange input).2 <= r.2)
     /\ (exists i input, 0 <= i < getMaxInputCount node /\ getInput node i = Some input
                         /\ r.1 = (inputRange input).1)
     /\ (exists i input, 0 <= i < getMaxInputCount node /\ getInput node i = Some input
                         /\ r.2 = (inputRange input).2))
  /\ (getInput node 0 = None ->
      (forall i input, 0 <= i < getMaxInputCount node -> getInput node i = Some input ->
         INT_MIN <= (inputRange input).1 /\ (inputRange input).2 <= INT_MAX) ->
      r = (INT_MIN, INT_MAX)).
Proof.
  intros r. subst r. unfold getFrameRange. split.
  - intros input0 Hmax H0. unfold slots. rewrite seqZ_cons by lia. simpl.
    rewrite H0. destruct (inputRange input0) as [a b] eqn:Hr0. simpl.
    pose proof (getFrameRange_turn inputRange node
                  (seqZ (Z.succ 0) (Z.pred (getMaxInputCount node))) (a, b)) as Hturn.
    assert (forall i, In i (seqZ (Z.succ 0) (Z.pred (getMaxInputCount node))) ->
              1 <= i < getMaxInputCount node) as Hrest.
    { intros i Hi. apply list_elem_of_In, elem_of_seqZ in Hi. lia. }
    cbv zeta in Hturn.
    destruct Hturn as (Hlo & Hhi & Hall & Hf & Hl).
    { intros i Hi. apply Hrest in Hi. lia. }
    simpl in Hlo, Hhi, Hf, Hl. split; [| split].
    + intros i input Hi Hin. destruct (decide (i = 0)) as [-> | Hne].
      * rewrite H0 in Hin. injection Hin as <-. rewrite Hr0. simpl. lia.
      * apply (Hall i input); [| done]. apply list_elem_of_In, elem_of_seqZ. lia.
    + destruct Hf as [Hf | (i & input & Hi & Hin & Hf)].
      * exists 0, input0. split; [lia |]. split; [done |]. rewrite Hr0. simpl. lia.
      * exists i, input. apply Hrest in Hi. split; [lia |]. done.
    + destruct Hl as [Hl | (i & input & Hi & Hin & Hl)].
      * exists 0, input0. split; [lia |]. split; [done |]. rewrite Hr0. simpl. lia.
      * exists i, input. apply Hrest in Hi. split; [lia |]. done.
  - intros H0 Hint.
    assert (forall l : list Z, (forall i, In i l -> 0 <= i < getMaxInputCount node) ->
              fold_left
                (fun '(first, last) i =>
                   match getInput node i with
                   | Some input =>
                       let '(inpFirst, inpLast) := inputRange input in
                       if i =? 0 then (inpFirst, inpLast)
                       else (if inpFirst <? first then inpFirst else first,
                             if last <? inpLast then inpLast else last)
                   | None => (first, last)
                   end) l (INT_MIN, INT_MAX) = (INT_MIN, INT_MAX)) as Hkeep.
    { induction l as [| i l IH]; intros Hl; [done |]. simpl.
      assert (0 <= i < getMaxInputCount node) as Hi by (apply Hl; by left).
      destruct (getInput node i) as [input |] eqn:Hin.
      - destruct (Hint i input Hi Hin) as [Ha Hb].
        destruct (inputRange input) as [a b]. simpl in Ha, Hb.
        assert ((i =? 0) = false) as ->.
        { apply Z.eqb_neq. intros ->. congruence. }
        assert ((a <? INT_MIN) = false) as -> by (apply Z.ltb_ge; lia).
        assert ((INT_MAX <? b) = false) as -> by (apply Z.ltb_ge; lia).
        apply IH. intros j Hj. apply Hl. by right.
      - apply IH. intros j Hj. apply Hl. by right. }
    apply Hkeep. intros i Hi. by apply elem_of_slots.
Qed.

(** The default of [getRegionOfDefinition], from any point of its loop. *)
Lemma getRegionOfDefinition_loop (merge : RectD.t -> RectD.t -> RectD.t)
    (inputs : list (option (StatusEnum * RectD.t))) :
  forall (rod : RectD.t) (firstInput : bool),
  let r := getRegionOfDefinition merge inputs rod firstInput in
  (r.1 = eStatusFailed \/ r.1 = eStatusReplyDefault)
  /\ (r.1 = eStatusFailed <-> exists rodi, In (Some (eStatusFailed, rodi)) inputs)
  /\ ((forall rodi, ~ In (Some (eStatusFailed, rodi)) inputs) ->
      r = (eStatusReplyDefault, Heuristic.unionLoop merge inputs rod firstInput))
  /\ (Forall (fun slot => slot = None) inputs -> r = (eStatusReplyDefault, rod)).
Proof.
  induction inputs as [| [[st inputRod] |] rest IH]; intros rod firstInput r; subst r.
  - simpl. split; [by right |]. split; [| done]. split; [done | by intros [? []]].
  - simpl. destruct (decide (st = eStatusFailed)) as [-> | Hst].
    + simpl. split; [by left |]. split; [| split].
      * split; [| done]. intros _. exists inputRod. by left.
      * intros Hno. destruct (Hno inputRod). by left.
      * intros Hall. by inversion Hall.
    + assert (forall rod' fi,
                let r := getRegionOfDefinition merge rest rod' fi in
                (r.1 = eStatusFailed \/ r.1 = eStatusReplyDefault)
                /\ (r.1 = eStatusFailed
                    <-> exists rodi, In (Some (eStatusFailed, rodi))
                                        (Some (st, inputRod) :: rest))
                /\ ((forall rodi, ~ In (Some (eStatusFailed, rodi))
                                       (Some (st, inputRod) :: rest)) ->
                    r = (eStatusReplyDefault, Heuristic.unionLoop merge rest rod' fi))) as Hrest.
      { intros rod' fi. destruct (IH rod' fi) as (Hst' & Hfail & Hok & _).
        split; [done |]. split.
        - rewrite Hfail. split.
          + intros [rodi Hin]. exists rodi. by right.
          + intros [rodi [[= -> _] | Hin]]; [done | by exists rodi].
        - intros Hno. apply Hok. intros rodi Hin. apply (Hno rodi). by right. }
      destruct firstInput.
      * destruct (Hrest inputRod false) as (H1 & H2 & H3).
        split; [done |]. split; [done |]. split; [done |]. intros Hall. by inversion Hall.
      * destruct (Hrest (merge rod inputRod) false) as (H1 & H2 & H3).
        split; [done |]. split; [done |]. split; [done |]. intros Hall. by inversion Hall.
  - simpl. destruct (IH rod firstInput) as (Hst' & Hfail & Hok & Hnone).
    split; [done |]. split; [| split].
    + rewrite Hfail. split.
      * intros [rodi Hin]. exists rodi. by right.
      * intros [rodi [[=] | Hin]]. by exists rodi.
    + intros Hno. apply Hok. intros rodi Hin. apply (Hno rodi). by right.
    + intros Hall. apply Hnone. by inversion Hall.
Qed.

(** X17.  The default region of definition of an effect.  The action fails
    exactly when the query of some connected input fails, and otherwise
    answers "reply default", never OK, with the union of the regions of the
    connected inputs: the very union the infinite-region heuristic computes
    from the same inputs.  With no connected input the rectangle is left as
    it was.  (The heuristic, for its part, passes over an input whose query
    fails.) *)
Theorem getRegionOfDefinition_default (merge : RectD.t -> RectD.t -> RectD.t)
    (inputs : list (option (StatusEnum * RectD.t))) (rod : RectD.t) :
  let r := getRegionOfDefinition merge inputs rod true in
  r.1 <> eStatusOK
  /\ (r.1 = eStatusFailed <-> exists rodi, In (Some (eStatusFailed, rodi)) inputs)
  /\ ((forall rodi, ~ In (Some (eStatusFailed, rodi)) inputs) ->
      r = (eStatusReplyDefault, Heuristic.unionLoop merge inputs rod true))
  /\ (Forall (fun slot => slot = None) inputs -> r = (eStatusReplyDefault, rod)).
Proof.
  intros r. destruct (getRegionOfDefinition_loop merge inputs rod true)
    as (Hst & Hfail & Hok & Hnone).
  fold r in Hst, Hfail, Hok, Hnone. split; [| done].
  destruct Hst as [-> | ->]; discriminate.
Qed.

Lemma elem_of_connectedInputs (node inp : Node) (optional : bool) :
  In inp (connectedInputs node optional)
  <-> exists i, 0 <= i < getMaxInputCount node /\ getInput node i = Some inp
                /\ isInputOptional node i = optional.
Proof.
  unfold connectedInputs. rewrite <- list_elem_of_In, list_elem_of_omap. split.
  - intros (i & Hi & Hf). exists i. apply list_elem_of_In, elem_of_slots in Hi.
    destruct (getInput node i) as [inp' |]; [| done].
    destruct (bool_decide (isInputOptional node i = optional)) eqn:Ho; [| done].
    injection Hf as ->. apply bool_decide_eq_true in Ho. done.
  - intros (i & Hi & Hin & Ho). exists i. split.
    + by apply list_elem_of_In, elem_of_slots.
    + rewrite Hin. by rewrite bool_decide_eq_true_2.
Qed.

Lemma elem_of_inputs (node inp : Node) :
  In inp (omap (getInput node) (slots node))
  <-> exists i, 0 <= i < getMaxInputCount node /\ getInput node i = Some inp.
Proof.
  rewrite <- list_elem_of_In, list_elem_of_omap. split.
  - intros (i & Hi & Hf). exists i. by apply list_elem_of_In, elem_of_slots in Hi.
  - intros (i & Hi & Hin). exists i. split; [| done].
    by apply list_elem_of_In, elem_of_slots.
Qed.

(** The loop that returns the first non-null answer. *)
Lemma firstAnswer_spec {A : Type} (f : Node -> option (option A)) (l : list Node)
    (Q : Node -> option A -> Prop) :
  (forall inp, In inp l -> exists r, f inp = Some r /\ Q inp r) ->
  exists r, firstAnswer f l = Some r
            /\ match r with
               | Some a => exists inp, In inp l /\ Q inp (Some a)
               | None => forall inp, In inp l -> Q inp None
               end.
Proof.
  induction l as [| inp l IH]; intros Hf; simpl.
  - exists None. split; [done |]. intros inp [].
  - destruct (Hf inp) as (r & Hr & Hq); [by left |]. rewrite Hr. simpl.
    destruct r as [a |].
    + exists (Some a). split; [done |]. exists inp. split; [by left | done].
    + destruct IH as (r & Hr' & Hq'); [intros inp' Hin; apply Hf; by right |].
      exists r. split; [done |]. destruct r as [a |].
      * destruct Hq' as (inp' & Hin & Hq'). exists inp'. split; [by right | done].
      * intros inp' [<- | Hin]; [done | by apply Hq'].
Qed.

Lemma getNearestNonDisabled_depth (rank : Node -> nat) :
  acyclic rank ->
  forall (depth : nat) (node : Node), (rank node < depth)%nat ->
  exists r, getNearestNonDisabled depth node = Some r
            /\ match r with
               | Some n => isNodeDisabled n = false /\ upstream n node
               | None => forall m, upstream m node -> isNodeDisabled m = true
               end
            /\ (isNodeDisabled node = false -> r = Some node)
            /\ (isNodeDisabled node = true -> forall n, r = Some n ->
                  (exists inp, In inp (connectedInputs node false) /\ upstream n inp)
                  \/ ((forall inp m, In inp (connectedInputs node false) ->
                         upstream m inp -> isNodeDisabled m = true)
                      /\ exists inp, In inp (connectedInputs node true) /\ upstream n inp)).
Proof.
  intros Hacyc. induction depth as [| depth IH]; intros node Hrank; [lia |].
  simpl. destruct (isNodeDisabled node) eqn:Hdis; simpl.
  - set (Q := fun (inp : Node) (r : option Node) =>
                match r with
                | Some n => isNodeDisabled n = false /\ upstream n inp
                | None => forall m, upstream m inp -> isNodeDisabled m = true
                end).
    assert (forall optional inp, In inp (connectedInputs node optional) ->
              exists r, getNearestNonDisabled depth inp = Some r /\ Q inp r) as Hinputs.
    { intros optional inp Hin. apply elem_of_connectedInputs in Hin as (i & Hi & Hin & _).
      destruct (IH inp) as (r & Hr & Hq & _); [specialize (Hacyc node inp i Hi Hin); lia |].
      by exists r. }
    assert (forall optional inp n, In inp (connectedInputs node optional) ->
              upstream n inp -> upstream n node) as Hup.
    { intros optional inp n Hin Hn.
      apply elem_of_connectedInputs in Hin as (i & Hi & Hin & _).
      by eapply upstream_input. }
    destruct (firstAnswer_spec (getNearestNonDisabled depth) (connectedInputs node false) Q
                (Hinputs false)) as (r1 & Hr1 & Hq1).
    rewrite Hr1. simpl. destruct r1 as [n |].
    + destruct Hq1 as (inp & Hin & Hen & Hn). exists (Some n). split; [done |].
      split; [split; [done | by eapply Hup] |]. split; [done |].
      intros _ n' [= <-]. left. by exists inp.
    + destruct (firstAnswer_spec (getNearestNonDisabled depth) (connectedInputs node true) Q
                  (Hinputs true)) as (r2 & Hr2 & Hq2).
      exists r2. split; [done |]. split; [| split; [done |]].
      * destruct r2 as [n |].
        -- destruct Hq2 as (inp & Hin & Hen & Hn). split; [done | by eapply Hup].
        -- intros m Hm. inversion Hm as [| ? ? inp i Hi Hin Hm']; subst; [done |].
           destruct (isInputOptional node i) eqn:Ho.
           ++ apply (Hq2 inp); [| done]. apply elem_of_connectedInputs. by exists i.
           ++ apply (Hq1 inp); [| done]. apply elem_of_connectedInputs. by exists i.
      * intros _ n ->. right. split.
        -- intros inp m Hin Hm. by apply (Hq1 inp).
        -- destruct Hq2 as (inp & Hin & Hen & Hn). by exists inp.
  - exists (Some node). split; [done |]. split; [split; [done | constructor] |].
    split; [done |]. done.
Qed.

(** X18.  On a graph without cycle [getNearestNonDisabled] returns, and it
    finds an enabled node whenever there is one upstream: the node itself
    when it is enabled; otherwise an enabled node above one of its connected
    inputs, a non-optional input whenever an enabled node lies above one;
    and null only when the node and every node above it are disabled. *)
Theorem getNearestNonDisabled_finds (rank : Node -> nat) (depth : nat) (node : Node) :
  acyclic rank -> (rank node < depth)%nat ->
  exists r : option Node,
    getNearestNonDisabled depth node = Some r
    /\ (forall n, r = Some n -> isNodeDisabled n = false /\ upstream n node)
    /\ (r = None -> forall m, upstream m node -> isNodeDisabled m = true)
    /\ (isNodeDisabled node = false -> r = Some node)
    /\ (isNodeDisabled node = true -> forall n, r = Some n ->
          (exists inp, In inp (connectedInputs node false) /\ upstream n inp)
          \/ ((forall inp m, In inp (connectedInputs node false) ->
                 upstream m inp -> isNodeDisabled m = true)
              /\ exists inp, In inp (connectedInputs node true) /\ upstream n inp)).
Proof.
  intros Hacyc Hrank.
  destruct (getNearestNonDisabled_depth rank Hacyc depth node Hrank)
    as (r & Hr & Hq & Hself & Hpref).
  exists r. split; [done |]. split; [by intros n -> |]. split; [by intros -> |]. done.
Qed.

Lemma localPreferredInput_lowest (node : Node) :
  let nb := localPreferredInput node in
  (nb = -1 /\ forall i, 0 <= i < getMaxInputCount node -> getInput node i = None)
  \/ (0 <= nb < getMaxInputCount node /\ is_Some (getInput node nb)
      /\ forall j, 0 <= j < nb -> getInput node j = None).
Proof.
  intros nb. subst nb. unfold localPreferredInput.
  pose proof (find_slots (fun i => bool_decide (is_Some (getInput node i))) node) as Hf.
  destruct (List.find _ _) as [r |]; simpl.
  - right. destruct Hf as (Hr & Hfr & Hleast). split; [done |].
    split; [by apply bool_decide_eq_true in Hfr |].
    intros j Hj. specialize (Hleast j Hj). apply bool_decide_eq_false in Hleast.
    by apply eq_None_not_Some.
  - left. split; [done |]. intros i Hi. specialize (Hf i Hi).
    apply bool_decide_eq_false in Hf. by apply eq_None_not_Some.
Qed.

Lemma getNearestNonDisabledPrevious_depth (rank : Node -> nat) :
  acyclic rank ->
  forall (depth : nat) (node : Node) (inputNb : Z), (rank node < depth)%nat ->
  isNodeDisabled node = true ->
  exists r, getNearestNonDisabledPrevious depth node inputNb
            = Some (Some (r, localPreferredInput r))
            /\ isNodeDisabled r = true /\ upstream r node
            /\ forall i inp, 0 <= i < getMaxInputCount r -> getInput r i = Some inp ->
                 isNodeDisabled inp = false.
Proof.
  intros Hacyc. induction depth as [| depth IH]; intros node nb0 Hrank Hdis; [lia |].
  simpl.
  set (visit := fun inp : Node =>
                  if isNodeDisabled inp then getNearestNonDisabledPrevious depth inp nb0
                  else Some None).
  set (Q := fun (inp : Node) (res : option (Node * Z)) =>
              if isNodeDisabled inp then
                exists r, res = Some (r, localPreferredInput r)
                          /\ isNodeDisabled r = true /\ upstream r inp
                          /\ forall i inp', 0 <= i < getMaxInputCount r ->
                               getInput r i = Some inp' -> isNodeDisabled inp' = false
              else res = None).
  assert (forall optional inp, In inp (connectedInputs node optional) ->
            exists res, visit inp = Some res /\ Q inp res) as Hinputs.
  { intros optional inp Hin. apply elem_of_connectedInputs in Hin as (i & Hi & Hin & _).
    unfold visit, Q. destruct (isNodeDisabled inp) eqn:Hd; [| by exists None].
    destruct (IH inp nb0) as (r & Hr & Hq); [specialize (Hacyc node inp i Hi Hin); lia | done |].
    exists (Some (r, localPreferredInput r)). split; [done |]. by exists r. }
  assert (forall optional a,
            (exists inp, In inp (connectedInputs node optional) /\ Q inp (Some a)) ->
            exists r, a = (r, localPreferredInput r)
                      /\ isNodeDisabled r = true /\ upstream r node
                      /\ forall i inp', 0 <= i < getMaxInputCount r ->
                           getInput r i = Some inp' -> isNodeDisabled inp' = false) as Hfound.
  { intros optional a (inp & Hin & Hq). unfold Q in Hq.
    destruct (isNodeDisabled inp); [| done].
    destruct Hq as (r & [= ->] & Hd & Hup & Hen). exists r. split; [done |].
    split; [done |]. split; [| done].
    apply elem_of_connectedInputs in Hin as (i & Hi & Hin & _). by eapply upstream_input. }
  assert (forall optional,
            (forall inp, In inp (connectedInputs node optional) -> Q inp None) ->
            forall inp, In inp (connectedInputs node optional) -> isNodeDisabled inp = false)
    as Hnone.
  { intros optional Hq inp Hin. specialize (Hq inp Hin). unfold Q in Hq.
    destruct (isNodeDisabled inp); [| done]. by destruct Hq as (r & [=] & _). }
  destruct (firstAnswer_spec visit (connectedInputs node false) Q (Hinputs false))
    as (r1 & Hr1 & Hq1).
  rewrite Hr1. simpl. destruct r1 as [a |].
  - destruct (Hfound false a Hq1) as (r & -> & Hq). by exists r.
  - destruct (firstAnswer_spec visit (connectedInputs node true) Q (Hinputs true))
      as (r2 & Hr2 & Hq2).
    rewrite Hr2. simpl. destruct r2 as [a |].
    + destruct (Hfound true a Hq2) as (r & -> & Hq). by exists r.
    + exists node. split; [done |]. split; [done |]. split; [constructor |].
      intros i inp Hi Hin. destruct (isInputOptional node i) eqn:Ho.
      * apply (Hnone true Hq2). apply elem_of_connectedInputs. by exists i.
      * apply (Hnone false Hq1). apply elem_of_connectedInputs. by exists i.
Qed.

(** X19.  On a graph without cycle, [getNearestNonDisabledPrevious] called
    on a disabled node returns, never null: it answers a disabled node, the
    node itself or one above it, none of whose connected inputs is disabled,
    and leaves in [*inputNb] the lowest connected input slot of that node,
    or -1 when it has no connected input. *)
Theorem getNearestNonDisabledPrevious_last (rank : Node -> nat) (depth : nat)
    (node : Node) (inputNb0 : Z) :
  acyclic rank -> (rank node < depth)%nat -> isNodeDisabled node = true ->
  exists (r : Node) (inputNb : Z),
    getNearestNonDisabledPrevious depth node inputNb0 = Some (Some (r, inputNb))
    /\ isNodeDisabled r = true /\ upstream r node
    /\ (forall i inp, 0 <= i < getMaxInputCount r -> getInput r i = Some inp ->
          isNodeDisabled inp = false)
    /\ ((inputNb = -1
         /\ forall i, 0 <= i < getMaxInputCount r -> getInput r i = None)
        \/ (0 <= inputNb < getMaxInputCount r /\ is_Some (getInput r inputNb)
            /\ forall j, 0 <= j < inputNb -> getInput r j = None)).
Proof.
  intros Hacyc Hrank Hdis.
  destruct (getNearestNonDisabledPrevious_depth rank Hacyc depth node inputNb0 Hrank Hdis)
    as (r & Hr & Hd & Hup & Hen).
  exists r, (localPreferredInput r). split; [done |]. split; [done |]. split; [done |].
  split; [done |]. apply localPreferredInput_lowest.
Qed.

(** The loop over the inputs of [isFrameVaryingOrAnimated_impl]. *)
Lemma anyInput_spec (f : Node -> bool -> option bool) (l : list Node) (V : Node -> Prop) :
  (forall inp, In inp l -> forall ret,
     exists b, f inp ret = Some b /\ (b = true <-> ret = true \/ V inp)) ->
  forall ret, exists b, anyInput f l ret = Some b
                        /\ (b = true <-> ret = true \/ exists inp, In inp l /\ V inp).
Proof.
  induction l as [| inp l IH]; intros Hf ret; simpl.
  - exists ret. split; [done |]. split; [by left |]. by intros [? | (? & [] & _)].
  - destruct (Hf inp (or_introl eq_refl) ret) as (b & Hb & Hiff). rewrite Hb.
    destruct b.
    + exists true. split; [done |]. split; [| done]. intros _.
      destruct (proj1 Hiff eq_refl) as [? | Hv]; [by left |]. right. exists inp.
      split; [by left | done].
    + destruct (IH (fun inp' Hin => Hf inp' (or_intror Hin)) false) as (b & Hb' & Hiff').
      exists b. split; [done |]. rewrite Hiff'. split.
      * intros [[=] | (inp' & Hin & Hv)]. right. exists inp'. split; [by right | done].
      * intros [-> | (inp' & [<- | Hin] & Hv)].
        -- destruct Hiff as [_ Hiff]. discriminate Hiff. by left.
        -- destruct Hiff as [_ Hiff]. discriminate Hiff. by right.
        -- right. by exists inp'.
Qed.

Lemma isFrameVaryingOrAnimated_depth (rank : Node -> nat) :
  acyclic rank ->
  forall (depth : nat) (node : Node) (ret : bool), (rank node < depth)%nat ->
  exists b, isFrameVaryingOrAnimated_impl depth node ret = Some b
            /\ (b = true
                <-> ret = true
                    \/ exists m, upstream m node
                                 /\ isFrameVarying m || getHasAnimation m
                                    || hasRotoContext m = true).
Proof.
  intros Hacyc. induction depth as [| depth IH]; intros node ret Hrank; [lia |].
  simpl. destruct (isFrameVarying node || getHasAnimation node || hasRotoContext node)
    eqn:Hv.
  - exists true. split; [done |]. split; [| done]. intros _. right. exists node.
    split; [constructor | done].
  - destruct (anyInput_spec (isFrameVaryingOrAnimated_impl depth)
                (omap (getInput node) (slots node))
                (fun inp => exists m, upstream m inp
                                      /\ isFrameVarying m || getHasAnimation m
                                         || hasRotoContext m = true)) with (ret := ret)
      as (b & Hb & Hiff).
    { intros inp Hin ret'. apply elem_of_inputs in Hin as (i & Hi & Hin).
      apply IH. specialize (Hacyc node inp i Hi Hin). lia. }
    exists b. split; [done |]. rewrite Hiff. split.
    + intros [-> | (inp & Hin & m & Hm & Hvm)]; [by left |]. right. exists m.
      split; [| done]. apply elem_of_inputs in Hin as (i & Hi & Hin).
      by eapply upstream_input.
    + intros [-> | (m & Hm & Hvm)]; [by left |]. right.
      inversion Hm as [| ? ? inp i Hi Hin Hm']; subst; [congruence |].
      exists inp. split; [apply elem_of_inputs; by exists i |]. by exists m.
Qed.

(** X20.  On a graph without cycle [isFrameVaryingOrAnimated_Recursive]
    returns, and answers true exactly when the node or some node above it,
    through connected inputs, is frame varying, animated or has a roto
    context. *)
Theorem isFrameVaryingOrAnimated_upstream (rank : Node -> nat) (depth : nat)
    (node : Node) :
  acyclic rank -> (rank node < depth)%nat ->
  exists b : bool,
    isFrameVaryingOrAnimated_Recursive depth node = Some b
    /\ (b = true
        <-> exists m, upstream m node
                      /\ isFrameVarying m || getHasAnimation m || hasRotoContext m = true).
Proof.
  intros Hacyc Hrank.
  destruct (isFrameVaryingOrAnimated_depth rank Hacyc depth node false Hrank)
    as (b & Hb & Hiff).
  exists b. split; [done |]. rewrite Hiff. split; [by intros [[=] | ?] | by right].
Qed.
End GraphProperties.

(** On the chain, node 1 is the second input of the merge and node 0 is not
    an input of it. *)
Lemma getInputNumber_lowest_witness :
  Graph.getInputNumber (G := Graph.chain) 3%N (Some 1%N) = 1%Z
  /\ Graph.getInput (GraphOps := Graph.chain) 3%N 1%Z = Some 1%N
  /\ Graph.getInputNumber (G := Graph.chain) 3%N (Some 0%N) = (-1)%Z.
Proof.
  destruct (getInputNumber_lowest (G := Graph.chain) 3%N (Some 1%N)) as [[Hr _] | (_ & Hin & _)].
  - vm_compute in Hr. discriminate.
  - split; [reflexivity |]. split; [exact Hin | reflexivity].
Defined.

(** On the chain, the range of the merge is the hull of the ranges of nodes
    2 and 1, and the range of node 6, whose first input is not connected,
    is infinite although its second input has a range. *)
Lemma getFrameRange_hull_witness :
  Graph.getFrameRange (G := Graph.chain) Graph.chainRange 3%N = (10, 25)%Z
  /\ Graph.getFrameRange (G := Graph.chain) Graph.chainRange 6%N
     = (Graph.INT_MIN, Graph.INT_MAX).
Proof.
  split; [reflexivity |].
  destruct (getFrameRange_hull (G := Graph.chain) Graph.chainRange 6%N) as [_ Hwhole].
  apply Hwhole; [reflexivity |].
  intros i input Hi Hin. simpl in Hi.
  assert (i = 0 \/ i = 1)%Z as [-> | ->] by lia; vm_compute in Hin; [discriminate |].
  injection Hin as <-. vm_compute. split; discriminate.
Defined.

(** Two inputs, the first with the region [rodB] and the second with
    [rodA]: the default region is their bounding box, as for the heuristic;
    when the second input fails, so does the action. *)
Lemma getRegionOfDefinition_default_witness :
  Graph.getRegionOfDefinition Heuristic.boundingBox
    [Some (eStatusOK, Actions.rodB); None; Some (eStatusOK, Actions.rodA)] RectD.null true
  = (eStatusReplyDefault, Actions.rodA)
  /\ (Graph.getRegionOfDefinition Heuristic.boundingBox
        [Some (eStatusOK, Actions.rodB); Some (eStatusFailed, Actions.rodA)]
        RectD.null true).1
     = eStatusFailed.
Proof.
  split.
  - destruct (getRegionOfDefinition_default Heuristic.boundingBox
                [Some (eStatusOK, Actions.rodB); None; Some (eStatusOK, Actions.rodA)]
                RectD.null) as (_ & _ & Hok & _).
    rewrite Hok; [reflexivity |].
    intros rodi [Hin | [Hin | [Hin | []]]]; discriminate.
  - destruct (getRegionOfDefinition_default Heuristic.boundingBox
                [Some (eStatusOK, Actions.rodB); Some (eStatusFailed, Actions.rodA)]
                RectD.null) as (_ & Hfail & _).
    apply Hfail. exists Actions.rodA. right. by left.
Defined.

(** Every input of a node of the chain has a smaller number. *)
Lemma chain_acyclic : Graph.acyclic (G := Graph.chain) N.to_nat.
Proof.
  intros n inp i Hi Hin. simpl in Hin.
  destruct ((i =? 0)%Z && (0 <? n)%N && negb (n =? 6)%N) eqn:H0.
  - injection Hin as <-. apply andb_true_iff in H0 as [H0 _].
    apply andb_true_iff in H0 as [_ H0]. apply N.ltb_lt in H0. lia.
  - destruct ((i =? 1)%Z && ((n =? 3)%N || (n =? 6)%N)) eqn:H1; [| done].
    injection Hin as <-. apply andb_true_iff in H1 as [_ H1].
    apply orb_true_iff in H1 as [H1 | H1]; apply N.eqb_eq in H1; lia.
Qed.

(** On the chain, nodes 4, 3 and 2 are disabled: the nearest enabled node
    above node 4 is node 1. *)
Lemma getNearestNonDisabled_finds_witness :
  Graph.getNearestNonDisabled (G := Graph.chain) 5 4%N = Some (Some 1%N)
  /\ Graph.isNodeDisabled (GraphOps := Graph.chain) 1%N = false
  /\ Graph.upstream (G := Graph.chain) 1%N 4%N.
Proof.
  destruct (getNearestNonDisabled_finds (G := Graph.chain) N.to_nat 5 4%N chain_acyclic)
    as (r & Hr & Hen & _); [simpl; lia |].
  assert (r = Some 1%N) as -> by (vm_compute in Hr; by injection Hr as <-).
  split; [exact Hr |]. by apply Hen.
Defined.

(** Going up from node 4 through disabled nodes ends at node 2, whose only
    input, slot 0, is enabled. *)
Lemma getNearestNonDisabledPrevious_last_witness :
  Graph.getNearestNonDisabledPrevious (G := Graph.chain) 5 4%N (-1)%Z
  = Some (Some (2%N, 0%Z))
  /\ Graph.upstream (G := Graph.chain) 2%N 4%N.
Proof.
  destruct (getNearestNonDisabledPrevious_last (G := Graph.chain) N.to_nat 5 4%N (-1)%Z
              chain_acyclic) as (r & nb & Hr & _ & Hup & _); [simpl; lia | reflexivity |].
  assert (r = 2%N /\ nb = 0%Z) as [-> ->]
    by (vm_compute in Hr; by injection Hr as <- <-).
  split; [exact Hr | exact Hup].
Defined.

(** Node 1 of the chain is animated: node 4, above which it lies, varies
    with the frame, and node 0 does not. *)
Lemma isFrameVaryingOrAnimated_upstream_witness :
  Graph.isFrameVaryingOrAnimated_Recursive (G := Graph.chain) 5 4%N = Some true
  /\ Graph.isFrameVaryingOrAnimated_Recursive (G := Graph.chain) 1 0%N = Some false
  /\ exists m, Graph.upstream (G := Graph.chain) m 4%N
               /\ Graph.getHasAnimation (GraphOps := Graph.chain) m = true.
Proof.
  destruct (isFrameVaryingOrAnimated_upstream (G := Graph.chain) N.to_nat 5 4%N
              chain_acyclic) as (b & Hb & Hiff); [simpl; lia |].
  assert (b = true) as -> by (vm_compute in Hb; by injection Hb as <-).
  split; [exact Hb |]. split; [reflexivity |].
  destruct (proj1 Hiff eq_refl) as (m & Hm & Hv). exists m. split; [done |].
  simpl in Hv. by rewrite orb_false_r in Hv.
Defined.

(** * The planes an effect needs, produces and sees *)

Section PlanesProperties.
Import CacheLookup Graph Planes.
Context `{ImageTypes} {G : GraphOps} {W : Type} `{!PlaneOps W}.
Local Open Scope Z_scope.

Lemma lookup_insertNew {V : Type} (k k' : Z) (v : V) (m : gmap Z V) :
  insertNew k v m !! k'
  = match m !! k' with
    | Some v' => Some v'
    | None => if bool_decide (k' = k) then Some v else None
    end.
Proof.
  unfold insertNew. destruct (m !! k) as [v0 |] eqn:Hk.
  - destruct (m !! k') eqn:Hk'; [done |]. case_bool_decide; [congruence | done].
  - case_bool_decide as Heq.
    + subst. rewrite lookup_insert_eq. by rewrite Hk.
    + rewrite lookup_insert_ne by done. by destruct (m !! k').
Qed.

(** The loop of [getComponentsNeededAndProduced] over a list of slots. *)
Lemma getComponentsNeededAndProduced_loop (node : Node) (l : list Z) :
  forall (comps : gmap Z (list ImageComponents)) (pt fco : option Node),
  let step := fun '(comps, passThroughInput, firstConnectedOptional) i =>
         match getInput node i with
         | None => (comps, passThroughInput, firstConnectedOptional)
         | Some n =>
             if isInputRotoBrush node i
             then (comps, passThroughInput, firstConnectedOptional)
             else
               let comps := insertNew i (getPreferredComponents node (-1)) comps in
               if negb (isInputOptional node i)
               then (comps, Some n, firstConnectedOptional)
               else (comps, passThroughInput, Some n)
         end in
  let cand := fun (optional : bool) =>
    omap (fun i => match getInput node i with
                   | Some n =>
                       if negb (isInputRotoBrush node i)
                          && bool_decide (isInputOptional node i = optional)
                       then Some n else None
                   | None => None
                   end) l in
  let r := fold_left step l (comps, pt, fco) in
  r.1.2 = match list.last (cand false) with Some n => Some n | None => pt end
  /\ r.2 = match list.last (cand true) with Some n => Some n | None => fco end
  /\ forall k, r.1.1 !! k
               = match comps !! k with
                 | Some v => Some v
                 | None =>
                     if existsb (fun i => (i =? k)
                                          && match getInput node i with
                                             | Some _ => negb (isInputRotoBrush node i)
                                             | None => false
                                             end) l
                     then Some (getPreferredComponents node (-1)) else None
                 end.
Proof.
  induction l as [| i l IH]; intros comps pt fco step cand r.
  - subst r cand. simpl. split; [done |]. split; [done |]. intros k. by destruct (comps !! k).
  - subst r.
    change (fold_left step (i :: l) (comps, pt, fco))
      with (fold_left step l (step (comps, pt, fco) i)).
    destruct (step (comps, pt, fco) i) as [[comps1 pt1] fco1] eqn:Hstep.
    specialize (IH comps1 pt1 fco1). cbv zeta in IH. fold step in IH.
    destruct IH as (Hpt & Hfco & Hcomps).
    rewrite Hpt, Hfco. subst cand. cbn [omap list_omap existsb].
    unfold step in Hstep.
    destruct (getInput node i) as [n |] eqn:Hin.
    + destruct (isInputRotoBrush node i) eqn:Hroto.
      * injection Hstep as <- <- <-. simpl.
        split; [done |]. split; [done |]. intros k. rewrite Hcomps.
        by rewrite andb_false_r.
      * destruct (isInputOptional node i) eqn:Hopt; injection Hstep as <- <- <-; simpl.
        -- split; [done |]. split.
           ++ rewrite last_cons. set (x := list.last _). by destruct x.
           ++ intros k. rewrite Hcomps, lookup_insertNew. destruct (comps !! k); [done |].
              rewrite andb_true_r. rewrite (Z.eqb_sym i k).
              case_bool_decide as Hk.
              ** subst. by rewrite Z.eqb_refl.
              ** by apply Z.eqb_neq in Hk as ->.
        -- split; [| split; [done |]].
           ++ rewrite last_cons. set (x := list.last _). by destruct x.
           ++ intros k. rewrite Hcomps, lookup_insertNew. destruct (comps !! k); [done |].
              rewrite andb_true_r. rewrite (Z.eqb_sym i k).
              case_bool_decide as Hk.
              ** subst. by rewrite Z.eqb_refl.
              ** by apply Z.eqb_neq in Hk as ->.
    + injection Hstep as <- <- <-. split; [done |]. split; [done |].
      intros k. rewrite Hcomps. by rewrite andb_false_r.
Qed.

(** X21.  The default of [getComponentsNeededAndProduced], called with an
    empty map and no pass-through input.  The components needed from every
    connected input other than the roto brush are the components the effect
    prefers for its output (they are asked for input -1 at every turn), a
    slot that is not connected or is the roto brush gets no entry, and the
    pass-through input is the last connected input that is not optional,
    or, when there is none, the last connected optional one. *)
Theorem getComponentsNeededAndProduced_default (node : Node) :
  let r := getComponentsNeededAndProduced node ∅ None in
  let preferred := getPreferredComponents node (-1) in
  r.1 !! (-1) = Some preferred
  /\ (forall i n, 0 <= i < getMaxInputCount node -> getInput node i = Some n ->
        isInputRotoBrush node i = false -> r.1 !! i = Some preferred)
  /\ (forall i, 0 <= i < getMaxInputCount node ->
        getInput node i = None \/ isInputRotoBrush node i = true -> r.1 !! i = None)
  /\ (forall i, i < -1 \/ getMaxInputCount node <= i -> 0 <= i \/ i < -1 ->
        r.1 !! i = None)
  /\ r.2 = match list.last (planeInputs node false) with
           | Some n => Some n
           | None => list.last (planeInputs node true)
           end.
Proof.
  intros r preferred. subst r. unfold getComponentsNeededAndProduced.
  pose proof (getComponentsNeededAndProduced_loop node (slots node)
                (insertNew (-1) (getPreferredComponents node (-1)) ∅) None None) as Hloop.
  cbv zeta in Hloop.
  destruct (fold_left _ (slots node) _) as [[comps pt] fco].
  destruct Hloop as (Hpt & Hfco & Hcomps). simpl in Hpt, Hfco, Hcomps. simpl.
  assert (forall k, insertNew (-1) (getPreferredComponents node (-1)) ∅ !! k
                    = if bool_decide (k = -1) then Some preferred else None) as Hinit.
  { intros k. rewrite lookup_insertNew. by rewrite lookup_empty. }
  split; [| split; [| split; [| split]]].
  - rewrite Hcomps, Hinit. by rewrite bool_decide_eq_true_2.
  - intros i n Hi Hin Hroto. rewrite Hcomps, Hinit.
    rewrite bool_decide_eq_false_2 by lia.
    assert (existsb (fun i0 => (i0 =? i)
                               && match getInput node i0 with
                                  | Some _ => negb (isInputRotoBrush node i0)
                                  | None => false
                                  end) (slots node) = true) as ->; [| done].
    apply existsb_exists. exists i. split; [by apply elem_of_slots |].
    by rewrite Z.eqb_refl, Hin, Hroto.
  - intros i Hi Hno. rewrite Hcomps, Hinit. rewrite bool_decide_eq_false_2 by lia.
    assert (existsb (fun i0 => (i0 =? i)
                               && match getInput node i0 with
                                  | Some _ => negb (isInputRotoBrush node i0)
                                  | None => false
                                  end) (slots node) = false) as ->; [| done].
    apply not_true_is_false. intros Hex. apply existsb_exists in Hex as (j & Hj & Hex).
    apply andb_true_iff in Hex as [Heq Hex]. apply Z.eqb_eq in Heq as ->.
    destruct Hno as [Hno | Hno]; [by rewrite Hno in Hex |].
    destruct (getInput node i); [| done]. by rewrite Hno in Hex.
  - intros i Hout Hne. rewrite Hcomps, Hinit. rewrite bool_decide_eq_false_2 by lia.
    assert (existsb (fun i0 => (i0 =? i)
                               && match getInput node i0 with
                                  | Some _ => negb (isInputRotoBrush node i0)
                                  | None => false
                                  end) (slots node) = false) as ->; [| done].
    apply not_true_is_false. intros Hex. apply existsb_exists in Hex as (j & Hj & Hex).
    apply andb_true_iff in Hex as [Heq _]. apply Z.eqb_eq in Heq as ->.
    apply elem_of_slots in Hj. lia.
  - rewrite Hpt. unfold planeInputs. destruct (list.last _); [done |]. rewrite Hfco.
    by destruct (list.last _).
Qed.
End PlanesProperties.

Section AvailableProperties.
Import CacheLookup Graph Planes.
Context `{ImageTypes} {G : GraphOps} {W : Type} `{!PlaneOps W}.
Local Open Scope Z_scope.

Lemma stdmap_insert_keeps {K V : Type} (lt : K -> K -> bool) (k : K) (v : V)
    (m : list (K * V)) (e : K * V) :
  In e m -> In e (Render.stdmap_insert lt k v m).
Proof.
  induction m as [| [k' v'] m IH]; [done |]. simpl.
  destruct (lt k k'); [by right |]. destruct (lt k' k); [| done].
  intros [<- | Hin]; [by left | right; auto].
Qed.

Lemma stdmap_insert_colours (lt : ImageComponents -> ImageComponents -> bool)
    (k : ImageComponents) (v : option Node) (m : ComponentsAvailableMap) :
  (length (List.filter (fun e => isColorPlane e.1) (Render.stdmap_insert lt k v m))
   <= length (List.filter (fun e : ImageComponents * option Node => isColorPlane e.1) m)
      + (if isColorPlane k then 1 else 0))%nat.
Proof.
  induction m as [| [k' v'] m IH]; simpl.
  - destruct (isColorPlane k); simpl; lia.
  - destruct (lt k k').
    + simpl. destruct (isColorPlane k), (isColorPlane k'); simpl; lia.
    + destruct (lt k' k); simpl; [| destruct (isColorPlane k'); simpl; lia].
      destruct (isColorPlane k'); simpl; lia.
Qed.

Lemma colorLoop_colorMatch (it : ImageComponents) (comps : ComponentsAvailableMap) :
  forall colorMatch existing colorMatch',
  colorLoop it comps colorMatch = (existing, colorMatch') ->
  existing = None -> colorMatch' = None ->
  colorMatch = None
  /\ length (List.filter (fun e : ImageComponents * option Node => isColorPlane e.1) comps)
     = 0%nat.
Proof.
  induction comps as [| it2 rest IH]; intros cm ex cm' Hloop Hex Hcm; simpl in *.
  - injection Hloop as <- <-. done.
  - destruct (bool_decide (it2.1 = it)); [by injection Hloop as <- <-; subst |].
    destruct (isColorPlane it2.1) eqn:Hc.
    + by destruct (IH _ _ _ Hloop Hex Hcm) as [[=] _].
    + by apply (IH _ _ _ Hloop Hex Hcm).
Qed.

(** Adding a plane the node produces keeps every entry, adds at most an
    entry that names the node, and never adds a second colour plane. *)
Lemma addProduced_keeps (node : Node) (comps : ComponentsAvailableMap)
    (it : ImageComponents) :
  (forall e, In e comps -> In e (addProduced node comps it))
  /\ (forall e, In e (addProduced node comps it) -> In e comps \/ e.2 = Some node)
  /\ ((length (List.filter (fun e => isColorPlane e.1) comps) <= 1)%nat ->
      (length (List.filter (fun e => isColorPlane e.1) (addProduced node comps it))
       <= 1)%nat).
Proof.
  unfold addProduced. destruct (alreadyExisting it comps) as [e0 |] eqn:Hex.
  - split; [done |]. split; [by left | done].
  - split; [intros e; apply stdmap_insert_keeps |]. split.
    + intros e He. apply stdmap_insert_In in He as [-> | He]; [by right | by left].
    + intros Hc. pose proof (stdmap_insert_colours compsLt it (Some node) comps) as Hins.
      destruct (isColorPlane it) eqn:Hit; [| lia].
      unfold alreadyExisting in Hex. rewrite Hit in Hex.
      destruct (colorLoop it comps None) as [existing colorMatch] eqn:Hloop.
      destruct existing; [done |]. subst colorMatch.
      destruct (colorLoop_colorMatch _ _ _ _ _ Hloop eq_refl eq_refl) as [_ Hzero].
      lia.
Qed.

Lemma addProduced_fold (node : Node) (produced : list ImageComponents) :
  forall comps : ComponentsAvailableMap,
  (forall e, In e comps -> In e (fold_left (addProduced node) produced comps))
  /\ (forall e, In e (fold_left (addProduced node) produced comps) ->
        In e comps \/ e.2 = Some node)
  /\ ((length (List.filter (fun e => isColorPlane e.1) comps) <= 1)%nat ->
      (length (List.filter (fun e => isColorPlane e.1)
                 (fold_left (addProduced node) produced comps)) <= 1)%nat).
Proof.
  induction produced as [| it rest IH]; intros comps; simpl; [by auto |].
  destruct (addProduced_keeps node comps it) as (Hk & Hn & Hc).
  destruct (IH (addProduced node comps it)) as (Hk' & Hn' & Hc').
  split; [auto |]. split; [| auto].
  intros e He. destruct (Hn' e He) as [He' | ?]; [| by right]. auto.
Qed.

Lemma visitNode_keeps (node : Node) (time view : Z) (comps : ComponentsAvailableMap)
    (w : W) :
  let r := visitNode node time view comps w in
  (forall e, In e comps -> In e r.1.1)
  /\ (forall e, In e r.1.1 -> In e comps \/ e.2 = Some node)
  /\ ((length (List.filter (fun e => isColorPlane e.1) comps) <= 1)%nat ->
      (length (List.filter (fun e => isColorPlane e.1) r.1.1) <= 1)%nat).
Proof.
  unfold visitNode.
  destruct (getComponentsNeededAndProduced_public node time view ∅ None w)
    as [[neededComps ptInput] w'].
  assert (let comps' := match neededComps !! (-1) with
                        | Some produced => fold_left (addProduced node) produced comps
                        | None => comps
                        end in
          (forall e, In e comps -> In e comps')
          /\ (forall e, In e comps' -> In e comps \/ e.2 = Some node)
          /\ ((length (List.filter (fun e => isColorPlane e.1) comps) <= 1)%nat ->
              (length (List.filter (fun e => isColorPlane e.1) comps') <= 1)%nat)) as Hc.
  { destruct (neededComps !! (-1)) as [produced |]; simpl.
    - apply addProduced_fold.
    - split; [done |]. split; [by left | done]. }
  by destruct (isPassThroughForNonRenderedPlanes node).
Qed.

(** Marking a node of the universe that was not marked leaves fewer nodes
    to mark. *)
Lemma unmarked_decreases (universe marks : list Node) (node : Node) :
  In node universe -> node ∉ marks ->
  (length (List.filter (fun n => negb (bool_decide (n ∈ marks ++ [node]))) universe)
   < length (List.filter (fun n => negb (bool_decide (n ∈ marks))) universe))%nat.
Proof.
  intros Hin Hnot.
  assert (forall l : list Node,
            (length (List.filter (fun n => negb (bool_decide (n ∈ marks ++ [node]))) l)
             <= length (List.filter (fun n => negb (bool_decide (n ∈ marks))) l))%nat)
    as Hle.
  { induction l as [| n l IH]; [done |]. simpl.
    destruct (bool_decide (n ∈ marks)) eqn:Hm.
    - apply bool_decide_eq_true in Hm.
      rewrite bool_decide_eq_true_2 by (apply elem_of_app; by left). done.
    - simpl. destruct (negb (bool_decide (n ∈ marks ++ [node]))); simpl; lia. }
  induction universe as [| n l IH]; [done |]. simpl.
  destruct Hin as [-> | Hin].
  - rewrite (bool_decide_eq_false_2 (node ∈ marks)) by done.
    rewrite bool_decide_eq_true_2 by (apply elem_of_app; right; by apply list_elem_of_singleton).
    simpl. specialize (Hle l). lia.
  - specialize (IH Hin). destruct (bool_decide (n ∈ marks)) eqn:Hm.
    + apply bool_decide_eq_true in Hm.
      rewrite bool_decide_eq_true_2 by (apply elem_of_app; by left). done.
    + simpl. destruct (negb (bool_decide (n ∈ marks ++ [node]))); simpl; lia.
Qed.

(** X22.  [getComponentsAvailableRecursive] ends on every finite graph, with
    or without cycles: started in a set of nodes that is closed under the
    choice of the input to go on with, it returns within as many nested
    calls as there are nodes of the set left to mark, plus one.  What it
    returns keeps every entry the map held (a plane found lower in the tree
    keeps its producer), every entry it adds names a node it has newly
    marked, and it never adds a second colour plane. *)
Theorem getComponentsAvailableRecursive_keeps (universe : list Node) (time view : Z) :
  (forall n t v c w inp, In n universe -> (visitNode n t v c w).1.2 = Some inp ->
     In inp universe) ->
  forall (depth : nat) (node : Node) (comps : ComponentsAvailableMap)
         (markedNodes : list Node) (w : W),
  In node universe ->
  (length (List.filter (fun n => negb (bool_decide (n ∈ markedNodes))) universe)
   < depth)%nat ->
  exists (comps' : ComponentsAvailableMap) (markedNodes' : list Node) (w' : W),
    getComponentsAvailableRecursive depth node time view comps markedNodes w
    = Some (comps', markedNodes', w')
    /\ (forall e, In e comps -> In e comps')
    /\ (forall e, In e comps' ->
          In e comps
          \/ exists n, e.2 = Some n /\ In n markedNodes' /\ ~ In n markedNodes)
    /\ ((length (List.filter (fun e => isColorPlane e.1) comps) <= 1)%nat ->
        (length (List.filter (fun e => isColorPlane e.1) comps') <= 1)%nat)
    /\ (forall n, In n markedNodes -> In n markedNodes')
    /\ In node markedNodes'.
Proof.
  intros Hclosed. induction depth as [| depth IH]; intros node comps marks w Hin Hfuel;
    [lia |].
  simpl. destruct (bool_decide (node ∈ marks)) eqn:Hm.
  - apply bool_decide_eq_true in Hm. exists comps, marks, w.
    split; [done |]. split; [done |]. split; [by left |]. split; [done |].
    split; [done |]. by apply list_elem_of_In.
  - apply bool_decide_eq_false in Hm.
    pose proof (visitNode_keeps node time view comps w) as Hvisit.
    pose proof (Hclosed node time view comps w) as Hnext.
    destruct (visitNode node time view comps w) as [[comps1 ptInput] w1].
    simpl in Hvisit, Hnext. destruct Hvisit as (Hk & Hn & Hc).
    assert (In node (marks ++ [node])) as Hmarked by (apply in_or_app; right; by left).
    assert (forall e, In e comps1 ->
              In e comps \/ exists n, e.2 = Some n /\ In n (marks ++ [node]) /\ ~ In n marks)
      as Hnew.
    { intros e He. destruct (Hn e He) as [? | He2]; [by left |]. right. exists node.
      split; [done |]. split; [done |]. intros Hold. apply Hm. by apply list_elem_of_In. }
    destruct ptInput as [input |].
    + destruct (IH input comps1 (marks ++ [node]) w1) as
        (comps' & marks' & w' & Hrun & Hk' & Hn' & Hc' & Hmon & Hself).
      { by eapply Hnext. }
      { pose proof (unmarked_decreases universe marks node Hin Hm). lia. }
      exists comps', marks', w'. split; [done |]. split; [auto |].
      split; [| split; [auto |]].
      * intros e He. destruct (Hn' e He) as [He1 | (n & Hp & Hin' & Hnot)].
        -- destruct (Hnew e He1) as [? | (n & Hp & Hin' & Hnot)]; [by left |].
           right. exists n. split; [done |]. split; [by apply Hmon | done].
        -- right. exists n. split; [done |]. split; [done |].
           intros Hold. apply Hnot. apply in_or_app. by left.
      * split.
        -- intros n Hn0. apply Hmon. apply in_or_app. by left.
        -- by apply Hmon.
    + exists comps1, (marks ++ [node]), w1. split; [done |]. split; [done |].
      split; [done |]. split; [done |]. split; [| done].
      intros n Hn0. apply in_or_app. by left.
Qed.
End AvailableProperties.

(** On the chain, asked with an empty map, node 3 needs from its two inputs
    what it prefers for its output, and its pass-through input is node 2,
    its only input that is not optional. *)
Lemma getComponentsNeededAndProduced_default_witness :
  (@Planes.getComponentsNeededAndProduced Scene.sceneTypes Graph.chain unit
     {| Planes.compsLt a b := (Scene.compsRank a <? Scene.compsRank b)%N;
        Planes.isMultiPlanar _ := true;
        Planes.isPassThroughForNonRenderedPlanes _ := true;
        Planes.getPreferredInput _ := 0%Z;
        Planes.getPreferredComponents n i := if (i =? -1)%Z then [Scene.RGBA] else [Scene.Alpha];
        Planes.getComponentsNeededAndProduced_action _ _ _ comps pt w := (comps, pt, w) |}
     3%N ∅ None).2
  = Some 2%N.
Proof.
  match goal with
  | |- (@Planes.getComponentsNeededAndProduced _ _ _ ?ops _ _ _).2 = _ =>
      destruct (@getComponentsNeededAndProduced_default Scene.sceneTypes Graph.chain unit
                  ops 3%N) as (_ & _ & _ & _ & Hpt)
  end.
  rewrite Hpt. reflexivity.
Defined.

(** The walk over the ring, from node 0, ends after the three nodes: node 1
    gives the colour plane, node 2, which produces a colour plane too, only
    adds its auxiliary plane. *)
Lemma getComponentsAvailableRecursive_keeps_witness :
  Ring.available 4 0%N
  = Some ([(Scene.RGBA, Some 1%N); (Scene.Aux 1, Some 0%N); (Scene.Aux 2, Some 2%N)],
          [0%N; 1%N; 2%N], tt).
Proof.
  unfold Ring.available.
  edestruct (@getComponentsAvailableRecursive_keeps Scene.sceneTypes Ring.ring unit
               Ring.ringPlanes [0%N; 1%N; 2%N] 5%Z 0%Z) with (depth := 4%nat) (node := 0%N)
    as (comps' & marks' & w' & Hrun & _).
  - intros n t v c w inp Hn Hnext.
    destruct Hn as [<- | [<- | [<- | []]]]; vm_compute in Hnext; injection Hnext as <-;
      simpl; auto.
  - by left.
  - instantiate (1 := []). simpl. lia.
  - rewrite Hrun. vm_compute in Hrun. by injection Hrun as <- <- <-.
Defined.

Section TrimapProperties.
Import CacheLookup Trimap.
Context `{ImageTypes} {X : Type} `{!TrimapOps X}.
Local Open Scope Z_scope.

Lemma markImageAsBeingRendered_lookup (img : Image) (m : gmap N ImageBeingRendered) (k : N) :
  markImageAsBeingRendered img m !! k
  = if usesBitMap img && bool_decide (ptr img = k)
    then Some (mkImageBeingRendered (from_option refCount 0 (m !! k) + 1)
                 (from_option renderFailed false (m !! k)))
    else m !! k.
Proof.
  unfold markImageAsBeingRendered. destruct (usesBitMap img); [| done]. cbn [negb andb].
  destruct (decide (ptr img = k)) as [<- | Hne].
  - rewrite bool_decide_eq_true_2 by done.
    destruct (m !! ptr img) as [found |]; by rewrite lookup_insert_eq.
  - rewrite bool_decide_eq_false_2 by done.
    destruct (m !! ptr img) as [found |]; by rewrite lookup_insert_ne.
Qed.

Lemma unmarkImageAsBeingRendered_lookup (img : Image) (failed : bool) (m : gmap N ImageBeingRendered)
    (found : ImageBeingRendered) :
  usesBitMap img = true -> m !! ptr img = Some found ->
  exists m', unmarkImageAsBeingRendered img failed m = Some m'
    /\ forall k, m' !! k
       = if bool_decide (ptr img = k)
         then if refCount found - 1 =? 0 then None
              else Some (mkImageBeingRendered (refCount found - 1)
                           (renderFailed found || failed))
         else m !! k.
Proof.
  intros Huses Hfound. unfold unmarkImageAsBeingRendered. rewrite Huses, Hfound.
  cbn [negb refCount renderFailed].
  assert ((if failed then true else renderFailed found) = renderFailed found || failed)
    as -> by (by destruct failed, (renderFailed found)).
  destruct (refCount found - 1 =? 0) eqn:Hzero; eexists; (split; [reflexivity |]);
    intros k; destruct (decide (ptr img = k)) as [<- | Hne].
  - rewrite bool_decide_eq_true_2 by done. by rewrite lookup_delete_eq.
  - rewrite bool_decide_eq_false_2 by done. by rewrite lookup_delete_ne.
  - rewrite bool_decide_eq_true_2 by done. by rewrite lookup_insert_eq.
  - rewrite bool_decide_eq_false_2 by done. by rewrite lookup_insert_ne.
Qed.

Lemma holders_In (useImageAsOutput : bool) (planes : Tile.PlaneMap)
    (c : ImageComponents) (p : Tile.PlaneToRender) (img : Image) :
  In (c, p) planes -> planeImage useImageAsOutput p = Some img ->
  usesBitMap img = true ->
  (0 < holders useImageAsOutput (ptr img) planes)%nat.
Proof.
  induction planes as [| [c' p'] rest IH]; [done |]. intros [[= -> ->] | Hin] Himg Huses.
  - simpl. rewrite Himg, Huses. rewrite bool_decide_eq_true_2 by done. simpl. lia.
  - simpl. specialize (IH Hin Himg Huses).
    destruct (planeImage useImageAsOutput p') as [img' |]; [| done].
    destruct (usesBitMap img' && bool_decide (ptr img' = ptr img)); lia.
Qed.

(** After the planes are marked, the image of identity [k] counts as many
    renders more as there are planes that hold it. *)
Lemma markPlanes_lookup (useImageAsOutput : bool) (planes : Tile.PlaneMap) :
  forall m : gmap N ImageBeingRendered,
  (forall c p, In (c, p) planes -> is_Some (planeImage useImageAsOutput p)) ->
  exists m', markPlanes useImageAsOutput planes m = Some m'
    /\ forall k, m' !! k
       = match holders useImageAsOutput k planes with
         | O => m !! k
         | S n => Some (mkImageBeingRendered
                          (from_option refCount 0 (m !! k) + Z.of_nat (S n))
                          (from_option renderFailed false (m !! k)))
         end.
Proof.
  induction planes as [| [c p] rest IH]; intros m Hall; simpl.
  - by exists m.
  - destruct (Hall c p) as [img Himg]; [by left |]. rewrite Himg.
    destruct (IH (markImageAsBeingRendered img m)) as (m' & Hrun & Hk).
    { intros c' p' Hin. apply (Hall c' p'). by right. }
    exists m'. split; [done |]. intros k. rewrite Hk.
    rewrite markImageAsBeingRendered_lookup.
    destruct (usesBitMap img && bool_decide (ptr img = k)); [| done].
    destruct (holders useImageAsOutput k rest) as [| n]; simpl from_option.
    + done.
    + do 2 f_equal. lia.
Qed.

(** When the render is not aborted and the marks are taken off by
    [unmarkImageAsBeingRendered], the image of identity [k] counts as many
    renders fewer as there are planes that hold it. *)
Lemma unmarkPlanes_lookup (useImageAsOutput : bool) (renderRetCode : RenderRoIStatusEnum)
    (isBeingRenderedElsewhere : bool) (roi : RectI.t) (x : X)
    (planes : Tile.PlaneMap) :
  let failed := bool_decide (renderRetCode = eRenderRoIStatusRenderFailed) in
  failed || negb isBeingRenderedElsewhere = true ->
  forall m : gmap N ImageBeingRendered,
  (forall c p, In (c, p) planes -> is_Some (planeImage useImageAsOutput p)) ->
  (forall k, (0 < holders useImageAsOutput k planes)%nat ->
     exists found, m !! k = Some found
       /\ Z.of_nat (holders useImageAsOutput k planes) <= refCount found) ->
  exists m',
    unmarkPlanes useImageAsOutput false renderRetCode isBeingRenderedElsewhere roi planes
      (mkWorld m x)
    = Some (false, mkWorld m' x)
    /\ forall k, m' !! k
       = match holders useImageAsOutput k planes with
         | O => m !! k
         | S n =>
             match m !! k with
             | Some found =>
                 if refCount found - Z.of_nat (S n) =? 0 then None
                 else Some (mkImageBeingRendered (refCount found - Z.of_nat (S n))
                              (renderFailed found || failed))
             | None => None
             end
         end.
Proof.
  intros failed Hbranch. induction planes as [| [c p] rest IH]; intros m Hall Hheld.
  - by exists m.
  - destruct (Hall c p) as [img Himg]; [by left |].
    cbn [unmarkPlanes]. rewrite Himg. cbn [negb]. fold failed. rewrite Hbranch.
    cbn [imagesBeingRendered ext].
    destruct (usesBitMap img) eqn:Huses.
    + destruct (Hheld (ptr img)) as (found & Hfound & Hle).
      { simpl. rewrite Himg, Huses. rewrite bool_decide_eq_true_2 by done. simpl. lia. }
      destruct (unmarkImageAsBeingRendered_lookup img failed m found Huses Hfound)
        as (m1 & -> & Hm1). cbn [fmap option_fmap option_map].
      assert (holders useImageAsOutput (ptr img) ((c, p) :: rest)
              = S (holders useImageAsOutput (ptr img) rest)) as Hself.
      { simpl. rewrite Himg, Huses. by rewrite bool_decide_eq_true_2. }
      destruct (IH m1) as (m' & Hrun & Hk).
      { intros c' p' Hin. apply (Hall c' p'). by right. }
      { intros k Hk. rewrite Hm1. destruct (decide (ptr img = k)) as [<- | Hne].
        - rewrite bool_decide_eq_true_2 by done. rewrite Hself in Hle.
          destruct (refCount found - 1 =? 0) eqn:Hzero; [lia |].
          eexists. split; [reflexivity |]. simpl. lia.
        - rewrite bool_decide_eq_false_2 by done.
          destruct (Hheld k) as (found' & Hfound' & Hle').
          { simpl. rewrite Himg.
            destruct (usesBitMap img && bool_decide (ptr img = k)); lia. }
          exists found'. split; [done |]. revert Hle'. simpl. rewrite Himg, Huses. simpl.
          by rewrite bool_decide_eq_false_2. }
      exists m'. split; [done |]. intros k. rewrite Hk, Hm1.
      destruct (decide (ptr img = k)) as [<- | Hne].
      * rewrite Hself, Hfound. rewrite bool_decide_eq_true_2 by done.
        rewrite Hself in Hle.
        destruct (holders useImageAsOutput (ptr img) rest) as [| n].
        -- done.
        -- destruct (refCount found - 1 =? 0) eqn:Hzero; [lia |]. cbn [refCount renderFailed].
           replace (refCount found - 1 - Z.of_nat (S n))
             with (refCount found - Z.of_nat (S (S n))) by lia.
           by rewrite <- orb_assoc, orb_diag.
      * rewrite bool_decide_eq_false_2 by done. simpl. rewrite Himg, Huses. simpl.
        by rewrite bool_decide_eq_false_2.
    + unfold unmarkImageAsBeingRendered. rewrite Huses. cbn [negb fmap option_fmap option_map].
      destruct (IH m) as (m' & Hrun & Hk).
      { intros c' p' Hin. apply (Hall c' p'). by right. }
      { intros k Hk. destruct (Hheld k) as (found' & Hfound' & Hle').
        - simpl. by rewrite Himg, Huses.
        - exists found'. split; [done |]. revert Hle'. simpl. by rewrite Himg, Huses. }
      exists m'. split; [done |]. intros k. rewrite Hk. simpl. by rewrite Himg, Huses.
Qed.

(** X23.  A render of planes that is not aborted, and has nothing to wait
    for from other renders, takes off every mark it has put on: the registry
    of the images being rendered holds the same images with the same counts
    as before, whether the render succeeds or fails.  A failed render only
    raises [renderFailed] on the images of its planes that other renders
    hold as well. *)
Theorem renderPlanes_marks_balanced (frameRenderArgs : Tile.ParallelRenderArgs)
    (hasSomethingToRender useImageAsOutput : bool) (roi : RectI.t)
    (planes : Tile.PlaneMap) (renderRoIInternal : X -> RenderRoIStatusEnum * X)
    (w : World X) :
  let r := if hasSomethingToRender then renderRoIInternal (ext w)
           else (eRenderRoIStatusImageAlreadyRendered, ext w) in
  let failed := bool_decide (r.1 = eRenderRoIStatusRenderFailed) in
  let trimap := negb (Tile.canAbort frameRenderArgs)
                && Tile.isRenderResponseToUserInteraction frameRenderArgs in
  (forall c p, In (c, p) planes -> is_Some (planeImage useImageAsOutput p)) ->
  counted (imagesBeingRendered w) ->
  aborted r.2 = false ->
  exists m',
    renderPlanes frameRenderArgs hasSomethingToRender false useImageAsOutput roi planes
      renderRoIInternal w
    = Some (if failed then ThrowRenderingFailed else GoOn r.1, mkWorld m' r.2)
    /\ counted m'
    /\ forall k, m' !! k
       = (fun found =>
            mkImageBeingRendered (refCount found)
              (renderFailed found
               || (trimap && failed
                   && bool_decide (0 < holders useImageAsOutput k planes)%nat)))
         <$> imagesBeingRendered w !! k.
Proof.
  intros r failed trimap Hall Hcounted Hnot.
  assert (forall m' : gmap N ImageBeingRendered,
            (forall k, m' !! k
               = (fun found =>
                    mkImageBeingRendered (refCount found)
                      (renderFailed found
                       || (trimap && failed
                           && bool_decide (0 < holders useImageAsOutput k planes)%nat)))
                 <$> imagesBeingRendered w !! k) ->
            counted m') as Hkeeps.
  { intros m' Hk k found. rewrite Hk.
    destruct (imagesBeingRendered w !! k) as [found0 |] eqn:Hfound0; [| done].
    intros [= <-]. simpl. by apply (Hcounted k). }
  assert (verdict false r.1 = if failed then ThrowRenderingFailed else GoOn r.1) as Hverdict.
  { unfold verdict. simpl. by fold failed. }
  unfold renderPlanes. fold trimap.
  destruct hasSomethingToRender; cbn [negb andb].
  - fold r. destruct r as [renderRetCode x] eqn:Hr. cbn [fst snd] in *.
    cbn [ext]. rewrite Hnot.
    destruct trimap eqn:Htrimap.
    + destruct (markPlanes_lookup useImageAsOutput planes (imagesBeingRendered w) Hall)
        as (m1 & -> & Hm1).
      destruct (unmarkPlanes_lookup useImageAsOutput renderRetCode false roi x planes)
        with (m := m1) as (m' & -> & Hm').
      { by rewrite orb_true_r. }
      { done. }
      { intros k Hk. rewrite Hm1.
        destruct (holders useImageAsOutput k planes) as [| n]; [lia |].
        eexists. split; [reflexivity |]. simpl.
        destruct (imagesBeingRendered w !! k) as [found0 |] eqn:Hfound0; simpl; [| lia].
        pose proof (Hcounted k found0 Hfound0). lia. }
      assert (forall k, m' !! k
                = (fun found =>
                     mkImageBeingRendered (refCount found)
                       (renderFailed found
                        || (true && failed
                            && bool_decide (0 < holders useImageAsOutput k planes)%nat)))
                  <$> imagesBeingRendered w !! k) as Hk.
      { intros k. rewrite Hm', Hm1. fold failed.
        destruct (holders useImageAsOutput k planes) as [| n] eqn:Hn.
        - rewrite bool_decide_eq_false_2 by lia. rewrite andb_false_r.
          destruct (imagesBeingRendered w !! k) as [[rc fl] |]; [| done]. simpl.
          by rewrite orb_false_r.
        - rewrite bool_decide_eq_true_2 by lia. rewrite andb_true_r. cbn [refCount renderFailed].
          destruct (imagesBeingRendered w !! k) as [found0 |] eqn:Hfound0; simpl.
          + pose proof (Hcounted k found0 Hfound0).
            rewrite Z.add_simpl_r.
            destruct (refCount found0 =? 0) eqn:Hzero; [lia | done].
          + by rewrite Z.add_simpl_r. }
      exists m'. rewrite Hverdict. split; [done |]. split; [apply Hkeeps; exact Hk | exact Hk].
    + exists (imagesBeingRendered w). rewrite Hverdict. split; [done |].
      assert (forall k, imagesBeingRendered w !! k
                = (fun found =>
                     mkImageBeingRendered (refCount found)
                       (renderFailed found
                        || (false && failed
                            && bool_decide (0 < holders useImageAsOutput k planes)%nat)))
                  <$> imagesBeingRendered w !! k) as Hk.
      { intros k. destruct (imagesBeingRendered w !! k) as [[rc fl] |]; [| done]. simpl.
        by rewrite orb_false_r. }
      split; [apply Hkeeps; exact Hk | exact Hk].
  - subst r. cbn [fst snd] in *. subst failed. rewrite Hnot.
    rewrite bool_decide_eq_false_2 by done. exists (imagesBeingRendered w).
    split; [by destruct w |].
    assert (forall k, imagesBeingRendered w !! k
              = (fun found =>
                   mkImageBeingRendered (refCount found)
                     (renderFailed found
                      || (trimap && false
                          && bool_decide (0 < holders useImageAsOutput k planes)%nat)))
                <$> imagesBeingRendered w !! k) as Hk.
    { intros k. destruct (imagesBeingRendered w !! k) as [[rc fl] |]; [| done]. simpl.
      by rewrite andb_false_r, orb_false_r. }
    split; [| done]. intros k found. rewrite Hk.
    destruct (imagesBeingRendered w !! k) as [found0 |] eqn:Hfound0; [| done].
    intros [= <-]. simpl. by apply (Hcounted k).
Qed.

(** X24.  When a render that follows the tri-map protocol is found aborted,
    [renderRoI] returns from within the loop that takes the marks off, at
    its first turn: the image of the first plane is unmarked and removed
    from the node cache, and the image of every other plane stays marked,
    its count raised by the number of planes that hold it. *)
Theorem renderPlanes_aborted_keeps_marks (frameRenderArgs : Tile.ParallelRenderArgs)
    (hasSomethingToRender isBeingRenderedElsewhere useImageAsOutput : bool)
    (roi : RectI.t) (c1 : ImageComponents) (p1 : Tile.PlaneToRender) (img1 : Image)
    (rest : Tile.PlaneMap) (renderRoIInternal : X -> RenderRoIStatusEnum * X)
    (w : World X) :
  let r := if hasSomethingToRender then renderRoIInternal (ext w)
           else (eRenderRoIStatusImageAlreadyRendered, ext w) in
  Tile.canAbort frameRenderArgs = false ->
  Tile.isRenderResponseToUserInteraction frameRenderArgs = true ->
  hasSomethingToRender || isBeingRenderedElsewhere = true ->
  planeImage useImageAsOutput p1 = Some img1 ->
  (forall c p, In (c, p) rest -> is_Some (planeImage useImageAsOutput p)) ->
  aborted r.2 = true ->
  exists m',
    renderPlanes frameRenderArgs hasSomethingToRender isBeingRenderedElsewhere
      useImageAsOutput roi ((c1, p1) :: rest) renderRoIInternal w
    = Some (ReturnAborted, mkWorld m' (removeFromNodeCache img1 r.2))
    /\ forall c p img,
         In (c, p) rest -> planeImage useImageAsOutput p = Some img ->
         usesBitMap img = true -> ptr img <> ptr img1 ->
         exists found,
           m' !! ptr img = Some found
           /\ refCount found
              = from_option refCount 0 (imagesBeingRendered w !! ptr img)
                + Z.of_nat (holders useImageAsOutput (ptr img) rest)
           /\ (0 < holders useImageAsOutput (ptr img) rest)%nat.
Proof.
  intros r Hcan Huser Hsome Himg1 Hall Habort.
  assert (forall c p, In (c, p) ((c1, p1) :: rest) ->
            is_Some (planeImage useImageAsOutput p)) as Hall'.
  { intros c p [[= <- <-] | Hin]; [by rewrite Himg1 | by apply (Hall c p)]. }
  destruct (markPlanes_lookup useImageAsOutput ((c1, p1) :: rest) (imagesBeingRendered w)
              Hall') as (m1 & Hmark & Hm1).
  unfold renderPlanes. rewrite Hcan, Huser. cbn [negb andb].
  assert (negb hasSomethingToRender && negb isBeingRenderedElsewhere = false) as ->.
  { by destruct hasSomethingToRender, isBeingRenderedElsewhere. }
  rewrite Hmark. fold r. destruct r as [renderRetCode x]. cbn [fst snd ext] in *.
  rewrite Habort. cbn [unmarkPlanes]. rewrite Himg1. cbn [negb imagesBeingRendered ext].
  assert (exists m', unmarkImageAsBeingRendered img1 true m1 = Some m'
            /\ forall k, k <> ptr img1 -> m' !! k = m1 !! k) as (m' & -> & Hm').
  { destruct (usesBitMap img1) eqn:Huses.
    - assert (is_Some (m1 !! ptr img1)) as [found Hfound].
      { rewrite Hm1. simpl. rewrite Himg1, Huses. by rewrite bool_decide_eq_true_2. }
      destruct (unmarkImageAsBeingRendered_lookup img1 true m1 found Huses Hfound)
        as (m' & -> & Hk).
      exists m'. split; [done |]. intros k Hne. rewrite Hk.
      by rewrite bool_decide_eq_false_2.
    - exists m1. unfold unmarkImageAsBeingRendered. by rewrite Huses. }
  exists m'. split; [done |]. intros c p img Hin Himg Huses Hne.
  pose proof (holders_In useImageAsOutput rest c p img Hin Himg Huses) as Hheld.
  rewrite Hm' by done. rewrite Hm1. simpl holders. rewrite Himg1.
  rewrite (bool_decide_eq_false_2 (ptr img1 = ptr img)) by done. rewrite andb_false_r.
  destruct (holders useImageAsOutput (ptr img) rest) as [| n]; [lia |].
  eexists. split; [reflexivity |]. split; [done | lia].
Qed.
End TrimapProperties.

(** In the scene, a render of the two planes that succeeds leaves the
    registry as it was: the second image is held by the other render
    alone. *)
Lemma renderPlanes_marks_balanced_witness :
  exists m',
    Trimap.run false Trimap.eRenderRoIStatusImageRendered
    = Some (Trimap.GoOn Trimap.eRenderRoIStatusImageRendered,
            Trimap.mkWorld m' (false, Trimap.eRenderRoIStatusImageRendered, []))
    /\ m' !! 1%N = None
    /\ m' !! 2%N = Some (Trimap.mkImageBeingRendered 1 false).
Proof.
  destruct (@renderPlanes_marks_balanced Scene.sceneTypes _ Trimap.sceneTrimap
              Scene.interactiveFrame true false Scene.tileRect Trimap.planesAB
              Trimap.sceneRender
              (Trimap.sceneWorld false Trimap.eRenderRoIStatusImageRendered))
    as (m' & Hrun & _ & Hk).
  - intros c p [[= <- <-] | [[= <- <-] | []]]; by eexists.
  - intros k found Hfound. change (Trimap.registryB !! k = Some found) in Hfound.
    unfold Trimap.registryB in Hfound.
    apply lookup_singleton_Some in Hfound as [_ <-]. simpl. lia.
  - reflexivity.
  - exists m'. split; [exact Hrun |]. rewrite !Hk. split; reflexivity.
Defined.

(** In the scene, when the render is aborted, the first image leaves the
    registry and the second stays with the mark of this render on top of
    the other's. *)
Lemma renderPlanes_aborted_keeps_marks_witness :
  exists m',
    Trimap.run true Trimap.eRenderRoIStatusImageRendered
    = Some (Trimap.ReturnAborted,
            Trimap.mkWorld m' (true, Trimap.eRenderRoIStatusImageRendered, [1%N]))
    /\ exists found, m' !! 2%N = Some found /\ Trimap.refCount found = 2%Z.
Proof.
  destruct (@renderPlanes_aborted_keeps_marks Scene.sceneTypes _ Trimap.sceneTrimap
              Scene.interactiveFrame true false false Scene.tileRect Scene.RGBA
              (Tile.mkPlaneToRender (Some Scene.imgByte1) (Some Scene.imgByte1) None None
                 false None)
              Scene.imgByte1
              [(Scene.Alpha,
                Tile.mkPlaneToRender (Some Scene.imgFloat0) (Some Scene.imgFloat0) None
                  None false None)]
              Trimap.sceneRender
              (Trimap.sceneWorld true Trimap.eRenderRoIStatusImageRendered))
    as (m' & Hrun & Hk); try reflexivity.
  - intros c p [[= <- <-] | []]; by eexists.
  - exists m'. split; [exact Hrun |].
    destruct (Hk Scene.Alpha
                (Tile.mkPlaneToRender (Some Scene.imgFloat0) (Some Scene.imgFloat0) None
                   None false None)
                Scene.imgFloat0) as (found & Hfound & Hcount & _);
      [by left | reflexivity | reflexivity | done |].
    exists found. split; [exact Hfound |]. rewrite Hcount. reflexivity.
Defined.

Section OutputEffectProperties.
Import OutputEffect.
Local Open Scope Z_scope.

(** X25.  With a project whose format has no infinite edge,
    [ifInfiniteclipRectToProjectDefault] leaves a rectangle without an
    infinite edge, tells whether the rectangle it was given had one, and
    asked again about its own result changes nothing and answers false. *)
Theorem ifInfiniteclipRectToProjectDefault_finite (e : Heuristic.Env)
    (projectDefault : RectI.t) (rod : RectD.t) :
  Heuristic.kOfxFlagInfiniteMin e < RectI.x1 projectDefault ->
  Heuristic.kOfxFlagInfiniteMin e < RectI.y1 projectDefault ->
  RectI.x2 projectDefault < Heuristic.kOfxFlagInfiniteMax e ->
  RectI.y2 projectDefault < Heuristic.kOfxFlagInfiniteMax e ->
  let r := ifInfiniteclipRectToProjectDefault e (Some projectDefault) rod in
  Heuristic.anyInfinite e r.2 = false
  /\ r.1 = Heuristic.anyInfinite e rod
  /\ ifInfiniteclipRectToProjectDefault e (Some projectDefault) r.2 = (false, r.2).
Proof.
  intros Hx1 Hy1 Hx2 Hy2. destruct rod as [x1 y1 x2 y2].
  unfold ifInfiniteclipRectToProjectDefault, Heuristic.anyInfinite, Heuristic.x1Infinite,
    Heuristic.y1Infinite, Heuristic.x2Infinite, Heuristic.y2Infinite.
  pose proof (Z.leb_spec x1 (Heuristic.kOfxFlagInfiniteMin e)) as H1.
  pose proof (Z.leb_spec y1 (Heuristic.kOfxFlagInfiniteMin e)) as H2.
  pose proof (Z.leb_spec (Heuristic.kOfxFlagInfiniteMax e) x2) as H3.
  pose proof (Z.leb_spec (Heuristic.kOfxFlagInfiniteMax e) y2) as H4.
  destruct H1; cbn [RectD.x1 RectD.y1 RectD.x2 RectD.y2 fst snd]; rewrite ?Z.geb_leb;
    destruct H2; cbn [RectD.x1 RectD.y1 RectD.x2 RectD.y2 fst snd]; rewrite ?Z.geb_leb;
    destruct H3; cbn [RectD.x1 RectD.y1 RectD.x2 RectD.y2 fst snd]; rewrite ?Z.geb_leb;
    destruct H4; cbn [RectD.x1 RectD.y1 RectD.x2 RectD.y2 fst snd]; rewrite ?Z.geb_leb;
    repeat match goal with
           | |- context [?a <=? ?b] =>
               first [ rewrite (proj2 (Z.leb_gt a b)) by lia
                     | rewrite (proj2 (Z.leb_le a b)) by lia ];
               cbn [RectD.x1 RectD.y1 RectD.x2 RectD.y2 fst snd]; rewrite ?Z.geb_leb
           end;
    done.
Qed.
End OutputEffectProperties.

(** The left edge of the scene's rectangle is infinite: it becomes the left
    edge of the project's format. *)
Lemma ifInfiniteclipRectToProjectDefault_finite_witness :
  (OutputEffect.ifInfiniteclipRectToProjectDefault Heuristic.sceneEnv
     (Some OutputEffect.sceneProject) Heuristic.sceneRoD).1
  = true.
Proof.
  destruct (ifInfiniteclipRectToProjectDefault_finite Heuristic.sceneEnv
              OutputEffect.sceneProject Heuristic.sceneRoD) as (_ & -> & _);
    [vm_compute; reflexivity .. | reflexivity].
Defined.
